(** * tqueue: item queues, batch views and queue sets (src/util/src/tqueue.c)

    A shallow embedding of [tqueue.c].  The C objects live in a heap that is
    addressed by pointers; every function of the file is a computation in a
    state-and-fault monad over that heap.  The embedding is sequential: the
    [pthread_mutex_lock]/[unlock] calls bracket critical sections and have
    no effect on the data of a single-threaded run, so they are left out,
    and [atomic_add_fetch_32]/[atomic_sub_fetch_32] are the 32-bit
    additions they perform. *)

From Stdlib Require Import ZArith Lia.
From stdpp Require Import gmap list.

Local Open Scope Z_scope.

(** ** Machine data *)

(** A pointer is an address; address [0] is the null pointer. *)
Abbreviation ptr := N.
Definition NULL : ptr := 0%N.

Definition is_null (p : ptr) : bool := N.eqb p NULL.

Abbreviation byte := Byte.byte.

(** [int32_t] arithmetic: the result of [++], [--] and of the atomic
    add/sub builtins, reduced to the signed 32-bit range. *)
Definition wrap32 (z : Z) : Z := (z + 2 ^ 31) mod 2 ^ 32 - 2 ^ 31.

Definition INT32_MAX : Z := 2 ^ 31 - 1.

(** [memcpy dst src n]: the first [n] bytes of [dst] are replaced by the
    first [n] bytes of [src].  Reading or writing past the end of a buffer
    is undefined in C, and a negative [n] is a huge [size_t]; the model
    gives no result there. *)
Definition memcpy (dst src : list byte) (n : Z) : option (list byte) :=
  let k := Z.to_nat n in
  if decide (0 ≤ n ∧ (k ≤ length src)%nat ∧ (k ≤ length dst)%nat)
  then Some (take k src ++ drop k dst)
  else None.

(** ** The four structures *)

Record STaosQnode := mkQnode {
  qnode_next : ptr;
  qnode_item : list byte
}.

Record STaosQueue := mkQueue {
  queue_itemSize   : Z;
  queue_numOfItems : Z;
  queue_head       : ptr;   (* STaosQnode *)
  queue_tail       : ptr;   (* STaosQnode *)
  queue_next       : ptr;   (* STaosQueue, for queue set *)
  queue_qset       : ptr    (* STaosQset, for queue set *)
}.

Record STaosQset := mkQset {
  qset_head        : ptr;   (* STaosQueue *)
  qset_current     : ptr;   (* STaosQueue *)
  qset_numOfQueues : Z;
  qset_numOfItems  : Z
}.

Record STaosQall := mkQall {
  qall_current    : ptr;    (* STaosQnode *)
  qall_start      : ptr;    (* STaosQnode *)
  qall_itemSize   : Z;
  qall_numOfItems : Z
}.

(** Field assignments. *)
Definition set_qnode_next (v : ptr) (n : STaosQnode) : STaosQnode :=
  mkQnode v (qnode_item n).
Definition set_qnode_item (v : list byte) (n : STaosQnode) : STaosQnode :=
  mkQnode (qnode_next n) v.

Definition set_queue_itemSize (v : Z) (q : STaosQueue) : STaosQueue :=
  mkQueue v (queue_numOfItems q) (queue_head q) (queue_tail q) (queue_next q) (queue_qset q).
Definition set_queue_numOfItems (v : Z) (q : STaosQueue) : STaosQueue :=
  mkQueue (queue_itemSize q) v (queue_head q) (queue_tail q) (queue_next q) (queue_qset q).
Definition set_queue_head (v : ptr) (q : STaosQueue) : STaosQueue :=
  mkQueue (queue_itemSize q) (queue_numOfItems q) v (queue_tail q) (queue_next q) (queue_qset q).
Definition set_queue_tail (v : ptr) (q : STaosQueue) : STaosQueue :=
  mkQueue (queue_itemSize q) (queue_numOfItems q) (queue_head q) v (queue_next q) (queue_qset q).
Definition set_queue_next (v : ptr) (q : STaosQueue) : STaosQueue :=
  mkQueue (queue_itemSize q) (queue_numOfItems q) (queue_head q) (queue_tail q) v (queue_qset q).
Definition set_queue_qset (v : ptr) (q : STaosQueue) : STaosQueue :=
  mkQueue (queue_itemSize q) (queue_numOfItems q) (queue_head q) (queue_tail q) (queue_next q) v.

Definition set_qset_head (v : ptr) (s : STaosQset) : STaosQset :=
  mkQset v (qset_current s) (qset_numOfQueues s) (qset_numOfItems s).
Definition set_qset_current (v : ptr) (s : STaosQset) : STaosQset :=
  mkQset (qset_head s) v (qset_numOfQueues s) (qset_numOfItems s).
Definition set_qset_numOfQueues (v : Z) (s : STaosQset) : STaosQset :=
  mkQset (qset_head s) (qset_current s) v (qset_numOfItems s).
Definition set_qset_numOfItems (v : Z) (s : STaosQset) : STaosQset :=
  mkQset (qset_head s) (qset_current s) (qset_numOfQueues s) v.

Definition set_qall_current (v : ptr) (a : STaosQall) : STaosQall :=
  mkQall v (qall_start a) (qall_itemSize a) (qall_numOfItems a).

(** [atomic_add_fetch_32(&qset->numOfItems, v)] and its [sub] twin. *)
Definition atomic_add_numOfItems (v : Z) (s : STaosQset) : STaosQset :=
  set_qset_numOfItems (wrap32 (qset_numOfItems s + v)) s.
Definition atomic_sub_numOfItems (v : Z) (s : STaosQset) : STaosQset :=
  set_qset_numOfItems (wrap32 (qset_numOfItems s - v)) s.

(** ** The heap *)

(** The error code stored in [terrno]; its numeric value is given in
    [taoserror.h]. *)
Inductive errcode := TSDB_CODE_NO_RESOURCE.

(** One typed store per structure, all addressed from one address space.
    [brk] is the next address [calloc] hands out, [calloc_ok] lists the
    outcomes of the coming [calloc] calls ([true]: memory is granted), the
    first call first; once the list is used up every call fails. *)
Record mem := mkMem {
  nodes     : gmap N STaosQnode;
  queues    : gmap N STaosQueue;
  qsets     : gmap N STaosQset;
  qalls     : gmap N STaosQall;
  brk       : N;
  calloc_ok : list bool;
  terrno    : option errcode
}.

Definition set_nodes (f : gmap N STaosQnode → gmap N STaosQnode) (m : mem) : mem :=
  mkMem (f (nodes m)) (queues m) (qsets m) (qalls m) (brk m) (calloc_ok m) (terrno m).
Definition set_queues (f : gmap N STaosQueue → gmap N STaosQueue) (m : mem) : mem :=
  mkMem (nodes m) (f (queues m)) (qsets m) (qalls m) (brk m) (calloc_ok m) (terrno m).
Definition set_qsets (f : gmap N STaosQset → gmap N STaosQset) (m : mem) : mem :=
  mkMem (nodes m) (queues m) (f (qsets m)) (qalls m) (brk m) (calloc_ok m) (terrno m).
Definition set_qalls (f : gmap N STaosQall → gmap N STaosQall) (m : mem) : mem :=
  mkMem (nodes m) (queues m) (qsets m) (f (qalls m)) (brk m) (calloc_ok m) (terrno m).

(** The heap of a program that has allocated nothing yet. *)
Definition mem_init (oracle : list bool) : mem :=
  mkMem ∅ ∅ ∅ ∅ 1%N oracle None.

(** ** The monad *)

(** A call ends with a value and a heap, or faults (a null or dangling
    pointer is dereferenced, a buffer is overrun, a block is freed twice),
    or is still running when the step budget of its loops is used up. *)
Inductive result (A : Type) : Type :=
| Ok (a : A) (m : mem)
| Fault
| Timeout.
Arguments Ok {A} a m.
Arguments Fault {A}.
Arguments Timeout {A}.

Definition M (A : Type) : Type := mem → result A.

Definition ret {A} (a : A) : M A := fun m => Ok a m.
Definition bind {A B} (c : M A) (k : A → M B) : M B :=
  fun m => match c m with
           | Ok a m' => k a m'
           | Fault => Fault
           | Timeout => Timeout
           end.
Definition fault {A} : M A := fun _ => Fault.
Definition timeout {A} : M A := fun _ => Timeout.

Notation "'do' x <- c ; k" := (bind c (fun x => k))
  (at level 10, x name, c at level 100, k at level 200,
   format "'[v' 'do'  x  <-  c ; '/' k ']'").
Notation "c ;; k" := (bind c (fun _ => k))
  (at level 100, k at level 200, right associativity).

Definition when (b : bool) (c : M unit) : M unit := if b then c else ret tt.

(** *** Allocation *)

(** [calloc]: the next address, or [NULL] when the allocator refuses. *)
Definition calloc : M ptr := fun m =>
  match calloc_ok m with
  | true :: rest =>
      Ok (brk m) (mkMem (nodes m) (queues m) (qsets m) (qalls m)
                        (N.succ (brk m)) rest (terrno m))
  | false :: rest =>
      Ok NULL (mkMem (nodes m) (queues m) (qsets m) (qalls m)
                     (brk m) rest (terrno m))
  | [] => Ok NULL m
  end.

Definition set_terrno (e : errcode) : M unit := fun m =>
  Ok tt (mkMem (nodes m) (queues m) (qsets m) (qalls m) (brk m) (calloc_ok m) (Some e)).

(** Zero-filled blocks of each type. *)
Definition zero_bytes (n : Z) : list byte := replicate (Z.to_nat n) Byte.x00.
Definition zero_qnode (itemSize : Z) : STaosQnode := mkQnode NULL (zero_bytes itemSize).
Definition zero_queue : STaosQueue := mkQueue 0 0 NULL NULL NULL NULL.
Definition zero_qset : STaosQset := mkQset NULL NULL 0 0.
Definition zero_qall : STaosQall := mkQall NULL NULL 0 0.

Definition calloc_qnode (itemSize : Z) : M ptr :=
  do p <- calloc;
  if is_null p then ret p
  else fun m => Ok p (set_nodes (insert p (zero_qnode itemSize)) m).

Definition calloc_queue : M ptr :=
  do p <- calloc;
  if is_null p then ret p
  else fun m => Ok p (set_queues (insert p zero_queue) m).

Definition calloc_qset : M ptr :=
  do p <- calloc;
  if is_null p then ret p
  else fun m => Ok p (set_qsets (insert p zero_qset) m).

Definition calloc_qall : M ptr :=
  do p <- calloc;
  if is_null p then ret p
  else fun m => Ok p (set_qalls (insert p zero_qall) m).

(** *** Loads, stores and [free] *)

Definition get_qnode (p : ptr) : M STaosQnode := fun m =>
  match nodes m !! p with Some n => Ok n m | None => Fault end.
Definition get_queue (p : ptr) : M STaosQueue := fun m =>
  match queues m !! p with Some q => Ok q m | None => Fault end.
Definition get_qset (p : ptr) : M STaosQset := fun m =>
  match qsets m !! p with Some s => Ok s m | None => Fault end.
Definition get_qall (p : ptr) : M STaosQall := fun m =>
  match qalls m !! p with Some a => Ok a m | None => Fault end.

Definition upd_qnode (p : ptr) (f : STaosQnode → STaosQnode) : M unit := fun m =>
  match nodes m !! p with
  | Some n => Ok tt (set_nodes (insert p (f n)) m)
  | None => Fault
  end.
Definition upd_queue (p : ptr) (f : STaosQueue → STaosQueue) : M unit := fun m =>
  match queues m !! p with
  | Some q => Ok tt (set_queues (insert p (f q)) m)
  | None => Fault
  end.
Definition upd_qset (p : ptr) (f : STaosQset → STaosQset) : M unit := fun m =>
  match qsets m !! p with
  | Some s => Ok tt (set_qsets (insert p (f s)) m)
  | None => Fault
  end.
Definition upd_qall (p : ptr) (f : STaosQall → STaosQall) : M unit := fun m =>
  match qalls m !! p with
  | Some a => Ok tt (set_qalls (insert p (f a)) m)
  | None => Fault
  end.

Definition free_qnode (p : ptr) : M unit := fun m =>
  match nodes m !! p with
  | Some _ => Ok tt (set_nodes (delete p) m)
  | None => Fault
  end.
Definition free_queue (p : ptr) : M unit := fun m =>
  match queues m !! p with
  | Some _ => Ok tt (set_queues (delete p) m)
  | None => Fault
  end.
Definition free_qset (p : ptr) : M unit := fun m =>
  match qsets m !! p with
  | Some _ => Ok tt (set_qsets (delete p) m)
  | None => Fault
  end.
Definition free_qall (p : ptr) : M unit := fun m =>
  match qalls m !! p with
  | Some _ => Ok tt (set_qalls (delete p) m)
  | None => Fault
  end.

Definition do_memcpy (dst src : list byte) (n : Z) : M (list byte) :=
  match memcpy dst src n with
  | Some b => ret b
  | None => fault
  end.

(** ** Queues *)

Definition taosOpenQueue (itemSize : Z) : M ptr :=
  do queue <- calloc_queue;
  if is_null queue then
    set_terrno TSDB_CODE_NO_RESOURCE;;
    ret NULL
  else
    upd_queue queue (set_queue_itemSize (wrap32 itemSize));;
    ret queue.

Definition taosWriteQitem (param : ptr) (item : list byte) : M Z :=
  let queue := param in
  do q <- get_queue queue;
  do pNode <- calloc_qnode (queue_itemSize q);
  if is_null pNode then
    set_terrno TSDB_CODE_NO_RESOURCE;;
    ret (-1)
  else
    do n <- get_qnode pNode;
    do b <- do_memcpy (qnode_item n) item (queue_itemSize q);
    upd_qnode pNode (set_qnode_item b);;
    do q <- get_queue queue;
    (if negb (is_null (queue_tail q)) then
       upd_qnode (queue_tail q) (set_qnode_next pNode);;
       upd_queue queue (set_queue_tail pNode)
     else
       upd_queue queue (set_queue_head pNode);;
       upd_queue queue (set_queue_tail pNode));;
    upd_queue queue (fun q => set_queue_numOfItems (wrap32 (queue_numOfItems q + 1)) q);;
    do q <- get_queue queue;
    when (negb (is_null (queue_qset q)))
         (upd_qset (queue_qset q) (atomic_add_numOfItems 1));;
    ret 0.

(** The result is the return code and the caller's buffer [item]. *)
Definition taosReadQitem (param : ptr) (item : list byte) : M (Z * list byte) :=
  let queue := param in
  do q <- get_queue queue;
  if negb (is_null (queue_head q)) then
    let pNode := queue_head q in
    do n <- get_qnode pNode;
    do item' <- do_memcpy item (qnode_item n) (queue_itemSize q);
    upd_queue queue (set_queue_head (qnode_next n));;
    do q <- get_queue queue;
    when (is_null (queue_head q)) (upd_queue queue (set_queue_tail NULL));;
    free_qnode pNode;;
    upd_queue queue (fun q => set_queue_numOfItems (wrap32 (queue_numOfItems q - 1)) q);;
    do q <- get_queue queue;
    when (negb (is_null (queue_qset q)))
         (upd_qset (queue_qset q) (atomic_sub_numOfItems 1));;
    ret (1, item')
  else
    ret (0, item).

(** The result is the return code and the pointer stored in [*res]. *)
Definition taosReadAllQitems (param : ptr) : M (Z * ptr) :=
  let queue := param in
  do q <- get_queue queue;
  if negb (is_null (queue_head q)) then
    do qall <- calloc_qall;
    if is_null qall then
      set_terrno TSDB_CODE_NO_RESOURCE;;
      ret (-1, qall)
    else
      do q <- get_queue queue;
      upd_qall qall (fun _ => mkQall (queue_head q) (queue_head q)
                                     (queue_itemSize q) (queue_numOfItems q));;
      do a <- get_qall qall;
      let code := qall_numOfItems a in
      upd_queue queue (set_queue_head NULL);;
      upd_queue queue (set_queue_tail NULL);;
      upd_queue queue (set_queue_numOfItems 0);;
      do q <- get_queue queue;
      when (negb (is_null (queue_qset q)))
           (upd_qset (queue_qset q) (atomic_sub_numOfItems (qall_numOfItems a)));;
      ret (code, qall)
  else
    ret (0, NULL).

Definition taosGetQueueItemsNumber (param : ptr) : M Z :=
  do q <- get_queue param;
  ret (queue_numOfItems q).

(** ** Batch views *)

Definition taosGetQitem (param : ptr) (item : list byte) : M (Z * list byte) :=
  let qall := param in
  do a <- get_qall qall;
  let pNode := qall_current a in
  (if negb (is_null pNode) then
     do n <- get_qnode pNode;
     upd_qall qall (set_qall_current (qnode_next n))
   else ret tt);;
  if negb (is_null pNode) then
    do n <- get_qnode pNode;
    do a <- get_qall qall;
    do item' <- do_memcpy item (qnode_item n) (qall_itemSize a);
    ret (1, item')
  else
    ret (0, item).

Definition taosResetQitems (param : ptr) : M unit :=
  let qall := param in
  do a <- get_qall qall;
  upd_qall qall (set_qall_current (qall_start a)).

(** The [while (qall->current)] loop of [taosFreeQitems]; one unit of
    [fuel] is spent on every test of the loop condition. *)
Fixpoint taosFreeQitems_loop (fuel : nat) (qall : ptr) : M unit :=
  match fuel with
  | O => timeout
  | S fuel' =>
      do a <- get_qall qall;
      if negb (is_null (qall_current a)) then
        let pNode := qall_current a in
        do n <- get_qnode pNode;
        upd_qall qall (set_qall_current (qnode_next n));;
        free_qnode pNode;;
        taosFreeQitems_loop fuel' qall
      else ret tt
  end.

Definition taosFreeQitems (fuel : nat) (param : ptr) : M unit :=
  let qall := param in
  taosFreeQitems_loop fuel qall;;
  free_qall qall.

(** ** Queue sets *)

Definition taosOpenQset : M ptr :=
  do qset <- calloc_qset;
  if is_null qset then
    set_terrno TSDB_CODE_NO_RESOURCE;;
    ret NULL
  else
    ret qset.

Definition taosCloseQset (param : ptr) : M unit :=
  free_qset param.

Definition taosAddIntoQset (p1 p2 : ptr) : M Z :=
  let queue := p2 in
  let qset := p1 in
  do q <- get_queue queue;
  if negb (is_null (queue_qset q)) then ret (-1)
  else
    do s <- get_qset qset;
    upd_queue queue (set_queue_next (qset_head s));;
    upd_qset qset (set_qset_head queue);;
    upd_qset qset (fun s => set_qset_numOfQueues (wrap32 (qset_numOfQueues s + 1)) s);;
    do q <- get_queue queue;
    upd_qset qset (atomic_add_numOfItems (queue_numOfItems q));;
    upd_queue queue (set_queue_qset qset);;
    ret 0.

(** The [while (tqueue)] loop of [taosRemoveFromQset], with its two local
    variables [prev] and [tqueue]; one unit of [fuel] is spent on every
    test of the loop condition. *)
Fixpoint taosRemoveFromQset_loop (fuel : nat) (qset queue prev tqueue : ptr) : M unit :=
  match fuel with
  | O => timeout
  | S fuel' =>
      if negb (is_null tqueue) then
        if N.eqb tqueue queue then
          do t <- get_queue tqueue;
          upd_queue prev (set_queue_next (queue_next t));;
          do s <- get_qset qset;
          (if N.eqb (qset_current s) queue then
             do t <- get_queue tqueue;
             upd_qset qset (set_qset_current (queue_next t))
           else ret tt);;
          upd_qset qset (fun s => set_qset_numOfQueues (wrap32 (qset_numOfQueues s - 1)) s);;
          do q <- get_queue queue;
          upd_qset qset (atomic_sub_numOfItems (queue_numOfItems q));;
          upd_queue queue (set_queue_qset NULL);;
          taosRemoveFromQset_loop fuel' qset queue prev tqueue
        else
          do t <- get_queue tqueue;
          taosRemoveFromQset_loop fuel' qset queue tqueue (queue_next t)
      else ret tt
  end.

Definition taosRemoveFromQset (fuel : nat) (p1 p2 : ptr) : M unit :=
  let queue := p2 in
  let qset := p1 in
  do s <- get_qset qset;
  if negb (is_null (qset_head s)) then
    if N.eqb (qset_head s) queue then
      do h <- get_queue (qset_head s);
      upd_qset qset (set_qset_head (queue_next h));;
      upd_qset qset (fun s => set_qset_numOfQueues (wrap32 (qset_numOfQueues s - 1)) s)
    else
      let prev := qset_head s in
      do h <- get_queue (qset_head s);
      taosRemoveFromQset_loop fuel qset queue prev (queue_next h)
  else ret tt.

Definition taosGetQueueNumber (param : ptr) : M Z :=
  do s <- get_qset param;
  ret (qset_numOfQueues s).

Definition taosGetQsetItemsNumber (param : ptr) : M Z :=
  do s <- get_qset param;
  ret (qset_numOfItems s).

(** The [while (pNode)] loop of [taosCloseQueue]. *)
Fixpoint taosCloseQueue_loop (fuel : nat) (pNode : ptr) : M unit :=
  match fuel with
  | O => timeout
  | S fuel' =>
      if negb (is_null pNode) then
        let pTemp := pNode in
        do n <- get_qnode pNode;
        free_qnode pTemp;;
        taosCloseQueue_loop fuel' (qnode_next n)
      else ret tt
  end.

Definition taosCloseQueue (fuel : nat) (param : ptr) : M unit :=
  let queue := param in
  do q <- get_queue queue;
  let pNode := queue_head q in
  upd_queue queue (set_queue_head NULL);;
  do q <- get_queue queue;
  when (negb (is_null (queue_qset q)))
       (taosRemoveFromQset fuel (queue_qset q) queue);;
  taosCloseQueue_loop fuel pNode;;
  free_queue queue.

(** The body of the [for] loop of [taosReadQitemFromQset], iterated [n]
    more times.  The loop condition [i < qset->numOfQueues] compares a
    counter with a field that the body never writes, so the number of
    iterations is fixed when the loop is entered. *)
Fixpoint taosReadQitemFromQset_loop (n : nat) (qset : ptr) (item : list byte)
  : M (Z * list byte) :=
  match n with
  | O => ret (0, item)
  | S n' =>
      do s <- get_qset qset;
      when (is_null (qset_current s))
           (upd_qset qset (set_qset_current (qset_head s)));;
      do s <- get_qset qset;
      let queue := qset_current s in
      (if negb (is_null queue) then
         do q <- get_queue queue;
         upd_qset qset (set_qset_current (queue_next q))
       else ret tt);;
      if is_null queue then ret (0, item)
      else
        do q <- get_queue queue;
        if negb (is_null (queue_head q)) then
          let pNode := queue_head q in
          do nd <- get_qnode pNode;
          do item' <- do_memcpy item (qnode_item nd) (queue_itemSize q);
          upd_queue queue (set_queue_head (qnode_next nd));;
          do q <- get_queue queue;
          when (is_null (queue_head q)) (upd_queue queue (set_queue_tail NULL));;
          free_qnode pNode;;
          upd_queue queue (fun q => set_queue_numOfItems (wrap32 (queue_numOfItems q - 1)) q);;
          upd_qset qset (atomic_sub_numOfItems 1);;
          ret (1, item')
        else
          taosReadQitemFromQset_loop n' qset item
  end.

Definition taosReadQitemFromQset (param : ptr) (item : list byte) : M (Z * list byte) :=
  let qset := param in
  do s <- get_qset qset;
  taosReadQitemFromQset_loop (Z.to_nat (qset_numOfQueues s)) qset item.

(** The same for [taosReadAllQitemsFromQset]; the loop is left as soon as
    [code] is not [0], that is after a batch was taken or [calloc] failed.
    The local variable [qall] is declared before the loop and is what
    [*res] receives after it, so the loop takes its value and returns
    it. *)
Fixpoint taosReadAllQitemsFromQset_loop (n : nat) (qset : ptr) (qall : ptr)
  : M (Z * ptr) :=
  match n with
  | O => ret (0, qall)
  | S n' =>
      do s <- get_qset qset;
      when (is_null (qset_current s))
           (upd_qset qset (set_qset_current (qset_head s)));;
      do s <- get_qset qset;
      let queue := qset_current s in
      (if negb (is_null queue) then
         do q <- get_queue queue;
         upd_qset qset (set_qset_current (queue_next q))
       else ret tt);;
      if is_null queue then ret (0, qall)
      else
        do q <- get_queue queue;
        if negb (is_null (queue_head q)) then
          do qall <- calloc_qall;
          if is_null qall then
            set_terrno TSDB_CODE_NO_RESOURCE;;
            ret (-1, qall)
          else
            do q <- get_queue queue;
            upd_qall qall (fun _ => mkQall (queue_head q) (queue_head q)
                                           (queue_itemSize q) (queue_numOfItems q));;
            do a <- get_qall qall;
            let code := qall_numOfItems a in
            upd_queue queue (set_queue_head NULL);;
            upd_queue queue (set_queue_tail NULL);;
            upd_queue queue (set_queue_numOfItems 0);;
            upd_qset qset (atomic_sub_numOfItems (qall_numOfItems a));;
            if Z.eqb code 0 then taosReadAllQitemsFromQset_loop n' qset qall
            else ret (code, qall)
        else
          taosReadAllQitemsFromQset_loop n' qset qall
  end.

Definition taosReadAllQitemsFromQset (param : ptr) : M (Z * ptr) :=
  let qset := param in
  let qall := NULL in
  do s <- get_qset qset;
  taosReadAllQitemsFromQset_loop (Z.to_nat (qset_numOfQueues s)) qset qall.

(** ** Polling with a record of the visits *)

(** [taosReadQitemFromQset_loop] with one more result: the queues that the
    loop took from the cursor, in the order it took them.  Nothing else
    differs, see [taosReadQitemFromQset_visits_erase]. *)
Fixpoint taosReadQitemFromQset_visits_loop (n : nat) (qset : ptr) (item : list byte)
  : M (Z * list byte * list ptr) :=
  match n with
  | O => ret (0, item, [])
  | S n' =>
      do s <- get_qset qset;
      when (is_null (qset_current s))
           (upd_qset qset (set_qset_current (qset_head s)));;
      do s <- get_qset qset;
      let queue := qset_current s in
      (if negb (is_null queue) then
         do q <- get_queue queue;
         upd_qset qset (set_qset_current (queue_next q))
       else ret tt);;
      if is_null queue then ret (0, item, [])
      else
        do q <- get_queue queue;
        if negb (is_null (queue_head q)) then
          let pNode := queue_head q in
          do nd <- get_qnode pNode;
          do item' <- do_memcpy item (qnode_item nd) (queue_itemSize q);
          upd_queue queue (set_queue_head (qnode_next nd));;
          do q <- get_queue queue;
          when (is_null (queue_head q)) (upd_queue queue (set_queue_tail NULL));;
          free_qnode pNode;;
          upd_queue queue (fun q => set_queue_numOfItems (wrap32 (queue_numOfItems q - 1)) q);;
          upd_qset qset (atomic_sub_numOfItems 1);;
          ret (1, item', [queue])
        else
          do r <- taosReadQitemFromQset_visits_loop n' qset item;
          ret (r.1, queue :: r.2)
  end.

Definition taosReadQitemFromQset_visits (param : ptr) (item : list byte)
  : M (Z * list byte * list ptr) :=
  let qset := param in
  do s <- get_qset qset;
  taosReadQitemFromQset_visits_loop (Z.to_nat (qset_numOfQueues s)) qset item.

(** ** Running a call several times *)

(** One call of [taosWriteQitem] for each item of [items], in order. *)
Fixpoint taosWriteQitem_all (queue : ptr) (items : list (list byte)) : M (list Z) :=
  match items with
  | [] => ret []
  | item :: rest =>
      do c <- taosWriteQitem queue item;
      do cs <- taosWriteQitem_all queue rest;
      ret (c :: cs)
  end.

(** [n] calls of [taosReadQitem] on one queue. *)
Fixpoint taosReadQitem_n (n : nat) (queue : ptr) (item : list byte)
  : M (list (Z * list byte)) :=
  match n with
  | O => ret []
  | S n' =>
      do r <- taosReadQitem queue item;
      do rs <- taosReadQitem_n n' queue item;
      ret (r :: rs)
  end.

(** [n] calls of [taosGetQitem] on one view, each with the caller's buffer
    [item]; the results are listed in call order. *)
Fixpoint taosGetQitem_n (n : nat) (qall : ptr) (item : list byte)
  : M (list (Z * list byte)) :=
  match n with
  | O => ret []
  | S n' =>
      do r <- taosGetQitem qall item;
      do rs <- taosGetQitem_n n' qall item;
      ret (r :: rs)
  end.

(** [k] calls of [taosReadQitemFromQset] on one set, with the visits of
    each call. *)
Fixpoint taosReadQitemFromQset_n (k : nat) (qset : ptr) (item : list byte)
  : M (list (Z * list byte * list ptr)) :=
  match k with
  | O => ret []
  | S k' =>
      do r <- taosReadQitemFromQset_visits qset item;
      do rs <- taosReadQitemFromQset_n k' qset item;
      ret (r :: rs)
  end.

(** ** What the allocator does next *)

(** The coming [calloc] is granted. *)
Definition calloc_succeeds (m : mem) : Prop := head (calloc_ok m) = Some true.

(** The coming [calloc] is refused. *)
Definition calloc_fails (m : mem) : Prop := head (calloc_ok m) ≠ Some true.

(** The coming [n] calls of [calloc] are granted. *)
Definition calloc_grants (n : nat) (m : mem) : Prop :=
  take n (calloc_ok m) = replicate n true.

(** The four typed stores of two heaps agree. *)
Definition same_objects (m m' : mem) : Prop :=
  nodes m' = nodes m ∧ queues m' = queues m ∧
  qsets m' = qsets m ∧ qalls m' = qalls m.

(** ** Shapes in the heap *)

(** [chain nd p cells]: following [next] from node [p] in the node store
    [nd] passes exactly the nodes listed in [cells], each with its address
    and its payload, and then reaches [NULL]. *)
Fixpoint chain (nd : gmap N STaosQnode) (p : ptr) (cells : list (ptr * list byte)) : Prop :=
  match cells with
  | [] => p = NULL
  | c :: rest =>
      p = c.1 ∧ p ≠ NULL ∧
      ∃ nx, nd !! p = Some (mkQnode nx c.2) ∧ chain nd nx rest
  end.

(** The address of the last node of a chain, [NULL] for the empty chain. *)
Definition last_addr (cells : list (ptr * list byte)) : ptr :=
  match last cells with
  | Some c => c.1
  | None => NULL
  end.

(** [qchain qm p qs]: following [next] from queue [p] in the queue store
    [qm] passes exactly the queues [qs] and then reaches [NULL]; this is
    the member list of a set whose [head] is [p]. *)
Fixpoint qchain (qm : gmap N STaosQueue) (p : ptr) (qs : list ptr) : Prop :=
  match qs with
  | [] => p = NULL
  | a :: rest =>
      p = a ∧ p ≠ NULL ∧
      ∃ q, qm !! p = Some q ∧ qchain qm (queue_next q) rest
  end.

(** The sum of [numOfItems] over the queues [qs]. *)
Definition sum_numOfItems (qm : gmap N STaosQueue) (qs : list ptr) : Z :=
  foldr (fun p acc => match qm !! p with
                      | Some q => queue_numOfItems q + acc
                      | None => acc
                      end) 0 qs.

(** ** Well-formed heaps *)

(** [queue_ok m qr cs]: the queue record [qr] owns the chain [cs] in heap
    [m]: [head] starts the chain, [tail] is its last node, [numOfItems] is
    its length, every node was handed out by [calloc] and carries
    [itemSize] bytes, and the set reference is null or points to a set. *)
Definition queue_ok (m : mem) (qr : STaosQueue) (cs : list (ptr * list byte)) : Prop :=
  chain (nodes m) (queue_head qr) cs ∧
  queue_tail qr = last_addr cs ∧
  queue_numOfItems qr = Z.of_nat (length cs) ∧
  Z.of_nat (length cs) ≤ INT32_MAX ∧
  NoDup cs.*1 ∧
  Forall (fun c => (c.1 < brk m)%N ∧ length c.2 = Z.to_nat (queue_itemSize qr)) cs ∧
  0 ≤ queue_itemSize qr ∧
  (queue_qset qr = NULL ∨ is_Some (qsets m !! queue_qset qr)).

(** [heap_wf m C]: [C] gives, for every queue of the heap, the chain that
    the queue owns; no node belongs to two queues, and every queue was
    handed out by [calloc]. *)
Definition heap_wf (m : mem) (C : gmap N (list (ptr * list byte))) : Prop :=
  brk m ≠ 0%N ∧
  (∀ p, is_Some (queues m !! p) ↔ is_Some (C !! p)) ∧
  (∀ p qr, queues m !! p = Some qr → (p < brk m)%N) ∧
  (∀ p qr cs, queues m !! p = Some qr → C !! p = Some cs → queue_ok m qr cs) ∧
  (∀ p1 p2 c1 c2 a, p1 ≠ p2 → C !! p1 = Some c1 → C !! p2 = Some c2 →
                    a ∈ c1.*1 → a ∈ c2.*1 → False).

(** The invariant of the whole heap: every queue owns a chain of its own. *)
Definition heap_inv (m : mem) : Prop := ∃ C, heap_wf m C.

(** The structural invariant of one queue record. *)
Definition queue_struct_inv (qr : STaosQueue) : Prop :=
  (queue_head qr = NULL ↔ queue_tail qr = NULL) ∧
  (queue_tail qr = NULL ↔ queue_numOfItems qr = 0).

(** Every queue record of the heap has the structural invariant. *)
Definition queues_struct_inv (m : mem) : Prop :=
  ∀ p qr, queues m !! p = Some qr → queue_struct_inv qr.

(** A call returns, and in the heap it leaves the invariant holds again
    and every queue record has the structural invariant. *)
Definition keeps_inv {A} (r : result A) : Prop :=
  ∃ a m', r = Ok a m' ∧ heap_inv m' ∧ queues_struct_inv m'.

(** The caller's buffer [item] has room for an item of any queue. *)
Definition buffer_fits (m : mem) (item : list byte) : Prop :=
  ∀ p qr, queues m !! p = Some qr → (Z.to_nat (queue_itemSize qr) ≤ length item)%nat.

(** ** The round-robin order *)

(** The member list of a set is [qs]; the cursor stands on the first
    queue of [cur], a suffix of [qs], and is [NULL] when [cur] is empty.
    [rewind] is where the next visit starts, [advance] where the cursor
    stands after one visit, [walk n] the queues of the next [n] visits. *)
Definition rewind (qs cur : list ptr) : list ptr :=
  match cur with [] => qs | _ => cur end.

Definition advance (qs cur : list ptr) : list ptr := tail (rewind qs cur).

Fixpoint walk (n : nat) (qs cur : list ptr) : list ptr :=
  match n with
  | O => []
  | S n' =>
      match rewind qs cur with
      | [] => []
      | a :: _ => a :: walk n' qs (advance qs cur)
      end
  end.

(** [set_ok m s qs cur]: the set at [s] has the member list [qs], without
    repetition, [numOfQueues] is its length, and [current] points to the
    first queue of [cur], a suffix of [qs] ([NULL] when [cur] is empty). *)
Definition set_ok (m : mem) (s : ptr) (qs cur : list ptr) : Prop :=
  ∃ sr, qsets m !! s = Some sr ∧
        qchain (queues m) (qset_head sr) qs ∧
        NoDup qs ∧
        qset_numOfQueues sr = Z.of_nat (length qs) ∧
        cur `suffix_of` qs ∧
        qset_current sr = hd NULL cur.

(** ** Conservation *)

(** [bound_to m s qs]: the queues whose [qset] field is [s] are exactly
    the queues [qs]. *)
Definition bound_to (m : mem) (s : ptr) (qs : list ptr) : Prop :=
  ∀ q qr, queues m !! q = Some qr → (queue_qset qr = s ↔ q ∈ qs).

(** [conserved m s qs]: [numOfItems] of the set [s] is the 32-bit value of
    the sum of [numOfItems] over the queues [qs]. *)
Definition conserved (m : mem) (s : ptr) (qs : list ptr) : Prop :=
  ∃ sr, qsets m !! s = Some sr ∧
        qset_numOfItems sr = wrap32 (sum_numOfItems (queues m) qs).

(** The invariant of a set with member list [qs]: the list is intact, the
    members are the queues that point back to the set, and the aggregate
    is conserved. *)
Definition set_inv (m : mem) (s : ptr) (qs cur : list ptr) : Prop :=
  s ≠ NULL ∧ set_ok m s qs cur ∧ bound_to m s qs ∧ conserved m s qs.

(** ** Example heaps *)

(** The four bytes of a 32-bit value as they lie in memory, least
    significant byte first. *)
Definition int32_bytes (z : Z) : list byte :=
  map (fun i => default Byte.x00 (Byte.of_N (Z.to_N (Z.land (Z.shiftr z (8 * i)) 255))))
      [0; 1; 2; 3].

(** A heap with set [1], set [2] and queue [3] holding one item at node
    [4]; the queue is the only member of set [1]. *)
Definition mem_bound : mem :=
  mkMem {[ 4%N := mkQnode NULL [Byte.x2a] ]}
        {[ 3%N := mkQueue 1 1 4%N 4%N NULL 1%N ]}
        {[ 1%N := mkQset 3%N NULL 1 1; 2%N := zero_qset ]}
        ∅ 5%N [true] None.

(** A heap whose only object is a batch view that has been walked to its
    end (its two nodes were handed to the caller's loop and are still
    allocated). *)
Definition mem_view_done : mem :=
  mkMem {[ 2%N := mkQnode 3%N [Byte.x01]; 3%N := mkQnode NULL [Byte.x02] ]}
        ∅ ∅
        {[ 4%N := mkQall NULL 2%N 1 2 ]}
        5%N [] None.

(** The heap after [taosOpenQueue 4] on a fresh heap whose allocator
    grants four blocks: the queue is at address [1]. *)
Definition mem_queue4 : mem :=
  mkMem ∅ {[ 1%N := mkQueue 4 0 NULL NULL NULL NULL ]} ∅ ∅ 2%N [true; true; true] None.


(** Two queues with one item each, then a set to which first [q1] and
    then [q2] is added.  The result is the triple of handles. *)
Definition setup_two_queues : M (ptr * ptr * ptr) :=
  do q1 <- taosOpenQueue 1;
  do q2 <- taosOpenQueue 1;
  taosWriteQitem q1 [Byte.x01];;
  taosWriteQitem q2 [Byte.x02];;
  do s <- taosOpenQset;
  taosAddIntoQset s q1;;
  taosAddIntoQset s q2;;
  ret (s, q1, q2).

(** The heap that [setup_two_queues] builds from a fresh heap: the queues
    are at [1] and [2], their nodes at [3] and [4], the set at [5]; the
    member list is [2; 1] and the cursor is [NULL]. *)
Definition mem_two_queues : mem :=
  mkMem {[ 3%N := mkQnode NULL [Byte.x01]; 4%N := mkQnode NULL [Byte.x02] ]}
        {[ 1%N := mkQueue 1 1 3%N 3%N NULL 5%N; 2%N := mkQueue 1 1 4%N 4%N 1%N 5%N ]}
        {[ 5%N := mkQset 2%N NULL 2 2 ]}
        ∅ 6%N [true] None.

(** The heap [mem_two_queues] once the allocator has nothing left to
    give. *)
Definition mem_two_queues_exhausted : mem :=
  mkMem (nodes mem_two_queues) (queues mem_two_queues) (qsets mem_two_queues)
        (qalls mem_two_queues) (brk mem_two_queues) [] None.

(** ** Scenarios *)

(** Open a queue with [itemSize = 4], enqueue three values, dequeue four
    times into a zeroed buffer.  The result is the list of return codes of
    the writes and the list of results of the reads. *)
Definition scenario_fifo : M (list Z * list (Z * list byte)) :=
  do q <- taosOpenQueue 4;
  do codes <- taosWriteQitem_all q
                [int32_bytes 0x01020304; int32_bytes 0x05060708; int32_bytes 0x090A0B0C];
  do reads <- taosReadQitem_n 4 q (int32_bytes 0);
  ret (codes, reads).

(** A set with the single member [q], which holds one item, and then
    [taosRemoveFromQset] of that member.  The result is the pair of
    handles. *)
Definition scenario_remove_first (fuel : nat) : M (ptr * ptr) :=
  do s <- taosOpenQset;
  do q <- taosOpenQueue 1;
  taosWriteQitem q [Byte.x2a];;
  taosAddIntoQset s q;;
  taosRemoveFromQset fuel s q;;
  ret (s, q).

(** A set with two members, [q1] holding one item and [q2] holding two;
    [q2] was added last and so is first in the member list.  [q2] is
    removed, and then one more item is written to it.  The result is the
    aggregate count read before the removal, after it, and after the
    write. *)
Definition scenario_conservation (fuel : nat) : M (Z * Z * Z) :=
  do s <- taosOpenQset;
  do q1 <- taosOpenQueue 1;
  do q2 <- taosOpenQueue 1;
  taosAddIntoQset s q1;;
  taosAddIntoQset s q2;;
  taosWriteQitem q1 [Byte.x01];;
  taosWriteQitem q2 [Byte.x02];;
  taosWriteQitem q2 [Byte.x03];;
  do n0 <- taosGetQsetItemsNumber s;
  taosRemoveFromQset fuel s q2;;
  do n1 <- taosGetQsetItemsNumber s;
  taosWriteQitem q2 [Byte.x04];;
  do n2 <- taosGetQsetItemsNumber s;
  ret (n0, n1, n2).

(** A set with the single member [q], which holds one item, and then
    [taosCloseQueue] of that member.  The result is the set's queue count
    and aggregate item count after the close. *)
Definition scenario_close_member (fuel : nat) : M (Z * Z) :=
  do s <- taosOpenQset;
  do q <- taosOpenQueue 1;
  taosWriteQitem q [Byte.x2a];;
  taosAddIntoQset s q;;
  taosCloseQueue fuel q;;
  do k <- taosGetQueueNumber s;
  do n <- taosGetQsetItemsNumber s;
  ret (k, n).

(** A set with two members: [q], which holds one item, and [q2], added
    after [q], so that [q] is not the first element of the member list.
    The result is the pair of the set and [q]. *)
Definition setup_second_member : M (ptr * ptr) :=
  do s <- taosOpenQset;
  do q <- taosOpenQueue 1;
  do q2 <- taosOpenQueue 1;
  taosWriteQitem q [Byte.x2a];;
  taosAddIntoQset s q;;
  taosAddIntoQset s q2;;
  ret (s, q).

(** [taosCloseQueue] of the member that is not first. *)
Definition scenario_close_second (fuel : nat) : M unit :=
  do sq <- setup_second_member;
  taosCloseQueue fuel sq.2.

(** [taosRemoveFromQset] of the member that is not first. *)
Definition scenario_remove_second (fuel : nat) : M unit :=
  do sq <- setup_second_member;
  taosRemoveFromQset fuel sq.1 sq.2.

(** ** More example heaps *)

(** A heap with one queue at address [1] that is bound to no set and holds
    the two items [7] and [9] (item size one byte); the allocator grants
    three more blocks. *)
Definition mem_loose_items : mem :=
  mkMem {[ 2%N := mkQnode 3%N [Byte.x07]; 3%N := mkQnode NULL [Byte.x09] ]}
        {[ 1%N := mkQueue 1 2 2%N 3%N NULL NULL ]}
        ∅ ∅ 4%N [true; true; true] None.

(** The heap [mem_two_queues] before its second queue is added to the
    set: the set at [5] has the single member [1], and the queue at [2],
    which holds one item, is bound to no set. *)
Definition mem_one_member : mem :=
  mkMem {[ 3%N := mkQnode NULL [Byte.x01]; 4%N := mkQnode NULL [Byte.x02] ]}
        {[ 1%N := mkQueue 1 1 3%N 3%N NULL 5%N; 2%N := mkQueue 1 1 4%N 4%N NULL NULL ]}
        {[ 5%N := mkQset 1%N NULL 1 1 ]}
        ∅ 6%N [true] None.

(** A set at [3] with the two members [2] and [1], both empty; the cursor
    stands on the second member, and the allocator grants one more
    block. *)
Definition mem_idle_set : mem :=
  mkMem ∅
        {[ 1%N := mkQueue 1 0 NULL NULL NULL 3%N; 2%N := mkQueue 1 0 NULL NULL 1%N 3%N ]}
        {[ 3%N := mkQset 2%N 1%N 2 0 ]}
        ∅ 4%N [true] None.

(** ** More scenarios *)

(** A set with the members [c], [b], [a] in list order, [c] and [b]
    holding one item each.  One poll takes the item of [c] and leaves the
    cursor on [b]; then [c], the first member, is removed, which makes [b]
    the head of the list with the cursor still on it.  The result is the
    pair of the set and [b]. *)
Definition setup_cursor_on_head (fuel : nat) : M (ptr * ptr) :=
  do s <- taosOpenQset;
  do a <- taosOpenQueue 1;
  do b <- taosOpenQueue 1;
  do c <- taosOpenQueue 1;
  taosWriteQitem b [Byte.x0b];;
  taosWriteQitem c [Byte.x0c];;
  taosAddIntoQset s a;;
  taosAddIntoQset s b;;
  taosAddIntoQset s c;;
  taosReadQitemFromQset s [Byte.x00];;
  taosRemoveFromQset fuel s c;;
  ret (s, b).

(** A set with the members [c], [b], [a] in list order, each holding one
    item.  One poll takes the item of [c] and leaves the cursor on [b];
    then [c] is removed, which makes [b] the first member, and then [b] is
    removed, which leaves [a] as the only member.  The result is the set,
    [a] and [b]. *)
Definition setup_cursor_on_removed (fuel : nat) : M (ptr * ptr * ptr) :=
  do s <- taosOpenQset;
  do a <- taosOpenQueue 1;
  do b <- taosOpenQueue 1;
  do c <- taosOpenQueue 1;
  taosWriteQitem a [Byte.x0a];;
  taosWriteQitem b [Byte.x0b];;
  taosWriteQitem c [Byte.x0c];;
  taosAddIntoQset s a;;
  taosAddIntoQset s b;;
  taosAddIntoQset s c;;
  taosReadQitemFromQset s [Byte.x00];;
  taosRemoveFromQset fuel s c;;
  taosRemoveFromQset fuel s b;;
  ret (s, a, b).

(** * Properties *)

(** ** Stepping through a call *)

Lemma is_null_true (p : ptr) : is_null p = true ↔ p = NULL.
Proof. unfold is_null. apply N.eqb_eq. Qed.

Lemma is_null_false (p : ptr) : is_null p = false ↔ p ≠ NULL.
Proof. unfold is_null. apply N.eqb_neq. Qed.

Lemma calloc_refused (m : mem) :
  calloc_fails m →
  ∃ m', calloc m = Ok NULL m' ∧ same_objects m m' ∧ terrno m' = terrno m ∧ brk m' = brk m.
Proof.
  unfold calloc_fails, calloc, same_objects. intros Hf.
  destruct (calloc_ok m) as [|[] rest] eqn:E; simpl in *.
  - exists m. by split_and!.
  - congruence.
  - eexists. by split_and!.
Qed.

Lemma get_qnode_ok (m : mem) (p : ptr) (n : STaosQnode) :
  nodes m !! p = Some n → get_qnode p m = Ok n m.
Proof. intros H. unfold get_qnode. by rewrite H. Qed.

Lemma get_queue_ok (m : mem) (p : ptr) (q : STaosQueue) :
  queues m !! p = Some q → get_queue p m = Ok q m.
Proof. intros H. unfold get_queue. by rewrite H. Qed.

Lemma get_qset_ok (m : mem) (p : ptr) (s : STaosQset) :
  qsets m !! p = Some s → get_qset p m = Ok s m.
Proof. intros H. unfold get_qset. by rewrite H. Qed.

Lemma get_qall_ok (m : mem) (p : ptr) (a : STaosQall) :
  qalls m !! p = Some a → get_qall p m = Ok a m.
Proof. intros H. unfold get_qall. by rewrite H. Qed.

Lemma upd_qnode_ok (m : mem) (p : ptr) (n : STaosQnode) f :
  nodes m !! p = Some n → upd_qnode p f m = Ok tt (set_nodes (insert p (f n)) m).
Proof. intros H. unfold upd_qnode. by rewrite H. Qed.

Lemma upd_queue_ok (m : mem) (p : ptr) (q : STaosQueue) f :
  queues m !! p = Some q → upd_queue p f m = Ok tt (set_queues (insert p (f q)) m).
Proof. intros H. unfold upd_queue. by rewrite H. Qed.

Lemma upd_qset_ok (m : mem) (p : ptr) (s : STaosQset) f :
  qsets m !! p = Some s → upd_qset p f m = Ok tt (set_qsets (insert p (f s)) m).
Proof. intros H. unfold upd_qset. by rewrite H. Qed.

Lemma upd_qall_ok (m : mem) (p : ptr) (a : STaosQall) f :
  qalls m !! p = Some a → upd_qall p f m = Ok tt (set_qalls (insert p (f a)) m).
Proof. intros H. unfold upd_qall. by rewrite H. Qed.

Lemma free_qnode_ok (m : mem) (p : ptr) (n : STaosQnode) :
  nodes m !! p = Some n → free_qnode p m = Ok tt (set_nodes (delete p) m).
Proof. intros H. unfold free_qnode. by rewrite H. Qed.

Lemma bind_ok {A B} (c : M A) (k : A → M B) (m m' : mem) (a : A) :
  c m = Ok a m' → bind c k m = k a m'.
Proof. intros H. unfold bind. by rewrite H. Qed.

Lemma bind_assoc {A B D} (c : M A) (k1 : A → M B) (k2 : B → M D) (m : mem) :
  bind (bind c k1) k2 m = bind c (fun x => bind (k1 x) k2) m.
Proof. unfold bind. by destruct (c m). Qed.

Lemma bind_ret {A B} (a : A) (k : A → M B) (m : mem) :
  bind (ret a) k m = k a m.
Proof. reflexivity. Qed.

(** ** Adding a bound queue to a set *)

(** C7: when the queue [q] already carries a set reference, adding it to
    any set [set2] returns [-1] and the heap after the call is the heap
    before it: the queue keeps its reference, and no member list, queue
    count or aggregate count of any set is touched. *)
Theorem add_bound_queue_rejected (m : mem) (set2 q : ptr) (qr : STaosQueue) :
  queues m !! q = Some qr →
  queue_qset qr ≠ NULL →
  taosAddIntoQset set2 q m = Ok (-1) m.
Proof.
  intros Hq Hb. unfold taosAddIntoQset, bind, get_queue. rewrite Hq.
  apply is_null_false in Hb. rewrite Hb. reflexivity.
Qed.

Lemma add_bound_queue_rejected_witness :
  taosAddIntoQset 2%N 3%N mem_bound = Ok (-1) mem_bound ∧
  taosAddIntoQset 1%N 3%N mem_bound = Ok (-1) mem_bound.
Proof.
  split.
  - apply (add_bound_queue_rejected mem_bound 2%N 3%N (mkQueue 1 1 4%N 4%N NULL 1%N));
      [reflexivity | discriminate].
  - apply (add_bound_queue_rejected mem_bound 1%N 3%N (mkQueue 1 1 4%N 4%N NULL 1%N));
      [reflexivity | discriminate].
Defined.

(** ** Refused allocations *)

Lemma calloc_queue_refused (m : mem) :
  calloc_fails m →
  ∃ m', calloc_queue m = Ok NULL m' ∧ same_objects m m' ∧ terrno m' = terrno m ∧ brk m' = brk m.
Proof.
  intros Hf. destruct (calloc_refused m Hf) as (m' & Hc & Hs).
  exists m'. unfold calloc_queue, bind. rewrite Hc. auto.
Qed.

Lemma calloc_qset_refused (m : mem) :
  calloc_fails m →
  ∃ m', calloc_qset m = Ok NULL m' ∧ same_objects m m' ∧ terrno m' = terrno m ∧ brk m' = brk m.
Proof.
  intros Hf. destruct (calloc_refused m Hf) as (m' & Hc & Hs).
  exists m'. unfold calloc_qset, bind. rewrite Hc. auto.
Qed.

Lemma calloc_qnode_refused (m : mem) (itemSize : Z) :
  calloc_fails m →
  ∃ m', calloc_qnode itemSize m = Ok NULL m' ∧ same_objects m m' ∧ terrno m' = terrno m ∧ brk m' = brk m.
Proof.
  intros Hf. destruct (calloc_refused m Hf) as (m' & Hc & Hs).
  exists m'. unfold calloc_qnode, bind. rewrite Hc. auto.
Qed.

Lemma calloc_qall_refused (m : mem) :
  calloc_fails m →
  ∃ m', calloc_qall m = Ok NULL m' ∧ same_objects m m' ∧ terrno m' = terrno m ∧ brk m' = brk m.
Proof.
  intros Hf. destruct (calloc_refused m Hf) as (m' & Hc & Hs).
  exists m'. unfold calloc_qall, bind. rewrite Hc. auto.
Qed.

(** ** A batch view at its end *)

Lemma taosGetQitem_at_end (m : mem) (qall : ptr) (a : STaosQall) (item : list byte) :
  qalls m !! qall = Some a →
  qall_current a = NULL →
  taosGetQitem qall item m = Ok (0, item) m.
Proof.
  intros Ha Hc. unfold taosGetQitem, bind, get_qall. rewrite Ha, Hc. reflexivity.
Qed.

(** C10: once the cursor of a batch view is [NULL], any number [n] of
    further [taosGetQitem] calls each return [0] with the caller's buffer
    as it was passed in, and the heap after them is the heap before them,
    so the view's cursor, start, item count and item size are unchanged. *)
Theorem get_past_end_is_stable
  (m : mem) (qall : ptr) (a : STaosQall) (item : list byte) (n : nat) :
  qalls m !! qall = Some a →
  qall_current a = NULL →
  taosGetQitem_n n qall item m = Ok (replicate n (0, item)) m.
Proof.
  intros Ha Hc. induction n as [|n IH]; simpl.
  - reflexivity.
  - unfold bind. rewrite (taosGetQitem_at_end m qall a item Ha Hc).
    rewrite IH. reflexivity.
Qed.

Lemma get_past_end_is_stable_witness :
  taosGetQitem_n 3 4%N [Byte.xff] mem_view_done
  = Ok [(0, [Byte.xff]); (0, [Byte.xff]); (0, [Byte.xff])] mem_view_done.
Proof.
  apply (get_past_end_is_stable mem_view_done 4%N (mkQall NULL 2%N 1 2) [Byte.xff] 3);
    reflexivity.
Defined.

(** ** Removing a member *)


(** C2, at a member that is first in the list: the set's [head] is
    unlinked and [numOfQueues] drops to [0], but [numOfItems] of the set
    stays [1] although the removed queue holds one item, and the queue's
    [qset] field still points to the set. *)
Theorem remove_first_member_skips_bookkeeping (fuel : nat) :
  match scenario_remove_first fuel (mem_init [true; true; true]) with
  | Ok (s, q) m =>
      qsets m !! s = Some (mkQset NULL NULL 0 1) ∧
      queues m !! q = Some (mkQueue 1 1 3%N 3%N NULL s)
  | _ => False
  end.
Proof. vm_compute. split; reflexivity. Qed.

(** C1, on a set of two queues: the aggregate is [3] while the members
    hold [1 + 2] items; after the first member is removed the aggregate is
    still [3] although the one remaining member holds [1] item, and a
    write to the removed queue raises the aggregate to [4]. *)
Theorem aggregate_not_conserved_by_remove (fuel : nat) :
  match scenario_conservation fuel (mem_init (replicate 8 true)) with
  | Ok (n0, n1, n2) m =>
      n0 = 3 ∧ n1 = 3 ∧ n2 = 4 ∧
      ∃ sr, qsets m !! 1%N = Some sr ∧
            qset_numOfItems sr = 4 ∧
            qchain (queues m) (qset_head sr) [2%N] ∧
            sum_numOfItems (queues m) [2%N] = 1
  | _ => False
  end.
Proof.
  vm_compute. split_and!; try reflexivity.
  eexists. split_and!; try reflexivity.
  intros H; discriminate H.
  eexists. split_and!; reflexivity.
Qed.

(** C3, at a member that is first in the list: after [taosCloseQueue] the
    set has no member left, and its aggregate is still [1], not reduced by
    the one item the closed queue held. *)
Theorem close_first_member_keeps_aggregate (fuel : nat) :
  match scenario_close_member (S (S fuel)) (mem_init [true; true; true]) with
  | Ok (k, n) m => k = 0 ∧ n = 1 ∧ queues m = ∅ ∧ nodes m = ∅
  | _ => False
  end.
Proof. vm_compute. split_and!; reflexivity. Qed.

(** *** A member that is not first *)

Lemma upd_queue_alive (m : mem) (p : ptr) f :
  is_Some (queues m !! p) →
  ∃ m', upd_queue p f m = Ok tt m' ∧
        (∀ x, is_Some (queues m !! x) → is_Some (queues m' !! x)) ∧
        qsets m' = qsets m.
Proof.
  intros [q Hq]. eexists. split; [by apply upd_queue_ok|]. simpl. split; [|done].
  intros x Hx. apply lookup_insert_is_Some'. by right.
Qed.

Lemma upd_qset_alive (m : mem) (p : ptr) f :
  is_Some (qsets m !! p) →
  ∃ m', upd_qset p f m = Ok tt m' ∧
        (∀ x, is_Some (qsets m !! x) → is_Some (qsets m' !! x)) ∧
        queues m' = queues m.
Proof.
  intros [s Hs]. eexists. split; [by apply upd_qset_ok|]. simpl. split; [|done].
  intros x Hx. apply lookup_insert_is_Some'. by right.
Qed.

(** Once the loop of [taosRemoveFromQset] stands on the queue it looks
    for, it stands there for good: the branch that unlinks the queue does
    not move [tqueue] and does not leave the loop. *)
Lemma taosRemoveFromQset_loop_found (fuel : nat) (qset queue prev : ptr) (m : mem) :
  queue ≠ NULL →
  is_Some (queues m !! queue) →
  is_Some (queues m !! prev) →
  is_Some (qsets m !! qset) →
  taosRemoveFromQset_loop fuel qset queue prev queue m = Timeout.
Proof.
  intros Hnn. revert m. induction fuel as [|fuel IH]; intros m Hq Hp Hs; [reflexivity|].
  cbn [taosRemoveFromQset_loop].
  apply is_null_false in Hnn. rewrite Hnn, N.eqb_refl. cbn [negb].
  destruct Hq as [t Ht]. rewrite (bind_ok _ _ _ _ _ (get_queue_ok _ _ _ Ht)).
  destruct (upd_queue_alive m prev (set_queue_next (queue_next t)) Hp) as (m1 & E1 & Q1 & S1).
  rewrite (bind_ok _ _ _ _ _ E1).
  assert (Hs1 : is_Some (qsets m1 !! qset)) by (by rewrite S1).
  destruct Hs1 as [s Hs1]. rewrite (bind_ok _ _ _ _ _ (get_qset_ok _ _ _ Hs1)).
  assert (∃ m2, (if N.eqb (qset_current s) queue
                 then do t0 <- get_queue queue;
                      upd_qset qset (set_qset_current (queue_next t0))
                 else ret tt) m1 = Ok tt m2 ∧
                (∀ x, is_Some (qsets m1 !! x) → is_Some (qsets m2 !! x)) ∧
                queues m2 = queues m1) as (m2 & E2 & S2 & Q2).
  { destruct (N.eqb (qset_current s) queue).
    - destruct (Q1 queue (mk_is_Some _ _ Ht)) as [t1 Ht1].
      rewrite (bind_ok _ _ _ _ _ (get_queue_ok _ _ _ Ht1)).
      apply upd_qset_alive. eauto.
    - exists m1. by split_and!. }
  rewrite (bind_ok _ _ _ _ _ E2).
  destruct (upd_qset_alive m2 qset
              (fun s => set_qset_numOfQueues (wrap32 (qset_numOfQueues s - 1)) s))
    as (m3 & E3 & S3 & Q3); [apply S2; eauto|].
  rewrite (bind_ok _ _ _ _ _ E3).
  assert (Hq3 : is_Some (queues m3 !! queue)).
  { rewrite Q3, Q2. apply Q1. eauto. }
  destruct Hq3 as [q3 Hq3]. rewrite (bind_ok _ _ _ _ _ (get_queue_ok _ _ _ Hq3)).
  destruct (upd_qset_alive m3 qset (atomic_sub_numOfItems (queue_numOfItems q3)))
    as (m4 & E4 & S4 & Q4); [apply S3, S2; eauto|].
  rewrite (bind_ok _ _ _ _ _ E4).
  destruct (upd_queue_alive m4 queue (set_queue_qset NULL))
    as (m5 & E5 & Q5 & S5); [rewrite Q4; eauto|].
  rewrite (bind_ok _ _ _ _ _ E5).
  apply IH.
  - apply Q5. rewrite Q4. eauto.
  - apply Q5. rewrite Q4, Q3, Q2. by apply Q1.
  - rewrite S5. apply S4, S3, S2. eauto.
Qed.

(** While the loop walks a member list that contains the queue, it ends
    up standing on it. *)
Lemma taosRemoveFromQset_loop_member
  (qs : list ptr) (fuel : nat) (qset queue prev tqueue : ptr) (m : mem) :
  qchain (queues m) tqueue qs →
  queue ∈ qs →
  is_Some (queues m !! prev) →
  is_Some (qsets m !! qset) →
  taosRemoveFromQset_loop fuel qset queue prev tqueue m = Timeout.
Proof.
  revert fuel prev tqueue. induction qs as [|a qs IH]; intros fuel prev tqueue Hc Hin Hp Hs.
  - by apply elem_of_nil in Hin.
  - destruct Hc as (-> & Hnn & q & Hq & Hc).
    destruct (decide (queue = a)) as [->|Hne].
    + apply taosRemoveFromQset_loop_found; eauto.
    + destruct fuel as [|fuel]; [reflexivity|].
      cbn [taosRemoveFromQset_loop].
      apply is_null_false in Hnn. rewrite Hnn. cbn [negb].
      assert (N.eqb a queue = false) as -> by (apply N.eqb_neq; congruence).
      rewrite (bind_ok _ _ _ _ _ (get_queue_ok _ _ _ Hq)).
      apply IH; eauto.
      apply elem_of_cons in Hin as [?|?]; [congruence|done].
Qed.

(** Whatever step budget is given, [taosRemoveFromQset] of a member that
    is not the first element of the member list does not return. *)
Lemma taosRemoveFromQset_later_member_diverges
  (m : mem) (qset queue : ptr) (sr : STaosQset) (a : ptr) (qs : list ptr) (fuel : nat) :
  qsets m !! qset = Some sr →
  qchain (queues m) (qset_head sr) (a :: qs) →
  queue ∈ qs →
  queue ≠ a →
  taosRemoveFromQset fuel qset queue m = Timeout.
Proof.
  intros Hs (Hh & Hnn & q & Hq & Hc) Hin Hne.
  unfold taosRemoveFromQset.
  rewrite (bind_ok _ _ _ _ _ (get_qset_ok _ _ _ Hs)).
  apply is_null_false in Hnn. rewrite Hnn. cbn [negb].
  assert (N.eqb (qset_head sr) queue = false) as -> by (apply N.eqb_neq; congruence).
  rewrite (bind_ok _ _ _ _ _ (get_queue_ok _ _ _ Hq)).
  eapply taosRemoveFromQset_loop_member; eauto.
Qed.

Lemma qchain_next_eq (qm qm' : gmap N STaosQueue) (qs : list ptr) (p : ptr) :
  (∀ a q, a ∈ qs → qm !! a = Some q →
          ∃ q', qm' !! a = Some q' ∧ queue_next q' = queue_next q) →
  qchain qm p qs → qchain qm' p qs.
Proof.
  revert p. induction qs as [|a qs IH]; intros p Hn Hc; [exact Hc|].
  destruct Hc as (-> & Hnn & q & Hq & Hc).
  destruct (Hn a q (list_elem_of_here _ _) Hq) as (q' & Hq' & Hx).
  split; [done|]. split; [done|]. exists q'. split; [done|].
  rewrite Hx. apply IH; [|done].
  intros b qb Hb. apply Hn. by apply list_elem_of_further.
Qed.

(** [taosCloseQueue] hands a bound queue to [taosRemoveFromQset], so it
    does not return either when the queue is a later member of its set. *)
Lemma taosCloseQueue_later_member_diverges
  (m : mem) (queue : ptr) (qr : STaosQueue) (sr : STaosQset)
  (a : ptr) (qs : list ptr) (fuel : nat) :
  queues m !! queue = Some qr →
  queue_qset qr ≠ NULL →
  qsets m !! queue_qset qr = Some sr →
  qchain (queues m) (qset_head sr) (a :: qs) →
  queue ∈ qs →
  queue ≠ a →
  taosCloseQueue fuel queue m = Timeout.
Proof.
  intros Hq Hb Hs Hc Hin Hne. unfold taosCloseQueue.
  rewrite (bind_ok _ _ _ _ _ (get_queue_ok _ _ _ Hq)).
  rewrite (bind_ok _ _ _ _ _ (upd_queue_ok _ _ _ _ Hq)).
  set (m1 := set_queues _ m).
  assert (Hq1 : queues m1 !! queue = Some (set_queue_head NULL qr))
    by (subst m1; simpl; apply lookup_insert_eq).
  rewrite (bind_ok _ _ _ _ _ (get_queue_ok _ _ _ Hq1)).
  cbn [set_queue_head queue_qset].
  apply is_null_false in Hb. rewrite Hb. cbn [negb when].
  unfold bind at 1.
  rewrite (taosRemoveFromQset_later_member_diverges m1 (queue_qset qr) queue sr a qs fuel);
    [reflexivity|exact Hs| |done|done].
  eapply qchain_next_eq; [|exact Hc].
  intros b qb _ Hqb. subst m1. simpl.
  destruct (decide (queue = b)) as [->|Hd].
  - rewrite lookup_insert_eq. eexists. split; [reflexivity|].
    rewrite Hq in Hqb. by injection Hqb as <-.
  - rewrite lookup_insert_ne by done. eauto.
Qed.

(** At a member that is not first in the list, on a concrete heap: both
    [taosRemoveFromQset] and [taosCloseQueue] are still running when their
    step budget, however large, is used up. *)
Lemma later_member_scenarios_diverge (fuel : nat) :
  scenario_remove_second fuel (mem_init (replicate 8 true)) = Timeout ∧
  scenario_close_second fuel (mem_init (replicate 8 true)) = Timeout.
Proof.
  unfold scenario_remove_second, scenario_close_second, bind.
  destruct (setup_second_member (mem_init (replicate 8 true))) as [[s q] m| |] eqn:E;
    vm_compute in E; try discriminate E.
  injection E as <- <- <-. cbn [fst snd].
  split.
  - eapply (taosRemoveFromQset_later_member_diverges _ 1%N 2%N _ 3%N [2%N]).
    + reflexivity.
    + simpl. split_and!; try done. eexists. split; [reflexivity|]. simpl.
      split_and!; try done. eexists. split; [reflexivity|]. done.
    + apply list_elem_of_here.
    + done.
  - eapply (taosCloseQueue_later_member_diverges _ 2%N _ _ 3%N [2%N]).
    + reflexivity.
    + done.
    + reflexivity.
    + simpl. split_and!; try done. eexists. split; [reflexivity|]. simpl.
      split_and!; try done. eexists. split; [reflexivity|]. done.
    + apply list_elem_of_here.
    + done.
Qed.

(** *** What the call does at the first member, and at a non-member *)

(** For whatever set and queue: when the queue is the first element of the
    member list, [taosRemoveFromQset] rewrites [head] and [numOfQueues] of
    the set and nothing else; [numOfItems] of the set, [current] of the
    set and every field of the queue stay as they are. *)
Lemma taosRemoveFromQset_first_member
      (m : mem) (qset queue : ptr) (sr : STaosQset) (qr : STaosQueue) (fuel : nat) :
  qsets m !! qset = Some sr →
  qset_head sr = queue → queue ≠ NULL →
  queues m !! queue = Some qr →
  taosRemoveFromQset fuel qset queue m
  = Ok tt (set_qsets (insert qset (mkQset (queue_next qr) (qset_current sr)
                                          (wrap32 (qset_numOfQueues sr - 1))
                                          (qset_numOfItems sr))) m).
Proof.
  intros Hs Hh Hnn Hq. unfold taosRemoveFromQset.
  rewrite (bind_ok _ _ _ _ _ (get_qset_ok _ _ _ Hs)). rewrite Hh.
  apply is_null_false in Hnn. rewrite Hnn, N.eqb_refl. cbn [negb].
  rewrite (bind_ok _ _ _ _ _ (get_queue_ok _ _ _ Hq)).
  rewrite (bind_ok _ _ _ _ _ (upd_qset_ok _ _ _ _ Hs)).
  erewrite upd_qset_ok by (simpl; apply lookup_insert_eq).
  f_equal. unfold set_qsets. simpl. f_equal. apply insert_insert_eq.
Qed.

Lemma taosRemoveFromQset_loop_absent
      (qs : list ptr) (fuel : nat) (qset queue prev tqueue : ptr) (m : mem) :
  qchain (queues m) tqueue qs →
  queue ∉ qs →
  (length qs < fuel)%nat →
  taosRemoveFromQset_loop fuel qset queue prev tqueue m = Ok tt m.
Proof.
  revert fuel prev tqueue. induction qs as [|a qs IH]; intros fuel prev tqueue Hc Hin Hf.
  - simpl in Hc. subst tqueue. destruct fuel; [simpl in Hf; lia|]. reflexivity.
  - destruct Hc as (-> & Hnn & q & Hq & Hc).
    apply not_elem_of_cons in Hin as [Hne Hin].
    destruct fuel as [|fuel]; [simpl in Hf; lia|].
    cbn [taosRemoveFromQset_loop].
    apply is_null_false in Hnn. rewrite Hnn. cbn [negb].
    assert (N.eqb a queue = false) as -> by (apply N.eqb_neq; congruence).
    rewrite (bind_ok _ _ _ _ _ (get_queue_ok _ _ _ Hq)).
    apply IH; try done. simpl in Hf. lia.
Qed.

(** A queue that is not in the member list: the call returns and the heap
    is as it was. *)
Lemma taosRemoveFromQset_non_member
      (m : mem) (qset queue : ptr) (sr : STaosQset) (qs : list ptr) (fuel : nat) :
  qsets m !! qset = Some sr →
  qchain (queues m) (qset_head sr) qs →
  queue ∉ qs →
  (length qs ≤ fuel)%nat →
  taosRemoveFromQset fuel qset queue m = Ok tt m.
Proof.
  intros Hs Hc Hin Hf. unfold taosRemoveFromQset.
  rewrite (bind_ok _ _ _ _ _ (get_qset_ok _ _ _ Hs)).
  destruct qs as [|a qs].
  - simpl in Hc. rewrite Hc. reflexivity.
  - destruct Hc as (Hh & Hnn & q & Hq & Hc).
    apply not_elem_of_cons in Hin as [Hne Hin].
    apply is_null_false in Hnn. rewrite Hnn. cbn [negb].
    assert (N.eqb (qset_head sr) queue = false) as ->
      by (apply N.eqb_neq; congruence).
    rewrite (bind_ok _ _ _ _ _ (get_queue_ok _ _ _ Hq)).
    by eapply taosRemoveFromQset_loop_absent.
Qed.

(** ** Chains of nodes *)

Lemma chain_frame (nd nd' : gmap N STaosQnode) (cs : list (ptr * list byte)) (p : ptr) :
  (∀ a, a ∈ cs.*1 → nd' !! a = nd !! a) →
  chain nd p cs → chain nd' p cs.
Proof.
  revert p. induction cs as [|c cs IH]; intros p Hf Hc; [exact Hc|].
  destruct Hc as (-> & Hnn & nx & Hl & Hc).
  split; [done|]. split; [done|]. exists nx. split.
  - rewrite Hf; [done|]. simpl. apply list_elem_of_here.
  - apply IH; [|done]. intros a Ha. apply Hf. simpl. by apply list_elem_of_further.
Qed.

Lemma chain_null_iff (nd : gmap N STaosQnode) (cs : list (ptr * list byte)) (p : ptr) :
  chain nd p cs → (p = NULL ↔ cs = []).
Proof.
  destruct cs as [|c cs]; simpl.
  - intros ->. done.
  - intros (-> & Hnn & _). split; [done|discriminate].
Qed.

Lemma chain_nonnull (nd : gmap N STaosQnode) (cs : list (ptr * list byte)) (p : ptr) :
  chain nd p cs → ∀ a, a ∈ cs.*1 → a ≠ NULL.
Proof.
  revert p. induction cs as [|c cs IH]; intros p Hc a Ha.
  - by apply elem_of_nil in Ha.
  - destruct Hc as (-> & Hnn & nx & Hl & Hc). simpl in Ha.
    apply elem_of_cons in Ha as [->|Ha]; [done|]. by eapply IH.
Qed.

Lemma chain_lookup (nd : gmap N STaosQnode) (cs : list (ptr * list byte)) (p a : ptr) :
  chain nd p cs → a ∈ cs.*1 → is_Some (nd !! a).
Proof.
  revert p. induction cs as [|c cs IH]; intros p Hc Ha.
  - by apply elem_of_nil in Ha.
  - destruct Hc as (-> & Hnn & nx & Hl & Hc). simpl in Ha.
    apply elem_of_cons in Ha as [->|Ha]; [eauto|]. by eapply IH.
Qed.

Lemma last_addr_cons (c : ptr * list byte) (cs : list (ptr * list byte)) :
  cs ≠ [] → last_addr (c :: cs) = last_addr cs.
Proof. destruct cs; [done|]. intros _. reflexivity. Qed.

Lemma last_addr_snoc (cs : list (ptr * list byte)) (c : ptr * list byte) :
  last_addr (cs ++ [c]) = c.1.
Proof. unfold last_addr. by rewrite last_snoc. Qed.

Lemma last_addr_elem (cs : list (ptr * list byte)) :
  cs ≠ [] → last_addr cs ∈ cs.*1.
Proof.
  induction cs as [|c cs IH]; [done|]. intros _.
  destruct cs as [|c' cs].
  - apply list_elem_of_here.
  - rewrite last_addr_cons by done. simpl. apply list_elem_of_further. by apply IH.
Qed.

Lemma last_addr_null_iff (nd : gmap N STaosQnode) (cs : list (ptr * list byte)) (p : ptr) :
  chain nd p cs → (last_addr cs = NULL ↔ cs = []).
Proof.
  intros Hc. split.
  - intros Hl. destruct cs as [|c cs]; [done|]. exfalso.
    eapply (chain_nonnull nd (c :: cs) p Hc (last_addr (c :: cs))); [|done].
    by apply last_addr_elem.
  - by intros ->.
Qed.

(** Linking a new node behind the last node of a chain. *)
Lemma chain_snoc (nd nd' : gmap N STaosQnode) (cs : list (ptr * list byte))
      (p new : ptr) (it : list byte) :
  chain nd p cs → cs ≠ [] →
  NoDup cs.*1 → new ∉ cs.*1 → new ≠ NULL →
  nd' !! new = Some (mkQnode NULL it) →
  (∀ n, nd !! last_addr cs = Some n → nd' !! last_addr cs = Some (set_qnode_next new n)) →
  (∀ a, a ≠ new → a ≠ last_addr cs → nd' !! a = nd !! a) →
  chain nd' p (cs ++ [(new, it)]).
Proof.
  revert p. induction cs as [|c cs IH]; intros p Hc Hne Hnd Hnew Hnn Hn Hl Hf; [done|].
  destruct Hc as (-> & Hcn & nx & Hlc & Hc).
  simpl in Hnd. apply NoDup_cons in Hnd as [Hc1 Hnd].
  simpl in Hnew. apply not_elem_of_cons in Hnew as [Hnc Hnew].
  destruct cs as [|c' cs].
  - simpl in Hc. subst nx. simpl. split_and!; try done.
    exists new. split.
    + specialize (Hl _ Hlc). exact Hl.
    + split_and!; try done. exists NULL. done.
  - rewrite last_addr_cons in Hl, Hf by done.
    simpl. split_and!; try done. exists nx. split.
    + rewrite Hf; [done|congruence|].
      intros E. apply Hc1. rewrite E. by apply last_addr_elem.
    + apply IH; try done.
Qed.

Lemma heap_wf_struct_inv (m : mem) C (p : ptr) (qr : STaosQueue) :
  heap_wf m C → queues m !! p = Some qr → queue_struct_inv qr.
Proof.
  intros (_ & Hdom & _ & Hok & _) Hq.
  destruct (proj1 (Hdom p) (mk_is_Some _ _ Hq)) as [cs Hcs].
  destruct (Hok p qr cs Hq Hcs) as (Hc & Ht & Hn & _).
  unfold queue_struct_inv. rewrite Ht, Hn.
  rewrite (chain_null_iff _ _ _ Hc), (last_addr_null_iff _ _ _ Hc).
  split; [done|]. split; [by intros ->|].
  destruct cs; [done|]. simpl. lia.
Qed.

(** ** Stepping tactics *)

Ltac heap_simpl :=
  cbn [nodes queues qsets qalls brk calloc_ok terrno
       set_nodes set_queues set_qsets set_qalls
       queue_itemSize queue_numOfItems queue_head queue_tail queue_next queue_qset
       set_queue_itemSize set_queue_numOfItems set_queue_head set_queue_tail
       set_queue_next set_queue_qset
       qnode_next qnode_item set_qnode_next set_qnode_item
       qset_head qset_current qset_numOfQueues qset_numOfItems
       set_qset_head set_qset_current set_qset_numOfQueues set_qset_numOfItems
       atomic_add_numOfItems atomic_sub_numOfItems
       qall_current qall_start qall_itemSize qall_numOfItems set_qall_current
       negb fst snd] in *.

Ltac rec_unfold :=
  unfold set_queue_itemSize, set_queue_numOfItems, set_queue_head, set_queue_tail,
         set_queue_next, set_queue_qset, set_qnode_next, set_qnode_item,
         set_qset_head, set_qset_current, set_qset_numOfQueues, set_qset_numOfItems,
         atomic_add_numOfItems, atomic_sub_numOfItems, set_qall_current in *;
  heap_simpl.

Ltac heap_norm := rec_unfold; rewrite ?insert_insert_eq.

Ltac solve_lookup :=
  heap_simpl;
  repeat first
    [ eassumption
    | apply lookup_insert_eq
    | rewrite lookup_insert_ne by (congruence || done) ].

Ltac mstep :=
  heap_simpl; rewrite ?bind_assoc, ?bind_ret;
  lazymatch goal with
  | |- context [bind (get_qnode ?p) ?k ?m] =>
      erewrite (bind_ok (get_qnode p) k m) by (apply get_qnode_ok; solve_lookup)
  | |- context [bind (get_queue ?p) ?k ?m] =>
      erewrite (bind_ok (get_queue p) k m) by (apply get_queue_ok; solve_lookup)
  | |- context [bind (get_qset ?p) ?k ?m] =>
      erewrite (bind_ok (get_qset p) k m) by (apply get_qset_ok; solve_lookup)
  | |- context [bind (get_qall ?p) ?k ?m] =>
      erewrite (bind_ok (get_qall p) k m) by (apply get_qall_ok; solve_lookup)
  | |- context [bind (upd_qnode ?p ?f) ?k ?m] =>
      erewrite (bind_ok (upd_qnode p f) k m) by (apply upd_qnode_ok; solve_lookup)
  | |- context [bind (upd_queue ?p ?f) ?k ?m] =>
      erewrite (bind_ok (upd_queue p f) k m) by (apply upd_queue_ok; solve_lookup)
  | |- context [bind (upd_qset ?p ?f) ?k ?m] =>
      erewrite (bind_ok (upd_qset p f) k m) by (apply upd_qset_ok; solve_lookup)
  | |- context [bind (free_qnode ?p) ?k ?m] =>
      erewrite (bind_ok (free_qnode p) k m) by (eapply free_qnode_ok; solve_lookup)
  | |- context [bind (upd_qall ?p ?f) ?k ?m] =>
      erewrite (bind_ok (upd_qall p f) k m) by (apply upd_qall_ok; solve_lookup)
  end;
  heap_simpl.

Lemma calloc_granted (m : mem) :
  calloc_succeeds m →
  calloc m = Ok (brk m) (mkMem (nodes m) (queues m) (qsets m) (qalls m)
                               (N.succ (brk m)) (tail (calloc_ok m)) (terrno m)).
Proof.
  unfold calloc_succeeds, calloc. destruct (calloc_ok m) as [|[] rest]; simpl; congruence.
Qed.

Lemma memcpy_fits (dst src : list byte) (n : Z) :
  0 ≤ n → (Z.to_nat n ≤ length src)%nat → (Z.to_nat n ≤ length dst)%nat →
  memcpy dst src n = Some (take (Z.to_nat n) src ++ drop (Z.to_nat n) dst).
Proof. intros. unfold memcpy. rewrite decide_True; done. Qed.

Lemma calloc_qnode_granted (m : mem) (itemSize : Z) :
  calloc_succeeds m → brk m ≠ NULL →
  calloc_qnode itemSize m
  = Ok (brk m) (mkMem (<[brk m := zero_qnode itemSize]> (nodes m)) (queues m) (qsets m)
                      (qalls m) (N.succ (brk m)) (tail (calloc_ok m)) (terrno m)).
Proof.
  intros Hal Hb. unfold calloc_qnode. rewrite (bind_ok _ _ _ _ _ (calloc_granted m Hal)).
  apply is_null_false in Hb. by rewrite Hb.
Qed.

Lemma calloc_queue_granted (m : mem) :
  calloc_succeeds m → brk m ≠ NULL →
  calloc_queue m
  = Ok (brk m) (mkMem (nodes m) (<[brk m := zero_queue]> (queues m)) (qsets m)
                      (qalls m) (N.succ (brk m)) (tail (calloc_ok m)) (terrno m)).
Proof.
  intros Hal Hb. unfold calloc_queue. rewrite (bind_ok _ _ _ _ _ (calloc_granted m Hal)).
  apply is_null_false in Hb. by rewrite Hb.
Qed.

Lemma calloc_qset_granted (m : mem) :
  calloc_succeeds m → brk m ≠ NULL →
  calloc_qset m
  = Ok (brk m) (mkMem (nodes m) (queues m) (<[brk m := zero_qset]> (qsets m))
                      (qalls m) (N.succ (brk m)) (tail (calloc_ok m)) (terrno m)).
Proof.
  intros Hal Hb. unfold calloc_qset. rewrite (bind_ok _ _ _ _ _ (calloc_granted m Hal)).
  apply is_null_false in Hb. by rewrite Hb.
Qed.

Lemma calloc_qall_granted (m : mem) :
  calloc_succeeds m → brk m ≠ NULL →
  calloc_qall m
  = Ok (brk m) (mkMem (nodes m) (queues m) (qsets m)
                      (<[brk m := zero_qall]> (qalls m)) (N.succ (brk m))
                      (tail (calloc_ok m)) (terrno m)).
Proof.
  intros Hal Hb. unfold calloc_qall. rewrite (bind_ok _ _ _ _ _ (calloc_granted m Hal)).
  apply is_null_false in Hb. by rewrite Hb.
Qed.

Lemma do_memcpy_fits (dst src : list byte) (n : Z) (m : mem) :
  0 ≤ n → (Z.to_nat n ≤ length src)%nat → (Z.to_nat n ≤ length dst)%nat →
  do_memcpy dst src n m = Ok (take (Z.to_nat n) src ++ drop (Z.to_nat n) dst) m.
Proof. intros. unfold do_memcpy. by rewrite memcpy_fits. Qed.

(** ** Well-formed heaps under the three changes a queue undergoes *)

Lemma wrap32_id (z : Z) : - 2 ^ 31 ≤ z ≤ INT32_MAX → wrap32 z = z.
Proof.
  unfold wrap32, INT32_MAX. intros H.
  rewrite Z.mod_small by lia. lia.
Qed.

Lemma queue_ok_frame (m m' : mem) (qr : STaosQueue) (cs : list (ptr * list byte)) :
  queue_ok m qr cs →
  (∀ a, a ∈ cs.*1 → nodes m' !! a = nodes m !! a) →
  (brk m ≤ brk m')%N →
  (∀ p, is_Some (qsets m !! p) → is_Some (qsets m' !! p)) →
  queue_ok m' qr cs.
Proof.
  intros (Hch & Htl & Hnum & Hmax & Hnd & Hall & Hsz & Hset) Hf Hb Hs.
  split_and!; try done.
  - by eapply chain_frame.
  - eapply Forall_impl; [exact Hall|]. intros c [? ?]. split; [lia|done].
  - destruct Hset as [?|?]; [by left|right; by apply Hs].
Qed.

Lemma queue_ok_addr_lt (m : mem) (qr : STaosQueue) (cs : list (ptr * list byte)) (a : ptr) :
  queue_ok m qr cs → a ∈ cs.*1 → (a < brk m)%N.
Proof.
  intros (_ & _ & _ & _ & _ & Hall & _) Ha.
  apply list_elem_of_fmap in Ha as (c & -> & Hc).
  rewrite Forall_forall in Hall. by apply Hall.
Qed.

Lemma heap_wf_content_ok (m : mem) C (p : ptr) (cs : list (ptr * list byte)) :
  heap_wf m C → C !! p = Some cs → ∃ qr, queues m !! p = Some qr ∧ queue_ok m qr cs.
Proof.
  intros (_ & Hdom & _ & Hok & _) HC.
  destruct (proj2 (Hdom p) (mk_is_Some _ _ HC)) as [qr Hq]. eauto.
Qed.

(** A node is linked behind the tail. *)
Lemma heap_wf_push (m m' : mem) C (q : ptr) (qr : STaosQueue)
      (cs : list (ptr * list byte)) (it : list byte) :
  heap_wf m C → queues m !! q = Some qr → C !! q = Some cs →
  Z.of_nat (length cs) < INT32_MAX →
  length it = Z.to_nat (queue_itemSize qr) →
  brk m' = N.succ (brk m) →
  nodes m' !! brk m = Some (mkQnode NULL it) →
  (cs ≠ [] → ∀ n, nodes m !! last_addr cs = Some n →
        nodes m' !! last_addr cs = Some (set_qnode_next (brk m) n)) →
  (∀ a, a ≠ brk m → a ≠ last_addr cs → nodes m' !! a = nodes m !! a) →
  queues m' = <[q := mkQueue (queue_itemSize qr) (queue_numOfItems qr + 1)
                             (if decide (cs = []) then brk m else queue_head qr)
                             (brk m) (queue_next qr) (queue_qset qr)]> (queues m) →
  (∀ p, is_Some (qsets m !! p) → is_Some (qsets m' !! p)) →
  heap_wf m' (<[q := cs ++ [(brk m, it)]]> C).
Proof.
  intros Hwf Hq HC Hlen Hit Hb Hnew Hlast Hfr Hqs Hss.
  pose proof Hwf as (Hbrk & Hdom & Hfresh & Hok & Hdisj).
  pose proof (Hok q qr cs Hq HC) as Hqok.
  destruct Hqok as (Hch & Htl & Hnum & Hmax & Hnd & Hall & Hsz & Hset).
  assert (Hbn : brk m ∉ cs.*1).
  { intros Hin. pose proof (queue_ok_addr_lt m qr cs _ (Hok q qr cs Hq HC) Hin). lia. }
  assert (Hother : ∀ p qr' cs', p ≠ q → queues m !! p = Some qr' → C !! p = Some cs' →
                                queue_ok m' qr' cs').
  { intros p qr' cs' Hp Hq' HC'. eapply queue_ok_frame; [by eapply Hok| |lia|done].
    intros a Ha. apply Hfr.
    - intros ->. pose proof (queue_ok_addr_lt m qr' cs' _ (Hok _ _ _ Hq' HC') Ha). lia.
    - intros ->. destruct (decide (cs = [])) as [->|Hne].
      + destruct (Hok _ _ _ Hq' HC') as (Hch' & _).
        by eapply (chain_nonnull _ _ _ Hch' (last_addr [])).
      + eapply (Hdisj p q cs' cs); try done. by apply last_addr_elem. }
  split_and!.
  - rewrite Hb. lia.
  - intros p. rewrite Hqs. rewrite !lookup_insert_is_Some'. rewrite Hdom. done.
  - intros p qr'. rewrite Hqs. intros Hl. rewrite Hb.
    apply lookup_insert_Some in Hl as [[<- _]|[_ Hl]].
    + pose proof (Hfresh _ _ Hq). lia.
    + pose proof (Hfresh _ _ Hl). lia.
  - intros p qr' cs'. rewrite Hqs. intros Hl HC'.
    apply lookup_insert_Some in Hl as [[<- <-]|[Hne Hl]].
    + rewrite lookup_insert_eq in HC'. injection HC' as <-.
      unfold queue_ok. heap_simpl. split_and!.
      * destruct (decide (cs = [])) as [->|Hcs].
        -- simpl. split_and!; try done. exists NULL. done.
        -- eapply chain_snoc; try done. by apply Hlast.
      * by rewrite last_addr_snoc.
      * rewrite length_app, Hnum. simpl. lia.
      * rewrite length_app. simpl. lia.
      * rewrite fmap_app. simpl. apply NoDup_app. split_and!; [done| |apply NoDup_singleton].
        intros a Ha Ha'. apply list_elem_of_singleton in Ha'. by subst.
      * apply Forall_app. split.
        -- eapply Forall_impl; [exact Hall|]. intros c [? ?]. split; [lia|done].
        -- apply Forall_singleton. simpl. split; [lia|done].
      * done.
      * destruct Hset as [?|?]; [by left|right; by apply Hss].
    + rewrite lookup_insert_ne in HC' by done. by apply (Hother p).
  - intros p1 p2 c1 c2 a Hne H1 H2 Ha1 Ha2.
    destruct (decide (p1 = q)) as [->|Hp1]; destruct (decide (p2 = q)) as [->|Hp2];
      try done.
    + rewrite lookup_insert_eq in H1. rewrite lookup_insert_ne in H2 by done.
      injection H1 as <-. rewrite fmap_app in Ha1. apply elem_of_app in Ha1 as [Ha1|Ha1].
      * eauto.
      * simpl in Ha1. apply list_elem_of_singleton in Ha1. subst a.
        destruct (heap_wf_content_ok m C p2 c2 Hwf H2) as (qr2 & _ & Hok2).
        pose proof (queue_ok_addr_lt m qr2 c2 _ Hok2 Ha2). lia.
    + rewrite lookup_insert_eq in H2. rewrite lookup_insert_ne in H1 by done.
      injection H2 as <-. rewrite fmap_app in Ha2. apply elem_of_app in Ha2 as [Ha2|Ha2].
      * eauto.
      * simpl in Ha2. apply list_elem_of_singleton in Ha2. subst a.
        destruct (heap_wf_content_ok m C p1 c1 Hwf H1) as (qr1 & _ & Hok1).
        pose proof (queue_ok_addr_lt m qr1 c1 _ Hok1 Ha1). lia.
    + rewrite lookup_insert_ne in H1, H2 by done. eauto.
Qed.

(** The head node is unlinked and freed. *)
Lemma heap_wf_pop (m m' : mem) C (q : ptr) (qr : STaosQueue)
      (c : ptr * list byte) (cs : list (ptr * list byte)) (nx : ptr) :
  heap_wf m C → queues m !! q = Some qr → C !! q = Some (c :: cs) →
  nodes m !! c.1 = Some (mkQnode nx c.2) →
  nodes m' = delete c.1 (nodes m) →
  brk m' = brk m →
  queues m' = <[q := mkQueue (queue_itemSize qr) (queue_numOfItems qr - 1) nx
                             (if is_null nx then NULL else queue_tail qr)
                             (queue_next qr) (queue_qset qr)]> (queues m) →
  (∀ p, is_Some (qsets m !! p) → is_Some (qsets m' !! p)) →
  heap_wf m' (<[q := cs]> C).
Proof.
  intros Hwf Hq HC Hn Hnd' Hb Hqs Hss.
  pose proof Hwf as (Hbrk & Hdom & Hfresh & Hok & Hdisj).
  pose proof (Hok q qr _ Hq HC) as Hqok.
  destruct Hqok as (Hch & Htl & Hnum & Hmax & Hnd & Hall & Hsz & Hset).
  destruct Hch as (Hh & Hhn & nx' & Hn' & Hch).
  rewrite Hh, Hn in Hn'. injection Hn' as <-.
  simpl in Hnd. apply NoDup_cons in Hnd as [Hc1 Hnd].
  apply Forall_cons in Hall as [Hc Hall].
  split_and!.
  - by rewrite Hb.
  - intros p. rewrite Hqs. rewrite !lookup_insert_is_Some'. rewrite Hdom.
    split; (intros [<-|?]; [right; eauto|by right]).
  - intros p qr'. rewrite Hqs, Hb. intros Hl.
    apply lookup_insert_Some in Hl as [[<- _]|[_ Hl]]; eauto.
  - intros p qr' cs'. rewrite Hqs. intros Hl HC'.
    apply lookup_insert_Some in Hl as [[<- <-]|[Hne Hl]].
    + rewrite lookup_insert_eq in HC'. injection HC' as <-.
      unfold queue_ok. heap_simpl. split_and!; try done.
      * eapply chain_frame; [|exact Hch]. intros a Ha. rewrite Hnd'.
        apply lookup_delete_ne. by intros <-.
      * destruct (is_null nx) eqn:E.
        -- apply is_null_true in E. apply (chain_null_iff _ _ _ Hch) in E. by subst cs.
        -- apply is_null_false in E. rewrite Htl. apply last_addr_cons.
           intros ->. by apply E.
      * rewrite Hnum. simpl. lia.
      * simpl in Hmax. lia.
      * by rewrite Hb.
      * destruct Hset as [?|?]; [by left|right; by apply Hss].
    + rewrite lookup_insert_ne in HC' by done.
      eapply queue_ok_frame; [by eapply Hok| |lia|done].
      intros a Ha. rewrite Hnd'. apply lookup_delete_ne. intros <-.
      eapply (Hdisj p q cs' (c :: cs)); try done. simpl. apply list_elem_of_here.
  - intros p1 p2 c1 c2 a Hne H1 H2 Ha1 Ha2.
    destruct (decide (p1 = q)) as [->|Hp1]; destruct (decide (p2 = q)) as [->|Hp2];
      try done.
    + rewrite lookup_insert_eq in H1. rewrite lookup_insert_ne in H2 by done.
      injection H1 as <-. eapply (Hdisj q p2 (c :: cs) c2 a); try done.
      simpl. by apply list_elem_of_further.
    + rewrite lookup_insert_eq in H2. rewrite lookup_insert_ne in H1 by done.
      injection H2 as <-. eapply (Hdisj p1 q c1 (c :: cs) a); try done.
      simpl. by apply list_elem_of_further.
    + rewrite lookup_insert_ne in H1, H2 by done. eauto.
Qed.

(** The whole chain is handed over to a batch view. *)
Lemma heap_wf_clear (m m' : mem) C (q : ptr) (qr : STaosQueue)
      (cs : list (ptr * list byte)) :
  heap_wf m C → queues m !! q = Some qr → C !! q = Some cs →
  nodes m' = nodes m →
  (brk m ≤ brk m')%N →
  queues m' = <[q := mkQueue (queue_itemSize qr) 0 NULL NULL
                             (queue_next qr) (queue_qset qr)]> (queues m) →
  (∀ p, is_Some (qsets m !! p) → is_Some (qsets m' !! p)) →
  heap_wf m' (<[q := []]> C).
Proof.
  intros Hwf Hq HC Hnd' Hb Hqs Hss.
  pose proof Hwf as (Hbrk & Hdom & Hfresh & Hok & Hdisj).
  pose proof (Hok q qr _ Hq HC) as Hqok.
  destruct Hqok as (Hch & Htl & Hnum & Hmax & Hnd & Hall & Hsz & Hset).
  split_and!.
  - lia.
  - intros p. rewrite Hqs. rewrite !lookup_insert_is_Some'. rewrite Hdom.
    split; (intros [<-|?]; [right; eauto|by right]).
  - intros p qr'. rewrite Hqs. intros Hl.
    apply lookup_insert_Some in Hl as [[<- _]|[_ Hl]].
    + pose proof (Hfresh _ _ Hq). lia.
    + pose proof (Hfresh _ _ Hl). lia.
  - intros p qr' cs'. rewrite Hqs. intros Hl HC'.
    apply lookup_insert_Some in Hl as [[<- <-]|[Hne Hl]].
    + rewrite lookup_insert_eq in HC'. injection HC' as <-.
      unfold queue_ok. heap_simpl. split_and!; try done.
      * apply NoDup_nil_2.
      * destruct Hset as [?|?]; [by left|right; by apply Hss].
    + rewrite lookup_insert_ne in HC' by done.
      eapply queue_ok_frame; [by eapply Hok| |lia|done].
      intros a Ha. by rewrite Hnd'.
  - intros p1 p2 c1 c2 a Hne H1 H2 Ha1 Ha2.
    destruct (decide (p1 = q)) as [->|Hp1]; destruct (decide (p2 = q)) as [->|Hp2];
      try done.
    + rewrite lookup_insert_eq in H1. injection H1 as <-. by apply elem_of_nil in Ha1.
    + rewrite lookup_insert_eq in H2. injection H2 as <-. by apply elem_of_nil in Ha2.
    + rewrite lookup_insert_ne in H1, H2 by done. eauto.
Qed.

(** Only the set store changes. *)
Lemma heap_wf_qsets (m m' : mem) C :
  heap_wf m C →
  nodes m' = nodes m → queues m' = queues m → (brk m ≤ brk m')%N →
  (∀ p, is_Some (qsets m !! p) → is_Some (qsets m' !! p)) →
  heap_wf m' C.
Proof.
  intros (Hbrk & Hdom & Hfresh & Hok & Hdisj) Hn Hq Hb Hs.
  unfold heap_wf. rewrite Hq. split_and!; try done.
  - lia.
  - intros p qr Hl. pose proof (Hfresh _ _ Hl). lia.
  - intros p qr cs Hl HC. eapply queue_ok_frame; [by eapply Hok| |lia|done].
    intros a _. by rewrite Hn.
Qed.

(** The fields [next] and [qset] of a queue are rewritten. *)
Lemma heap_wf_relink (m m' : mem) C (q : ptr) (qr : STaosQueue) (nx st : ptr) :
  heap_wf m C → queues m !! q = Some qr →
  nodes m' = nodes m → brk m' = brk m →
  queues m' = <[q := mkQueue (queue_itemSize qr) (queue_numOfItems qr) (queue_head qr)
                             (queue_tail qr) nx st]> (queues m) →
  (∀ p, is_Some (qsets m !! p) → is_Some (qsets m' !! p)) →
  (st = NULL ∨ is_Some (qsets m' !! st)) →
  heap_wf m' C.
Proof.
  intros Hwf Hq Hn Hb Hqs Hs Hst.
  pose proof Hwf as (Hbrk & Hdom & Hfresh & Hok & Hdisj).
  unfold heap_wf. rewrite Hb, Hqs. split_and!; try done.
  - intros p. rewrite lookup_insert_is_Some', <- Hdom.
    split; [intros [<-|?]; eauto|by right].
  - intros p qr' Hl. apply lookup_insert_Some in Hl as [[<- _]|[_ Hl]]; eauto.
  - intros p qr' cs Hl HC. apply lookup_insert_Some in Hl as [[<- <-]|[Hne Hl]].
    + destruct (Hok q qr cs Hq HC) as (Hch & Htl & Hnum & Hmax & Hnd & Hall & Hsz & _).
      unfold queue_ok. heap_simpl. rewrite Hn, Hb. by split_and!.
    + eapply queue_ok_frame; [by eapply Hok| |lia|done].
      intros a _. by rewrite Hn.
Qed.

(** ** Enqueue *)

Lemma alter_as_insert {A} (f : A → A) (i : N) (x : A) (mp : gmap N A) :
  mp !! i = Some x → <[i := f x]> mp = alter f i mp.
Proof.
  intros H. apply map_eq. intros j. rewrite lookup_alter, lookup_insert.
  case_decide; [subst; by rewrite H|done].
Qed.

Lemma drop_zero_bytes (n : Z) : drop (Z.to_nat n) (zero_bytes n) = [].
Proof. unfold zero_bytes. apply drop_ge. by rewrite length_replicate. Qed.

Lemma taosWriteQitem_effect (m : mem) C (q : ptr) (qr : STaosQueue)
      (cs : list (ptr * list byte)) (item : list byte) :
  heap_wf m C → queues m !! q = Some qr → C !! q = Some cs →
  calloc_succeeds m →
  Z.of_nat (length cs) < INT32_MAX →
  (Z.to_nat (queue_itemSize qr) ≤ length item)%nat →
  ∃ m', taosWriteQitem q item m = Ok 0 m' ∧
        heap_wf m' (<[q := cs ++ [(brk m, take (Z.to_nat (queue_itemSize qr)) item)]]> C) ∧
        calloc_ok m' = tail (calloc_ok m) ∧
        qalls m' = qalls m ∧
        queues m' = <[q := mkQueue (queue_itemSize qr) (queue_numOfItems qr + 1)
                                   (if decide (cs = []) then brk m else queue_head qr)
                                   (brk m) (queue_next qr) (queue_qset qr)]> (queues m) ∧
        qsets m' = (if is_null (queue_qset qr) then qsets m
                    else alter (atomic_add_numOfItems 1) (queue_qset qr) (qsets m)) ∧
        brk m' = N.succ (brk m) ∧
        (∀ a, a ≠ brk m → (cs ≠ [] → a ≠ queue_tail qr) →
              nodes m' !! a = nodes m !! a).
Proof.
  intros Hwf Hq HC Hal Hlen Hit.
  pose proof Hwf as (Hbrk & Hdom & Hfresh & Hok & Hdisj).
  pose proof (Hok q qr cs Hq HC) as Hqok.
  destruct (Hok q qr cs Hq HC) as (Hch & Htl & Hnum & Hmax & Hnd & Hall & Hsz & Hset).
  assert (Hw : wrap32 (queue_numOfItems qr + 1) = queue_numOfItems qr + 1).
  { apply wrap32_id. unfold INT32_MAX in *. lia. }
  assert (Hbn : brk m ∉ cs.*1).
  { intros Hin. pose proof (queue_ok_addr_lt m qr cs _ Hqok Hin). lia. }
  unfold taosWriteQitem. mstep.
  rewrite (bind_ok _ _ _ _ _ (calloc_qnode_granted m _ Hal Hbrk)).
  assert (Hb : is_null (brk m) = false) by (by apply is_null_false).
  rewrite Hb. mstep.
  erewrite bind_ok; cycle 1.
  { apply do_memcpy_fits; [done|done|].
    unfold zero_qnode, zero_bytes. heap_simpl. by rewrite length_replicate. }
  unfold zero_qnode at 1 2. heap_simpl. rewrite drop_zero_bytes, app_nil_r.
  mstep. mstep.
  destruct (decide (cs = [])) as [->|Hne].
  - (* empty queue: head and tail both become the new node *)
    rewrite Htl. change (is_null (last_addr [])) with true. heap_simpl.
    mstep. mstep. mstep. mstep. rewrite Hw.
    destruct (is_null (queue_qset qr)) eqn:E; cbn [negb when].
    + rewrite bind_ret. unfold ret. eexists. split; [reflexivity|].
      split; [|heap_norm; split_and!; try done;
                intros a Ha _; by rewrite lookup_insert_ne].
      eapply heap_wf_push; try done; heap_norm; try done.
      * by rewrite length_take_le.
      * apply lookup_insert_eq.
      * intros a Ha _. by rewrite !lookup_insert_ne.
    + destruct Hset as [Hs|[sr Hs]]; [apply is_null_false in E; done|].
      mstep. unfold ret. eexists. split; [reflexivity|].
      split; [|split_and!; heap_simpl; try done;
                [by heap_norm | by apply alter_as_insert
                |heap_norm; intros a Ha _; by rewrite lookup_insert_ne]].
      eapply heap_wf_push; try done; heap_norm; try done.
      * by rewrite length_take_le.
      * apply lookup_insert_eq.
      * intros a Ha _. by rewrite !lookup_insert_ne.
      * intros p Hp. apply lookup_insert_is_Some'. by right.
  - (* the new node is linked behind the tail *)
    assert (Htn : queue_tail qr ≠ NULL).
    { rewrite Htl. intros E. by apply (last_addr_null_iff _ _ _ Hch) in E. }
    assert (Htb : queue_tail qr ≠ brk m).
    { rewrite Htl. intros E. apply Hbn. rewrite <- E. by apply last_addr_elem. }
    assert (Htin : last_addr cs ∈ cs.*1) by (by apply last_addr_elem).
    destruct (chain_lookup _ _ _ _ Hch Htin) as [nt Hnt]. rewrite <- Htl in Hnt.
    apply is_null_false in Htn. rewrite Htn. heap_simpl.
    mstep. mstep. mstep. mstep. rewrite Hw.
    assert (Hpush : ∀ m', brk m' = N.succ (brk m) →
      nodes m' = <[queue_tail qr := set_qnode_next (brk m) nt]>
                   (<[brk m := mkQnode NULL (take (Z.to_nat (queue_itemSize qr)) item)]>
                      (nodes m)) →
      queues m' = <[q := mkQueue (queue_itemSize qr) (queue_numOfItems qr + 1)
                             (queue_head qr) (brk m) (queue_next qr) (queue_qset qr)]>
                    (queues m) →
      (∀ p, is_Some (qsets m !! p) → is_Some (qsets m' !! p)) →
      heap_wf m' (<[q := cs ++ [(brk m, take (Z.to_nat (queue_itemSize qr)) item)]]> C)).
    { intros m' Hb' Hn' Hq' Hs'. eapply heap_wf_push; try done.
      - by rewrite length_take_le.
      - rewrite Hn', lookup_insert_ne by done. apply lookup_insert_eq.
      - intros _ n Hn. rewrite Hn', <- Htl. rewrite <- Htl, Hnt in Hn.
        injection Hn as <-. apply lookup_insert_eq.
      - intros a Ha1 Ha2. rewrite Hn', <- Htl in *. by rewrite !lookup_insert_ne.
      - by rewrite decide_False. }
    destruct (is_null (queue_qset qr)) eqn:E; cbn [negb when].
    + rewrite bind_ret. unfold ret. eexists. split; [reflexivity|].
      split; [|heap_norm; split_and!; try done;
                intros a Ha1 Ha2; specialize (Ha2 Hne); by rewrite !lookup_insert_ne].
      apply Hpush; heap_norm; try done.
    + destruct Hset as [Hs|[sr Hs]]; [apply is_null_false in E; done|].
      mstep. unfold ret. eexists. split; [reflexivity|].
      split; [|split_and!; heap_simpl; try done;
                [by heap_norm | by apply alter_as_insert
                |heap_norm; intros a Ha1 Ha2; specialize (Ha2 Hne);
                 by rewrite !lookup_insert_ne]].
      apply Hpush; heap_norm; try done.
      intros p Hp. apply lookup_insert_is_Some'. by right.
Qed.

Lemma taosWriteQitem_spec (m : mem) C (q : ptr) (qr : STaosQueue)
      (cs : list (ptr * list byte)) (item : list byte) :
  heap_wf m C → queues m !! q = Some qr → C !! q = Some cs →
  calloc_succeeds m →
  Z.of_nat (length cs) < INT32_MAX →
  (Z.to_nat (queue_itemSize qr) ≤ length item)%nat →
  ∃ m', taosWriteQitem q item m = Ok 0 m' ∧
        heap_wf m' (<[q := cs ++ [(brk m, take (Z.to_nat (queue_itemSize qr)) item)]]> C) ∧
        calloc_ok m' = tail (calloc_ok m) ∧
        qalls m' = qalls m ∧
        queues m' = <[q := mkQueue (queue_itemSize qr) (queue_numOfItems qr + 1)
                                   (if decide (cs = []) then brk m else queue_head qr)
                                   (brk m) (queue_next qr) (queue_qset qr)]> (queues m) ∧
        qsets m' = (if is_null (queue_qset qr) then qsets m
                    else alter (atomic_add_numOfItems 1) (queue_qset qr) (qsets m)).
Proof.
  intros Hwf Hq HC Hal Hlen Hit.
  destruct (taosWriteQitem_effect m C q qr cs item Hwf Hq HC Hal Hlen Hit)
    as (m' & E & Hwf' & O' & A' & Q' & S' & _).
  exists m'. by split_and!.
Qed.

(** ** Dequeue *)

Lemma taosReadQitem_empty (m : mem) C (q : ptr) (item : list byte) :
  heap_wf m C → C !! q = Some [] →
  taosReadQitem q item m = Ok (0, item) m.
Proof.
  intros Hwf HC. destruct (heap_wf_content_ok m C q [] Hwf HC) as (qr & Hq & Hok).
  destruct Hok as (Hch & _). simpl in Hch.
  unfold taosReadQitem. mstep. rewrite Hch. reflexivity.
Qed.

(** The statements that unlink and free the head node of a queue, as they
    stand in [taosReadQitem] and again in [taosReadQitemFromQset], followed
    by any continuation [K] that receives the filled buffer. *)
Lemma pop_steps_effect {A} (K : list byte → M A) (m : mem) C (q : ptr) (qr : STaosQueue)
      (c : ptr * list byte) (cs : list (ptr * list byte)) (item : list byte) :
  heap_wf m C → queues m !! q = Some qr → C !! q = Some (c :: cs) →
  (Z.to_nat (queue_itemSize qr) ≤ length item)%nat →
  ∃ m2,
    (do nd <- get_qnode (queue_head qr);
     do item' <- do_memcpy item (qnode_item nd) (queue_itemSize qr);
     upd_queue q (set_queue_head (qnode_next nd));;
     do q0 <- get_queue q;
     when (is_null (queue_head q0)) (upd_queue q (set_queue_tail NULL));;
     free_qnode (queue_head qr);;
     upd_queue q (fun q1 => set_queue_numOfItems (wrap32 (queue_numOfItems q1 - 1)) q1);;
     K item') m
    = K (c.2 ++ drop (Z.to_nat (queue_itemSize qr)) item) m2 ∧
    heap_wf m2 (<[q := cs]> C) ∧
    qsets m2 = qsets m ∧ qalls m2 = qalls m ∧
    calloc_ok m2 = calloc_ok m ∧ brk m2 = brk m ∧
    queues m2 = <[q := mkQueue (queue_itemSize qr) (queue_numOfItems qr - 1)
                               (hd NULL cs.*1)
                               (if decide (cs = []) then NULL else queue_tail qr)
                               (queue_next qr) (queue_qset qr)]> (queues m) ∧
    nodes m2 = delete c.1 (nodes m).
Proof.
  intros Hwf Hq HC Hit.
  pose proof Hwf as (Hbrk & Hdom & Hfresh & Hok & Hdisj).
  pose proof (Hok q qr _ Hq HC) as Hqok.
  destruct (Hok q qr _ Hq HC) as (Hch & Htl & Hnum & Hmax & Hnd & Hall & Hsz & Hset).
  destruct Hch as (Hh & Hhn & nx & Hn & Hch).
  apply Forall_cons in Hall as [[_ Hc2] Hall].
  assert (Hw : wrap32 (queue_numOfItems qr - 1) = queue_numOfItems qr - 1).
  { apply wrap32_id. rewrite Hnum. unfold INT32_MAX in *. simpl length in *. lia. }
  assert (Hnx : nx = hd NULL cs.*1).
  { destruct cs as [|c' cs]; simpl in Hch; [done|]. by destruct Hch as (-> & _). }
  assert (Hnull : is_null nx = if decide (cs = []) then true else false).
  { case_decide as Hcs.
    - apply is_null_true. by apply (chain_null_iff _ _ _ Hch).
    - apply is_null_false. intros E. by apply (chain_null_iff _ _ _ Hch) in E. }
  mstep.
  erewrite bind_ok; cycle 1.
  { apply do_memcpy_fits; [done| |done]. heap_simpl. lia. }
  heap_simpl. rewrite (take_ge c.2) by lia.
  mstep. mstep.
  assert (Hrec : mkQueue (queue_itemSize qr) (queue_numOfItems qr - 1) nx
                         (if is_null nx then NULL else queue_tail qr)
                         (queue_next qr) (queue_qset qr)
                 = mkQueue (queue_itemSize qr) (queue_numOfItems qr - 1) (hd NULL cs.*1)
                         (if decide (cs = []) then NULL else queue_tail qr)
                         (queue_next qr) (queue_qset qr)).
  { rewrite Hnull, <- Hnx. by case_decide. }
  rewrite <- Hrec. rewrite Hh in Hn.
  assert (∃ m1, when (is_null nx) (upd_queue q (set_queue_tail NULL))
                     (set_queues <[q:=set_queue_head nx qr]> m) = Ok tt m1 ∧
                nodes m1 = nodes m ∧ qsets m1 = qsets m ∧ qalls m1 = qalls m ∧
                brk m1 = brk m ∧ calloc_ok m1 = calloc_ok m ∧
                queues m1 = <[q := mkQueue (queue_itemSize qr) (queue_numOfItems qr) nx
                                     (if is_null nx then NULL else queue_tail qr)
                                     (queue_next qr) (queue_qset qr)]> (queues m))
    as (m1 & E1 & N1 & S1 & A1 & B1 & O1 & Q1).
  { destruct (is_null nx); cbn [when].
    - erewrite upd_queue_ok by solve_lookup. eexists. split; [reflexivity|].
      heap_norm. by split_and!.
    - eexists. split; [reflexivity|]. heap_norm. by split_and!. }
  rewrite (bind_ok _ _ _ _ _ E1).
  assert (Hq1 : queues m1 !! q = Some (mkQueue (queue_itemSize qr) (queue_numOfItems qr) nx
                                     (if is_null nx then NULL else queue_tail qr)
                                     (queue_next qr) (queue_qset qr)))
    by (rewrite Q1; apply lookup_insert_eq).
  assert (Hn1 : nodes m1 !! c.1 = Some (mkQnode nx c.2)) by (by rewrite N1).
  rewrite Hh. mstep. mstep. rewrite Hw.
  eexists. split; [reflexivity|].
  split; [|heap_norm; split_and!; try done;
            first [by rewrite Q1, insert_insert_eq | by rewrite N1]].
  eapply heap_wf_pop; try done; heap_norm; try done.
  - by rewrite N1.
  - by rewrite Q1, insert_insert_eq.
  - by rewrite S1.
Qed.

Lemma pop_steps {A} (K : list byte → M A) (m : mem) C (q : ptr) (qr : STaosQueue)
      (c : ptr * list byte) (cs : list (ptr * list byte)) (item : list byte) :
  heap_wf m C → queues m !! q = Some qr → C !! q = Some (c :: cs) →
  (Z.to_nat (queue_itemSize qr) ≤ length item)%nat →
  ∃ m2,
    (do nd <- get_qnode (queue_head qr);
     do item' <- do_memcpy item (qnode_item nd) (queue_itemSize qr);
     upd_queue q (set_queue_head (qnode_next nd));;
     do q0 <- get_queue q;
     when (is_null (queue_head q0)) (upd_queue q (set_queue_tail NULL));;
     free_qnode (queue_head qr);;
     upd_queue q (fun q1 => set_queue_numOfItems (wrap32 (queue_numOfItems q1 - 1)) q1);;
     K item') m
    = K (c.2 ++ drop (Z.to_nat (queue_itemSize qr)) item) m2 ∧
    heap_wf m2 (<[q := cs]> C) ∧
    qsets m2 = qsets m ∧ qalls m2 = qalls m ∧
    calloc_ok m2 = calloc_ok m ∧ brk m2 = brk m ∧
    queues m2 = <[q := mkQueue (queue_itemSize qr) (queue_numOfItems qr - 1)
                               (hd NULL cs.*1)
                               (if decide (cs = []) then NULL else queue_tail qr)
                               (queue_next qr) (queue_qset qr)]> (queues m).
Proof.
  intros Hwf Hq HC Hit.
  destruct (pop_steps_effect K m C q qr c cs item Hwf Hq HC Hit)
    as (m2 & E & Hwf2 & S2 & A2 & O2 & B2 & Q2 & _).
  exists m2. by split_and!.
Qed.

Lemma taosReadQitem_effect (m : mem) C (q : ptr) (qr : STaosQueue)
      (c : ptr * list byte) (cs : list (ptr * list byte)) (item : list byte) :
  heap_wf m C → queues m !! q = Some qr → C !! q = Some (c :: cs) →
  (Z.to_nat (queue_itemSize qr) ≤ length item)%nat →
  ∃ m', taosReadQitem q item m
        = Ok (1, c.2 ++ drop (Z.to_nat (queue_itemSize qr)) item) m' ∧
        heap_wf m' (<[q := cs]> C) ∧
        calloc_ok m' = calloc_ok m ∧
        qalls m' = qalls m ∧
        queues m' = <[q := mkQueue (queue_itemSize qr) (queue_numOfItems qr - 1)
                                   (hd NULL cs.*1)
                                   (if decide (cs = []) then NULL else queue_tail qr)
                                   (queue_next qr) (queue_qset qr)]> (queues m) ∧
        qsets m' = (if is_null (queue_qset qr) then qsets m
                    else alter (atomic_sub_numOfItems 1) (queue_qset qr) (qsets m)) ∧
        nodes m' = delete c.1 (nodes m) ∧ brk m' = brk m.
Proof.
  intros Hwf Hq HC Hit.
  pose proof Hwf as (_ & _ & _ & Hok & _).
  destruct (Hok q qr _ Hq HC) as (Hch & _ & _ & _ & _ & _ & _ & Hset).
  assert (Hhn : is_null (queue_head qr) = false).
  { apply is_null_false. by destruct Hch as (-> & ? & _). }
  unfold taosReadQitem. mstep. rewrite Hhn. cbn [negb].
  destruct (pop_steps_effect (fun item' =>
                         do q0 <- get_queue q;
                         when (negb (is_null (queue_qset q0)))
                              (upd_qset (queue_qset q0) (atomic_sub_numOfItems 1));;
                         ret (1, item'))
                      m C q qr c cs item Hwf Hq HC Hit)
    as (m2 & E & Hwf2 & S2 & A2 & O2 & B2 & Q2 & N2).
  rewrite E. clear E.
  assert (Hq2 : queues m2 !! q
                = Some (mkQueue (queue_itemSize qr) (queue_numOfItems qr - 1)
                                (hd NULL cs.*1)
                                (if decide (cs = []) then NULL else queue_tail qr)
                                (queue_next qr) (queue_qset qr)))
    by (rewrite Q2; apply lookup_insert_eq).
  mstep. destruct (is_null (queue_qset qr)) eqn:E; cbn [negb when].
  - rewrite bind_ret. unfold ret. exists m2. by split_and!.
  - destruct Hset as [Hs|[sr Hs]]; [apply is_null_false in E; done|].
    rewrite <- S2 in Hs. mstep. unfold ret. eexists. split; [reflexivity|].
    heap_simpl. split_and!; try done.
    + eapply heap_wf_qsets; [exact Hwf2|done..|].
      heap_simpl. intros p Hp. apply lookup_insert_is_Some'. by right.
    + rewrite <- S2. by apply alter_as_insert.
Qed.

Lemma taosReadQitem_spec (m : mem) C (q : ptr) (qr : STaosQueue)
      (c : ptr * list byte) (cs : list (ptr * list byte)) (item : list byte) :
  heap_wf m C → queues m !! q = Some qr → C !! q = Some (c :: cs) →
  (Z.to_nat (queue_itemSize qr) ≤ length item)%nat →
  ∃ m', taosReadQitem q item m
        = Ok (1, c.2 ++ drop (Z.to_nat (queue_itemSize qr)) item) m' ∧
        heap_wf m' (<[q := cs]> C) ∧
        calloc_ok m' = calloc_ok m ∧
        qalls m' = qalls m ∧
        queues m' = <[q := mkQueue (queue_itemSize qr) (queue_numOfItems qr - 1)
                                   (hd NULL cs.*1)
                                   (if decide (cs = []) then NULL else queue_tail qr)
                                   (queue_next qr) (queue_qset qr)]> (queues m) ∧
        qsets m' = (if is_null (queue_qset qr) then qsets m
                    else alter (atomic_sub_numOfItems 1) (queue_qset qr) (qsets m)).
Proof.
  intros Hwf Hq HC Hit.
  destruct (taosReadQitem_effect m C q qr c cs item Hwf Hq HC Hit)
    as (m' & E & Hwf' & O' & A' & Q' & S' & _).
  exists m'. by split_and!.
Qed.

(** ** Draining a queue into a batch view *)

Lemma taosReadAllQitems_empty (m : mem) C (q : ptr) :
  heap_wf m C → C !! q = Some [] →
  taosReadAllQitems q m = Ok (0, NULL) m.
Proof.
  intros Hwf HC. destruct (heap_wf_content_ok m C q [] Hwf HC) as (qr & Hq & Hok).
  destruct Hok as (Hch & _). simpl in Hch.
  unfold taosReadAllQitems. mstep. rewrite Hch. reflexivity.
Qed.

Lemma taosReadAllQitems_spec (m : mem) C (q : ptr) (qr : STaosQueue)
      (cs : list (ptr * list byte)) :
  heap_wf m C → queues m !! q = Some qr → C !! q = Some cs → cs ≠ [] →
  calloc_succeeds m →
  ∃ m', taosReadAllQitems q m = Ok (Z.of_nat (length cs), brk m) m' ∧
        heap_wf m' (<[q := []]> C) ∧
        nodes m' = nodes m ∧
        calloc_ok m' = tail (calloc_ok m) ∧
        qalls m' = <[brk m := mkQall (queue_head qr) (queue_head qr)
                                     (queue_itemSize qr) (queue_numOfItems qr)]> (qalls m) ∧
        queues m' = <[q := mkQueue (queue_itemSize qr) 0 NULL NULL
                                   (queue_next qr) (queue_qset qr)]> (queues m) ∧
        qsets m' = (if is_null (queue_qset qr) then qsets m
                    else alter (atomic_sub_numOfItems (queue_numOfItems qr))
                               (queue_qset qr) (qsets m)).
Proof.
  intros Hwf Hq HC Hne Hal.
  pose proof Hwf as (Hbrk & Hdom & Hfresh & Hok & Hdisj).
  destruct (Hok q qr _ Hq HC) as (Hch & Htl & Hnum & Hmax & Hnd & Hall & Hsz & Hset).
  assert (Hhn : is_null (queue_head qr) = false).
  { apply is_null_false. intros E. by apply (chain_null_iff _ _ _ Hch) in E. }
  assert (Hb : is_null (brk m) = false) by (by apply is_null_false).
  assert (Hclear : ∀ m', brk m' = N.succ (brk m) → nodes m' = nodes m →
      queues m' = <[q := mkQueue (queue_itemSize qr) 0 NULL NULL
                             (queue_next qr) (queue_qset qr)]> (queues m) →
      (∀ p, is_Some (qsets m !! p) → is_Some (qsets m' !! p)) →
      heap_wf m' (<[q := []]> C)).
  { intros m' Hb' Hn' Hq' Hs'. eapply heap_wf_clear; try done. lia. }
  rewrite <- Hnum.
  unfold taosReadAllQitems. mstep. rewrite Hhn. cbn [negb].
  rewrite (bind_ok _ _ _ _ _ (calloc_qall_granted m Hal Hbrk)). rewrite Hb.
  mstep. mstep. mstep. mstep. mstep. mstep. mstep.
  destruct (is_null (queue_qset qr)) eqn:E; cbn [negb when].
  - rewrite bind_ret. unfold ret. eexists. split; [reflexivity|].
    split; [|heap_norm; by split_and!].
    apply Hclear; heap_norm; try done.
  - destruct Hset as [Hs|[sr Hs]]; [apply is_null_false in E; done|].
    mstep. unfold ret. eexists. split; [reflexivity|].
    split; [|split_and!; heap_simpl; try done;
              [by heap_norm | by heap_norm | by apply alter_as_insert]].
    apply Hclear; heap_norm; try done.
    intros p Hp. apply lookup_insert_is_Some'. by right.
Qed.

(** ** Walking a batch view *)

Lemma set_qall_current_same (a : STaosQall) : set_qall_current (qall_current a) a = a.
Proof. by destruct a. Qed.

Lemma taosGetQitem_step (m : mem) (view : ptr) (ar : STaosQall)
      (c : ptr * list byte) (nx : ptr) (item : list byte) :
  qalls m !! view = Some ar →
  qall_current ar = c.1 → c.1 ≠ NULL →
  nodes m !! c.1 = Some (mkQnode nx c.2) →
  0 ≤ qall_itemSize ar →
  length c.2 = Z.to_nat (qall_itemSize ar) →
  (Z.to_nat (qall_itemSize ar) ≤ length item)%nat →
  taosGetQitem view item m
  = Ok (1, c.2 ++ drop (Z.to_nat (qall_itemSize ar)) item)
       (set_qalls (insert view (set_qall_current nx ar)) m).
Proof.
  intros Ha Hc Hnn Hn Hsz Hlen Hit.
  unfold taosGetQitem. mstep. rewrite Hc.
  apply is_null_false in Hnn. rewrite Hnn. cbn [negb].
  mstep. mstep. mstep. mstep.
  erewrite bind_ok; cycle 1.
  { apply do_memcpy_fits; [done|lia|done]. }
  by rewrite (take_ge c.2) by lia.
Qed.

(** A pass over the view from its cursor: one call for each node that is
    left returns the payloads in chain order, the call after them returns
    [0], and the cursor is left at [NULL]. *)
Lemma taosGetQitem_n_pass (cs : list (ptr * list byte)) (m : mem) (view : ptr)
      (ar : STaosQall) (item : list byte) :
  qalls m !! view = Some ar →
  chain (nodes m) (qall_current ar) cs →
  0 ≤ qall_itemSize ar →
  Forall (fun c => length c.2 = Z.to_nat (qall_itemSize ar)) cs →
  (Z.to_nat (qall_itemSize ar) ≤ length item)%nat →
  ∃ m', taosGetQitem_n (S (length cs)) view item m
        = Ok (map (fun c => (1, c.2 ++ drop (Z.to_nat (qall_itemSize ar)) item)) cs
              ++ [(0, item)]) m' ∧
        nodes m' = nodes m ∧ queues m' = queues m ∧ qsets m' = qsets m ∧
        qalls m' = <[view := set_qall_current NULL ar]> (qalls m).
Proof.
  revert m ar. induction cs as [|c cs IH]; intros m ar Ha Hch Hsz Hall Hit.
  - simpl in Hch. exists m. cbn [length taosGetQitem_n].
    rewrite (bind_ok _ _ _ _ _ (taosGetQitem_at_end m view ar item Ha Hch)).
    split; [reflexivity|]. split_and!; try done.
    rewrite <- Hch, set_qall_current_same. by rewrite insert_id.
  - destruct Hch as (Hc & Hnn & nx & Hn & Hch). rewrite Hc in Hnn, Hn.
    apply Forall_cons in Hall as [Hlen Hall].
    cbn [length]. remember (S (length cs)) as k. cbn [taosGetQitem_n]. subst k.
    rewrite (bind_ok _ _ _ _ _ (taosGetQitem_step m view ar c nx item Ha Hc Hnn Hn Hsz Hlen Hit)).
    destruct (IH (set_qalls (insert view (set_qall_current nx ar)) m)
                 (set_qall_current nx ar)) as (m' & E & N' & Q' & S' & A'); try done.
    { heap_simpl. apply lookup_insert_eq. }
    rewrite (bind_ok _ _ _ _ _ E). unfold ret.
    exists m'. split; [reflexivity|]. split_and!; try done.
    rewrite A'. heap_simpl. by rewrite insert_insert_eq.
Qed.

(** ** First in, first out *)

Lemma calloc_grants_S (n : nat) (m : mem) :
  calloc_grants (S n) m →
  calloc_succeeds m ∧ take n (tail (calloc_ok m)) = replicate n true.
Proof.
  unfold calloc_grants, calloc_succeeds. destruct (calloc_ok m) as [|b rest]; simpl.
  - discriminate.
  - intros H. injection H as -> H. done.
Qed.

Lemma taosWriteQitem_all_spec (items : list (list byte)) (m : mem) C (q : ptr)
      (qr : STaosQueue) (cs : list (ptr * list byte)) :
  heap_wf m C → queues m !! q = Some qr → C !! q = Some cs →
  calloc_grants (length items) m →
  Z.of_nat (length cs + length items) ≤ INT32_MAX →
  Forall (fun it => length it = Z.to_nat (queue_itemSize qr)) items →
  ∃ m' qr' cs',
    taosWriteQitem_all q items m = Ok (replicate (length items) 0) m' ∧
    heap_wf m' (<[q := cs ++ cs']> C) ∧
    cs'.*2 = items ∧
    queues m' !! q = Some qr' ∧
    queue_itemSize qr' = queue_itemSize qr ∧
    queue_numOfItems qr' = queue_numOfItems qr + Z.of_nat (length items).
Proof.
  revert m C qr cs. induction items as [|it items IH]; intros m C qr cs Hwf Hq HC Hal Hlen Hall.
  - exists m, qr, []. split; [reflexivity|]. rewrite app_nil_r, insert_id by done.
    split_and!; try done. simpl. lia.
  - apply calloc_grants_S in Hal as [Hal Hrest].
    apply Forall_cons in Hall as [Hit Hall]. cbn [length] in Hlen.
    destruct (taosWriteQitem_spec m C q qr cs it Hwf Hq HC Hal) as
      (m1 & E1 & Hwf1 & O1 & A1 & Q1 & S1); [lia|lia|].
    rewrite take_ge in Hwf1 by lia.
    set (qr1 := mkQueue _ _ _ _ _ _) in Q1.
    destruct (IH m1 _ qr1 (cs ++ [(brk m, it)]) Hwf1) as
      (m2 & qr2 & cs2 & E2 & Hwf2 & Hcs2 & Hq2 & Hsz2 & Hn2).
    + rewrite Q1. apply lookup_insert_eq.
    + apply lookup_insert_eq.
    + unfold calloc_grants. by rewrite O1.
    + rewrite length_app. simpl. lia.
    + done.
    + exists m2, qr2, ((brk m, it) :: cs2).
      cbn [taosWriteQitem_all]. rewrite (bind_ok _ _ _ _ _ E1), (bind_ok _ _ _ _ _ E2).
      split; [reflexivity|]. rewrite insert_insert_eq, <- app_assoc in Hwf2.
      split_and!; try done.
      * rewrite fmap_cons. simpl. by rewrite Hcs2.
      * rewrite Hn2. subst qr1. simpl. lia.
Qed.

Lemma taosReadQitem_n_spec (cs : list (ptr * list byte)) (m : mem) C (q : ptr)
      (qr : STaosQueue) (item : list byte) :
  heap_wf m C → queues m !! q = Some qr → C !! q = Some cs →
  length item = Z.to_nat (queue_itemSize qr) →
  ∃ m' C',
    taosReadQitem_n (S (length cs)) q item m
    = Ok (map (fun c => (1, c.2)) cs ++ [(0, item)]) m' ∧
    heap_wf m' C' ∧ C' !! q = Some [].
Proof.
  revert m C qr. induction cs as [|c cs IH]; intros m C qr Hwf Hq HC Hit.
  - exists m, C. cbn [length taosReadQitem_n].
    rewrite (bind_ok _ _ _ _ _ (taosReadQitem_empty m C q item Hwf HC)).
    by split_and!.
  - destruct (taosReadQitem_spec m C q qr c cs item Hwf Hq HC) as
      (m1 & E1 & Hwf1 & O1 & A1 & Q1 & S1); [lia|].
    rewrite drop_ge, app_nil_r in E1 by lia.
    set (qr1 := mkQueue _ _ _ _ _ _) in Q1.
    destruct (IH m1 _ qr1 Hwf1) as (m2 & Cq & E2 & Hwf2 & HCq).
    + rewrite Q1. apply lookup_insert_eq.
    + apply lookup_insert_eq.
    + done.
    + exists m2, Cq. cbn [length]. remember (S (length cs)) as k.
      cbn [taosReadQitem_n]. rewrite (bind_ok _ _ _ _ _ E1), (bind_ok _ _ _ _ _ E2).
      by split_and!.
Qed.

(** ** Opening a queue *)

Lemma heap_wf_init (oracle : list bool) : heap_wf (mem_init oracle) ∅.
Proof.
  unfold heap_wf, mem_init. simpl. split_and!; try done.
  - intros p. rewrite !lookup_empty. done.
Qed.

Lemma taosOpenQueue_spec (m : mem) C (itemSize : Z) :
  heap_wf m C → calloc_succeeds m → 0 ≤ itemSize ≤ INT32_MAX →
  ∃ m', taosOpenQueue itemSize m = Ok (brk m) m' ∧
        heap_wf m' (<[brk m := []]> C) ∧
        queues m' = <[brk m := mkQueue itemSize 0 NULL NULL NULL NULL]> (queues m) ∧
        nodes m' = nodes m ∧ qsets m' = qsets m ∧ qalls m' = qalls m ∧
        calloc_ok m' = tail (calloc_ok m).
Proof.
  intros Hwf Hal Hsz.
  pose proof Hwf as (Hbrk & Hdom & Hfresh & Hok & Hdisj).
  assert (Hb : is_null (brk m) = false) by (by apply is_null_false).
  assert (HqN : queues m !! brk m = None).
  { destruct (queues m !! brk m) eqn:E; [|done]. pose proof (Hfresh _ _ E). lia. }
  assert (HCN : C !! brk m = None).
  { apply eq_None_not_Some. rewrite <- Hdom. by rewrite HqN; intros [? ?]. }
  unfold taosOpenQueue.
  rewrite (bind_ok _ _ _ _ _ (calloc_queue_granted m Hal Hbrk)). rewrite Hb.
  mstep. unfold ret. rewrite wrap32_id by (unfold INT32_MAX in *; lia).
  eexists. split; [reflexivity|]. heap_norm. unfold zero_queue. heap_simpl.
  split; [|by split_and!].
  unfold heap_wf. heap_norm. split_and!.
  - lia.
  - intros p. rewrite !lookup_insert_is_Some'. by rewrite Hdom.
  - intros p qr Hl. apply lookup_insert_Some in Hl as [[<- _]|[_ Hl]]; [lia|].
    pose proof (Hfresh _ _ Hl). lia.
  - intros p qr cs Hl HC. apply lookup_insert_Some in Hl as [[<- <-]|[Hne Hl]].
    + rewrite lookup_insert_eq in HC. injection HC as <-.
      unfold queue_ok. heap_simpl. split_and!; try done.
      * apply NoDup_nil_2.
      * lia.
      * by left.
    + rewrite lookup_insert_ne in HC by done.
      eapply queue_ok_frame; [by eapply Hok|done|simpl; lia|done].
  - intros p1 p2 c1 c2 a Hne H1 H2 Ha1 Ha2.
    destruct (decide (p1 = brk m)) as [->|Hp1]; destruct (decide (p2 = brk m)) as [->|Hp2];
      try done.
    + rewrite lookup_insert_eq in H1. injection H1 as <-. by apply elem_of_nil in Ha1.
    + rewrite lookup_insert_eq in H2. injection H2 as <-. by apply elem_of_nil in Ha2.
    + rewrite lookup_insert_ne in H1, H2 by done. eauto.
Qed.

(** C4: on a queue that holds the chain [cs], writing [items] one after
    the other succeeds each time, and the following reads return first the
    payloads of [cs] and then [items], in that order, each with code [1];
    the read after the last one returns [0] and leaves the buffer as it
    was.  In particular a fresh queue with [itemSize = 4] gives back
    0x01020304, 0x05060708, 0x090A0B0C in that order and then reports that
    it is empty. *)
Theorem enqueue_dequeue_fifo :
  (∀ (m : mem) C (q : ptr) (qr : STaosQueue) (cs : list (ptr * list byte))
     (items : list (list byte)) (item : list byte),
      heap_wf m C → queues m !! q = Some qr → C !! q = Some cs →
      calloc_grants (length items) m →
      Z.of_nat (length cs + length items) ≤ INT32_MAX →
      Forall (fun it => length it = Z.to_nat (queue_itemSize qr)) items →
      length item = Z.to_nat (queue_itemSize qr) →
      ∃ m1 m2,
        taosWriteQitem_all q items m = Ok (replicate (length items) 0) m1 ∧
        taosReadQitem_n (S (length cs + length items)) q item m1
        = Ok (map (fun it => (1, it)) (cs.*2 ++ items) ++ [(0, item)]) m2) ∧
  (∃ m, scenario_fifo (mem_init (replicate 4 true))
        = Ok ([0; 0; 0],
              [(1, int32_bytes 0x01020304); (1, int32_bytes 0x05060708);
               (1, int32_bytes 0x090A0B0C); (0, int32_bytes 0)]) m).
Proof.
  split.
  - intros m C q qr cs items item Hwf Hq HC Hal Hlen Hall Hit.
    destruct (taosWriteQitem_all_spec items m C q qr cs Hwf Hq HC Hal Hlen Hall)
      as (m1 & qr1 & cs1 & E1 & Hwf1 & Hcs1 & Hq1 & Hsz1 & _).
    destruct (taosReadQitem_n_spec (cs ++ cs1) m1 _ q qr1 item Hwf1 Hq1)
      as (m2 & Cq & E2 & _).
    + apply lookup_insert_eq.
    + by rewrite Hsz1.
    + exists m1, m2. split; [done|].
      rewrite length_app in E2. rewrite <- Hcs1, length_fmap.
      rewrite E2. rewrite <- fmap_app. by rewrite <- list_fmap_compose.
  - eexists. vm_compute. reflexivity.
Qed.

Lemma heap_wf_queue4 : heap_wf mem_queue4 {[ 1%N := [] ]}.
Proof.
  destruct (taosOpenQueue_spec (mem_init (replicate 4 true)) ∅ 4) as (m' & E & Hwf & _).
  - apply heap_wf_init.
  - reflexivity.
  - unfold INT32_MAX. simpl. lia.
  - vm_compute in E. injection E as <-. exact Hwf.
Qed.

Lemma enqueue_dequeue_fifo_witness :
  ∃ m1 m2,
    taosWriteQitem_all 1%N
      [int32_bytes 0x01020304; int32_bytes 0x05060708; int32_bytes 0x090A0B0C] mem_queue4
    = Ok [0; 0; 0] m1 ∧
    taosReadQitem_n 4 1%N (int32_bytes 0) m1
    = Ok [(1, int32_bytes 0x01020304); (1, int32_bytes 0x05060708);
          (1, int32_bytes 0x090A0B0C); (0, int32_bytes 0)] m2.
Proof.
  apply (proj1 enqueue_dequeue_fifo mem_queue4 {[ 1%N := [] ]} 1%N
               (mkQueue 4 0 NULL NULL NULL NULL) []
               [int32_bytes 0x01020304; int32_bytes 0x05060708; int32_bytes 0x090A0B0C]
               (int32_bytes 0)).
  - exact heap_wf_queue4.
  - reflexivity.
  - reflexivity.
  - reflexivity.
  - unfold INT32_MAX. simpl. lia.
  - repeat constructor.
  - reflexivity.
Defined.

(** ** Drain completeness *)




(** ** Member lists and the cursor *)

Lemma qchain_hd (qm : gmap N STaosQueue) (qs : list ptr) (p : ptr) :
  qchain qm p qs → p = hd NULL qs.
Proof. destruct qs; simpl; [done|]. by intros (-> & _). Qed.

Lemma qchain_app_inv (qm : gmap N STaosQueue) (k l : list ptr) (p : ptr) :
  qchain qm p (k ++ l) → qchain qm (hd NULL l) l.
Proof.
  revert p. induction k as [|a k IH]; intros p Hc.
  - simpl in Hc. by rewrite <- (qchain_hd _ _ _ Hc).
  - destruct Hc as (_ & _ & q & _ & Hc). by eapply IH.
Qed.

Lemma qchain_suffix_next (qm : gmap N STaosQueue) (qs rest : list ptr) (p a : ptr) :
  qchain qm p qs → (a :: rest) `suffix_of` qs →
  a ≠ NULL ∧ ∃ q, qm !! a = Some q ∧ queue_next q = hd NULL rest.
Proof.
  intros Hc [k ->]. apply qchain_app_inv in Hc. simpl in Hc.
  destruct Hc as (_ & Hnn & q & Hq & Hc). split; [done|].
  exists q. split; [done|]. by apply qchain_hd in Hc.
Qed.

Lemma rewind_suffix (qs cur : list ptr) : cur `suffix_of` qs → rewind qs cur `suffix_of` qs.
Proof. destruct cur; simpl; [done|done]. Qed.

Lemma advance_suffix (qs cur : list ptr) : cur `suffix_of` qs → advance qs cur `suffix_of` qs.
Proof.
  intros H. apply rewind_suffix in H. unfold advance.
  destruct (rewind qs cur) as [|a rest]; [done|]. simpl.
  etrans; [|exact H]. apply suffix_cons_r. done.
Qed.

(** The locked section at the top of the loop body, shared by
    [taosReadQitemFromQset] and [taosReadAllQitemsFromQset]: the cursor is
    rewound to the head when it is [NULL], the queue under the cursor is
    taken, and the cursor moves to the queue after it. *)
Lemma cursor_step {A} (K : ptr → M A) (m : mem) (s : ptr) (qs cur : list ptr) :
  set_ok m s qs cur →
  ∃ m1 sr,
    (do s0 <- get_qset s;
     when (is_null (qset_current s0)) (upd_qset s (set_qset_current (qset_head s0)));;
     do s1 <- get_qset s;
     (if negb (is_null (qset_current s1)) then
        do q <- get_queue (qset_current s1);
        upd_qset s (set_qset_current (queue_next q))
      else ret tt);;
     K (qset_current s1)) m
    = K (hd NULL (rewind qs cur)) m1 ∧
    qsets m !! s = Some sr ∧
    m1 = set_qsets (insert s (set_qset_current (hd NULL (advance qs cur)) sr)) m ∧
    set_ok m1 s qs (advance qs cur).
Proof.
  intros (sr & Hs & Hch & Hnd & Hnum & Hsuf & Hcur).
  assert (Hok1 : ∀ m1, m1 = set_qsets (insert s (set_qset_current
                                          (hd NULL (advance qs cur)) sr)) m →
                       set_ok m1 s qs (advance qs cur)).
  { intros m1 ->. exists (set_qset_current (hd NULL (advance qs cur)) sr).
    heap_simpl. split_and!; try done.
    - apply lookup_insert_eq.
    - by apply advance_suffix. }
  assert (Hadv : ∀ a rest, rewind qs cur = a :: rest →
            a ≠ NULL ∧ ∃ q, queues m !! a = Some q ∧ queue_next q = hd NULL (advance qs cur)).
  { intros a rest Hr. unfold advance. rewrite Hr. simpl.
    eapply qchain_suffix_next; [exact Hch|]. rewrite <- Hr. by apply rewind_suffix. }
  exists (set_qsets (insert s (set_qset_current (hd NULL (advance qs cur)) sr)) m), sr.
  split; [|split_and!; try done; by apply Hok1].
  mstep. rewrite Hcur. destruct cur as [|c cur].
  - (* the cursor is NULL and is rewound to the head *)
    change (is_null (hd NULL [])) with true. cbn [when].
    mstep. mstep. rewrite (qchain_hd _ _ _ Hch).
    change (rewind qs []) with qs in *. destruct qs as [|a rest].
    + change (is_null (hd NULL [])) with true. cbn [negb]. rewrite bind_ret.
      reflexivity.
    + destruct (Hadv a rest eq_refl) as (Hnn & q & Hq & Hnx).
      simpl hd in *. apply is_null_false in Hnn. rewrite Hnn. cbn [negb].
      mstep. mstep. rewrite Hnx. f_equal. unfold set_qsets. f_equal. heap_simpl.
      by rewrite !insert_insert_eq.
  - destruct (Hadv c cur eq_refl) as (Hnn & q & Hq & Hnx).
    simpl hd in *. apply is_null_false in Hnn. rewrite Hnn. cbn [negb when].
    rewrite bind_ret. mstep. rewrite Hcur. simpl hd. rewrite Hnn. cbn [negb].
    mstep. mstep. rewrite Hnx. f_equal.
Qed.

(** ** Polling a set *)

(** Dropping the record of visits from [taosReadQitemFromQset_visits]
    gives [taosReadQitemFromQset]: same result, same heap, same faults. *)
Lemma taosReadQitemFromQset_visits_loop_erase (n : nat) (qset : ptr) (item : list byte)
      (m : mem) :
  taosReadQitemFromQset_loop n qset item m
  = bind (taosReadQitemFromQset_visits_loop n qset item) (fun r => ret r.1) m.
Proof.
  revert m. induction n as [|n IH]; intros m; [reflexivity|].
  cbn [taosReadQitemFromQset_loop taosReadQitemFromQset_visits_loop].
  unfold bind, when, ret, fault in *.
  repeat (case_match; simplify_eq; try done).
  all: rewrite IH; by match goal with H : _ = _ |- _ => rewrite H end.
Qed.

Lemma taosReadQitemFromQset_visits_erase (qset : ptr) (item : list byte) (m : mem) :
  taosReadQitemFromQset qset item m
  = bind (taosReadQitemFromQset_visits qset item) (fun r => ret r.1) m.
Proof.
  unfold taosReadQitemFromQset, taosReadQitemFromQset_visits.
  rewrite bind_assoc. unfold bind at 1 2. destruct (get_qset qset m); try done.
  apply taosReadQitemFromQset_visits_loop_erase.
Qed.

Lemma set_ok_frame (m m' : mem) (s : ptr) (qs cur : list ptr) :
  set_ok m s qs cur →
  (∀ sr, qsets m !! s = Some sr →
         ∃ sr', qsets m' !! s = Some sr' ∧ qset_head sr' = qset_head sr ∧
                qset_current sr' = qset_current sr ∧
                qset_numOfQueues sr' = qset_numOfQueues sr) →
  (∀ a q, a ∈ qs → queues m !! a = Some q →
          ∃ q', queues m' !! a = Some q' ∧ queue_next q' = queue_next q) →
  set_ok m' s qs cur.
Proof.
  intros (sr & Hs & Hch & Hnd & Hnum & Hsuf & Hcur) Hs' Hq'.
  destruct (Hs' sr Hs) as (sr' & Hs1 & Hh & Hc & Hn).
  exists sr'. rewrite Hh, Hc, Hn. split_and!; try done.
  by eapply qchain_next_eq.
Qed.

Lemma set_ok_rewind_member (m : mem) (s : ptr) (qs cur rest : list ptr) (a : ptr) :
  set_ok m s qs cur → rewind qs cur = a :: rest →
  a ≠ NULL ∧ a ∈ qs ∧ is_Some (queues m !! a).
Proof.
  intros (sr & Hs & Hch & Hnd & Hnum & Hsuf & Hcur) Hr.
  assert (Hsuf' : (a :: rest) `suffix_of` qs) by (rewrite <- Hr; by apply rewind_suffix).
  destruct (qchain_suffix_next _ _ _ _ _ Hch Hsuf') as (Hnn & q & Hq & _).
  split_and!; [done| |eauto].
  destruct Hsuf' as [k ->]. apply elem_of_app. right. apply list_elem_of_here.
Qed.

Lemma walk_S (n : nat) (qs cur : list ptr) :
  walk (S n) qs cur = match rewind qs cur with
                      | [] => []
                      | a :: _ => a :: walk n qs (advance qs cur)
                      end.
Proof. reflexivity. Qed.

Lemma buffer_fits_frame (m m' : mem) (item : list byte) :
  buffer_fits m item →
  (∀ p q', queues m' !! p = Some q' →
           ∃ q, queues m !! p = Some q ∧ queue_itemSize q' = queue_itemSize q) →
  buffer_fits m' item.
Proof.
  intros Hb Hf p q' Hq'. destruct (Hf p q' Hq') as (q & Hq & ->). by eapply Hb.
Qed.

Lemma taosReadQitemFromQset_visits_loop_spec (n : nat) (m : mem) C (s : ptr)
      (qs cur : list ptr) (item : list byte) :
  heap_wf m C → set_ok m s qs cur → buffer_fits m item →
  ∃ code item' visited m' C',
    taosReadQitemFromQset_visits_loop n s item m = Ok (code, item', visited) m' ∧
    heap_wf m' C' ∧
    set_ok m' s qs (Nat.iter (length visited) (advance qs) cur) ∧
    buffer_fits m' item ∧
    visited `prefix_of` walk n qs cur ∧
    ((code = 0 ∧ item' = item ∧ C' = C ∧ visited = walk n qs cur ∧
      Forall (fun a => C !! a = Some []) visited) ∨
     (code = 1 ∧ ∃ vis0 a c cs qr,
         visited = vis0 ++ [a] ∧ Forall (fun b => C !! b = Some []) vis0 ∧
         C !! a = Some (c :: cs) ∧ queues m !! a = Some qr ∧
         C' = <[a := cs]> C ∧
         item' = c.2 ++ drop (Z.to_nat (queue_itemSize qr)) item)).
Proof.
  revert m cur. induction n as [|n IH]; intros m cur Hwf Hset Hbuf.
  { exists 0, item, [], m, C. split; [reflexivity|]. split_and!; try done.
    left. by split_and!. }
  cbn [taosReadQitemFromQset_visits_loop].
  match goal with
  | |- context [bind (get_qset s) ?k m] =>
      match k with
      | (fun s0 => bind _ (fun _ => bind _ (fun s1 => bind _ (fun _ => @?K s1)))) =>
          destruct (cursor_step (fun queue => K (mkQset NULL queue 0 0)) m s qs cur Hset)
            as (m1 & sr & E & Hs & Hm1 & Hset1)
      end
  end.
  cbn [qset_current] in E. rewrite E. clear E.
  assert (Hwf1 : heap_wf m1 C).
  { eapply heap_wf_qsets; [exact Hwf|by subst m1..|].
    subst m1. heap_simpl. intros p Hp. apply lookup_insert_is_Some'. by right. }
  assert (Hbuf1 : buffer_fits m1 item).
  { eapply buffer_fits_frame; [exact Hbuf|]. subst m1. heap_simpl. eauto. }
  assert (Hq1 : queues m1 = queues m) by (by subst m1).
  assert (Hn1 : nodes m1 = nodes m) by (by subst m1).
  destruct (rewind qs cur) as [|a rest] eqn:Hr.
  { (* the set has no member *)
    assert (advance qs cur = cur) as Hadv.
    { unfold advance. rewrite Hr. destruct cur; [done|discriminate]. }
    cbn [hd]. change (is_null NULL) with true. cbv iota.
    exists 0, item, [], m1, C. split; [reflexivity|]. rewrite walk_S, Hr.
    split_and!; try done.
    - simpl. by rewrite <- Hadv.
    - left. by split_and!. }
  destruct (set_ok_rewind_member m s qs cur rest a Hset Hr) as (Hnn & Hin & [qr Hq]).
  cbn [hd]. apply is_null_false in Hnn. rewrite Hnn.
  rewrite <- Hq1 in Hq. mstep.
  pose proof Hwf1 as (Hbrk & Hdom & Hfresh & Hok & Hdisj).
  destruct (proj1 (Hdom a) (mk_is_Some _ _ Hq)) as [cs HC].
  pose proof (Hok a qr cs Hq HC) as Hqok.
  destruct Hqok as (Hch & Htl & Hnum & Hmax & Hnd & Hall & Hsz & Hqset).
  destruct cs as [|c cs].
  - (* the queue under the cursor is empty: on to the next one *)
    simpl in Hch. rewrite Hch. change (is_null NULL) with true. cbn [negb].
    destruct (IH m1 (advance qs cur) Hwf1 Hset1 Hbuf1)
      as (code & item' & vis & m' & C' & E & Hwf' & Hset' & Hbuf' & Hpre & Hres).
    rewrite (bind_ok _ _ _ _ _ E). unfold ret. cbn [fst snd].
    exists code, item', (a :: vis), m', C'. split; [reflexivity|].
    rewrite walk_S, Hr. split_and!; try done.
    + cbn [length]. by rewrite Nat.iter_succ_r.
    + by apply prefix_cons.
    + destruct Hres as [(-> & -> & -> & Hv & Hall')|(-> & vis0 & b & c & cs & qb & Hres)].
      * left. split_and!; try done; [by rewrite Hv|by apply Forall_cons].
      * right. split; [done|]. destruct Hres as (-> & Hv0 & HCb & Hqb & -> & ->).
        exists (a :: vis0), b, c, cs, qb. rewrite <- Hq1.
        split_and!; try done. by apply Forall_cons.
  - (* the queue under the cursor has an item *)
    assert (Hhn : is_null (queue_head qr) = false).
    { apply is_null_false. by destruct Hch as (-> & ? & _). }
    rewrite Hhn. cbn [negb].
    destruct (pop_steps (fun item' => upd_qset s (atomic_sub_numOfItems 1);;
                                      ret (1, item', [a]))
                        m1 C a qr c cs item Hwf1 Hq HC)
      as (m2 & E & Hwf2 & S2 & A2 & O2 & B2 & Q2); [by eapply Hbuf1|].
    rewrite E. clear E.
    assert (Hs2 : qsets m2 !! s
                  = Some (set_qset_current (hd NULL (advance qs cur)) sr)).
    { rewrite S2. subst m1. heap_simpl. apply lookup_insert_eq. }
    mstep. unfold ret.
    eexists 1, _, [a], _, (<[a := cs]> C). split; [reflexivity|].
    rewrite walk_S, Hr. split_and!.
    + eapply heap_wf_qsets; [exact Hwf2|done..|].
      heap_simpl. intros p Hp. apply lookup_insert_is_Some'. by right.
    + eapply set_ok_frame; [exact Hset1| |].
      * intros sr' Hsr'. heap_simpl. rewrite <- S2, Hs2 in Hsr'. injection Hsr' as <-.
        eexists. split; [apply lookup_insert_eq|]. done.
      * intros b qb Hb Hqb. heap_simpl. rewrite Q2.
        destruct (decide (a = b)) as [<-|Hne].
        -- rewrite lookup_insert_eq. eexists. split; [done|].
           rewrite Hq in Hqb. by injection Hqb as <-.
        -- rewrite lookup_insert_ne by done. eauto.
    + eapply buffer_fits_frame; [exact Hbuf1|]. heap_simpl. rewrite Q2.
      intros p q' Hl. apply lookup_insert_Some in Hl as [[<- <-]|[_ Hl]]; eauto.
    + apply prefix_cons. apply prefix_nil.
    + right. split; [done|]. exists [], a, c, cs, qr. rewrite <- Hq1.
      by split_and!.
Qed.

(** *** The order of the visits *)

Lemma walk_within (n : nat) (qs cur : list ptr) :
  (n ≤ length cur)%nat → walk n qs cur = take n cur.
Proof.
  revert cur. induction n as [|n IH]; intros cur Hn; [by destruct cur|].
  destruct cur as [|a cur]; [simpl in Hn; lia|].
  rewrite walk_S. cbn [rewind advance tail take]. f_equal. apply IH. simpl in Hn. lia.
Qed.

Lemma walk_from_null (n : nat) (qs : list ptr) :
  (n ≤ length qs)%nat → walk n qs [] = take n qs.
Proof.
  destruct n as [|n]; intros Hn; [by destruct qs|].
  destruct qs as [|a qs]; [simpl in Hn; lia|].
  rewrite walk_S. cbn [rewind advance tail take]. f_equal.
  apply walk_within. simpl in Hn. lia.
Qed.

Lemma walk_wrap (cur : list ptr) (j : nat) (qs : list ptr) :
  walk (length cur + j) qs cur = cur ++ walk j qs [].
Proof.
  induction cur as [|a cur IH]; [reflexivity|].
  cbn [length Nat.add]. rewrite walk_S. cbn [rewind advance tail]. by rewrite IH.
Qed.

(** A full round starting at the cursor passes the queues behind the
    cursor and then, from the head, the queues before it. *)
Lemma walk_round (pre cur : list ptr) :
  walk (length (pre ++ cur)) (pre ++ cur) cur = cur ++ pre.
Proof.
  rewrite length_app, Nat.add_comm, walk_wrap. f_equal.
  rewrite walk_from_null by (rewrite length_app; lia).
  by rewrite take_app_length.
Qed.

Lemma concat_singletons (l : list ptr) : concat (map (fun a => [a]) l) = l.
Proof. induction l as [|a l IH]; [done|]. simpl. by rewrite IH. Qed.

Lemma taosReadQitemFromQset_visits_spec (m : mem) C (s : ptr) (qs cur : list ptr)
      (item : list byte) :
  heap_wf m C → set_ok m s qs cur → buffer_fits m item →
  ∃ code item' visited m' C',
    taosReadQitemFromQset_visits s item m = Ok (code, item', visited) m' ∧
    heap_wf m' C' ∧
    set_ok m' s qs (Nat.iter (length visited) (advance qs) cur) ∧
    buffer_fits m' item ∧
    visited `prefix_of` walk (length qs) qs cur ∧
    ((code = 0 ∧ item' = item ∧ C' = C ∧ visited = walk (length qs) qs cur ∧
      Forall (fun a => C !! a = Some []) visited) ∨
     (code = 1 ∧ ∃ vis0 a c cs qr,
         visited = vis0 ++ [a] ∧ Forall (fun b => C !! b = Some []) vis0 ∧
         C !! a = Some (c :: cs) ∧ queues m !! a = Some qr ∧
         C' = <[a := cs]> C ∧
         item' = c.2 ++ drop (Z.to_nat (queue_itemSize qr)) item)).
Proof.
  intros Hwf Hset Hbuf. pose proof Hset as (sr & Hs & _ & _ & Hnum & _).
  unfold taosReadQitemFromQset_visits. mstep. rewrite Hnum, Nat2Z.id.
  by apply taosReadQitemFromQset_visits_loop_spec.
Qed.

(** With every queue of the coming [j] visits non-empty, each of the next
    [j] calls takes its item from the queue under the cursor and visits no
    other queue. *)
Lemma taosReadQitemFromQset_n_spec (j : nat) (m : mem) C (s : ptr) (qs cur : list ptr)
      (item : list byte) :
  heap_wf m C → set_ok m s qs cur → buffer_fits m item →
  (j ≤ length qs)%nat →
  NoDup (walk j qs cur) →
  (∀ a, a ∈ walk j qs cur → ∃ c cs, C !! a = Some (c :: cs)) →
  ∃ rs m',
    taosReadQitemFromQset_n j s item m = Ok rs m' ∧
    map snd rs = map (fun a => [a]) (walk j qs cur) ∧
    Forall (fun r => r.1.1 = 1) rs.
Proof.
  revert m C cur. induction j as [|j IH]; intros m C cur Hwf Hset Hbuf Hj Hnd Hne.
  { exists [], m. by split_and!. }
  destruct (taosReadQitemFromQset_visits_spec m C s qs cur item Hwf Hset Hbuf)
    as (code & item' & vis & m1 & Cn & E & Hwf1 & Hset1 & Hbuf1 & Hpre & Hres).
  destruct (length qs) as [|k] eqn:Hk; [lia|].
  rewrite walk_S in Hnd, Hne. rewrite walk_S in Hpre, Hres.
  destruct (rewind qs cur) as [|a rest] eqn:Hr.
  { exfalso. destruct qs; [done|]. by destruct cur. }
  destruct (Hne a (list_elem_of_here _ _)) as (c & cs & HCa).
  assert (Hvis : vis = [a] ∧ code = 1 ∧ Cn = <[a := cs]> C).
  { destruct Hres as [(_ & _ & _ & -> & Hall)|(-> & vis0 & b & c' & cs' & qb & Hres)].
    - apply Forall_cons in Hall as [Ha _]. congruence.
    - destruct Hres as (-> & Hv0 & HCb & _ & -> & _).
      destruct vis0 as [|x vis0].
      + simpl in Hpre. apply prefix_cons_inv_1 in Hpre. subst b.
        rewrite HCa in HCb. injection HCb as <- <-. done.
      + simpl in Hpre. apply prefix_cons_inv_1 in Hpre. subst x.
        apply Forall_cons in Hv0 as [Ha _]. congruence. }
  destruct Hvis as (-> & -> & ->). cbn [length Nat.iter] in Hset1.
  apply NoDup_cons in Hnd as [Ha Hnd].
  destruct (IH m1 (<[a := cs]> C) (advance qs cur) Hwf1 Hset1 Hbuf1)
    as (rs & m' & E' & Hmap & Hcodes); [lia|done| |].
  { intros b Hb. rewrite lookup_insert_ne by (intros ->; done).
    apply Hne. by apply list_elem_of_further. }
  exists ((1, item', [a]) :: rs), m'.
  cbn [taosReadQitemFromQset_n]. rewrite (bind_ok _ _ _ _ _ E), (bind_ok _ _ _ _ _ E').
  split; [reflexivity|]. rewrite walk_S, Hr. split.
  - cbn [map snd]. by rewrite Hmap.
  - by apply Forall_cons.
Qed.

(** ** Building a set *)

Lemma taosOpenQset_spec (m : mem) C :
  heap_wf m C → calloc_succeeds m →
  ∃ m', taosOpenQset m = Ok (brk m) m' ∧
        heap_wf m' C ∧
        set_ok m' (brk m) [] [] ∧
        nodes m' = nodes m ∧ queues m' = queues m ∧
        qsets m' = <[brk m := zero_qset]> (qsets m) ∧
        calloc_ok m' = tail (calloc_ok m).
Proof.
  intros Hwf Hal. pose proof Hwf as (Hbrk & _).
  assert (Hb : is_null (brk m) = false) by (by apply is_null_false).
  unfold taosOpenQset.
  rewrite (bind_ok _ _ _ _ _ (calloc_qset_granted m Hal Hbrk)). rewrite Hb.
  unfold ret. eexists. split; [reflexivity|]. heap_simpl. split_and!; try done.
  - eapply heap_wf_qsets; [exact Hwf|done..|simpl; lia|].
    simpl. intros p Hp. apply lookup_insert_is_Some'. by right.
  - exists zero_qset. heap_simpl. split_and!; try done.
    + apply lookup_insert_eq.
    + apply NoDup_nil_2.
Qed.

Lemma taosAddIntoQset_spec (m : mem) C (s q : ptr) (qr : STaosQueue) (qs cur : list ptr) :
  heap_wf m C → set_ok m s qs cur →
  queues m !! q = Some qr → queue_qset qr = NULL →
  q ≠ NULL → q ∉ qs →
  Z.of_nat (length qs) < INT32_MAX →
  ∃ m', taosAddIntoQset s q m = Ok 0 m' ∧
        heap_wf m' C ∧
        set_ok m' s (q :: qs) cur ∧
        nodes m' = nodes m ∧
        ∃ sr, qsets m !! s = Some sr ∧
              queues m' = <[q := mkQueue (queue_itemSize qr) (queue_numOfItems qr)
                                         (queue_head qr) (queue_tail qr)
                                         (qset_head sr) s]> (queues m) ∧
              qsets m' = <[s := mkQset q (qset_current sr) (qset_numOfQueues sr + 1)
                                       (wrap32 (qset_numOfItems sr + queue_numOfItems qr))]>
                           (qsets m).
Proof.
  intros Hwf (sr & Hs & Hch & Hnd & Hnum & Hsuf & Hcur) Hq Hun Hnn Hnin Hlen.
  assert (Hw : wrap32 (qset_numOfQueues sr + 1) = qset_numOfQueues sr + 1).
  { apply wrap32_id. unfold INT32_MAX in *. lia. }
  unfold taosAddIntoQset. mstep. rewrite Hun. change (is_null NULL) with true.
  cbn [negb]. mstep. mstep. mstep. mstep. mstep. mstep. mstep. rewrite Hw.
  unfold ret. eexists. split; [reflexivity|]. split_and!.
  - eapply heap_wf_relink; try done; heap_norm; try done.
    + intros p Hp. apply lookup_insert_is_Some'. by right.
    + right. rewrite lookup_insert_eq. eauto.
  - eexists. heap_norm. split; [apply lookup_insert_eq|]. heap_simpl.
    split_and!; try done.
    + simpl. split_and!; try done. eexists. split; [apply lookup_insert_eq|]. heap_simpl.
      eapply qchain_next_eq; [|exact Hch].
      intros a qa Ha Hqa. rewrite lookup_insert_ne by (intros ->; done). eauto.
    + by apply NoDup_cons.
    + simpl length. lia.
    + by apply suffix_cons_r.
  - done.
  - exists sr. heap_norm. by split_and!.
Qed.

Lemma setup_two_queues_result :
  setup_two_queues (mem_init (replicate 6 true)) = Ok (5%N, 1%N, 2%N) mem_two_queues.
Proof. vm_compute. reflexivity. Qed.

(** The heap built by [setup_two_queues] is well formed. *)
Lemma mem_two_queues_ok :
  heap_wf mem_two_queues {[ 1%N := [(3%N, [Byte.x01])]; 2%N := [(4%N, [Byte.x02])] ]} ∧
  set_ok mem_two_queues 5%N [2%N; 1%N] [] ∧
  buffer_fits mem_two_queues [Byte.x00].
Proof.
  pose proof (heap_wf_init (replicate 6 true)) as H0.
  destruct (taosOpenQueue_spec _ _ 1 H0) as (m1 & E1 & H1 & _);
    [reflexivity|unfold INT32_MAX; simpl; lia|].
  vm_compute in E1. injection E1 as <-.
  destruct (taosOpenQueue_spec _ _ 1 H1) as (m2 & E2 & H2 & _);
    [reflexivity|unfold INT32_MAX; simpl; lia|].
  vm_compute in E2. injection E2 as <-.
  destruct (taosWriteQitem_spec _ _ 1%N (mkQueue 1 0 NULL NULL NULL NULL) []
              [Byte.x01] H2) as (m3 & E3 & H3 & _);
    [reflexivity|reflexivity|reflexivity|unfold INT32_MAX; simpl; lia|simpl; lia|].
  vm_compute in E3. injection E3 as <-.
  destruct (taosWriteQitem_spec _ _ 2%N (mkQueue 1 0 NULL NULL NULL NULL) []
              [Byte.x02] H3) as (m4 & E4 & H4 & _);
    [reflexivity|reflexivity|reflexivity|unfold INT32_MAX; simpl; lia|simpl; lia|].
  vm_compute in E4. injection E4 as <-.
  destruct (taosOpenQset_spec _ _ H4) as (m5 & E5 & H5 & S5 & _); [reflexivity|].
  vm_compute in E5. injection E5 as <-.
  destruct (taosAddIntoQset_spec _ _ 5%N 1%N (mkQueue 1 1 3%N 3%N NULL NULL) [] []
              H5 S5) as (m6 & E6 & H6 & S6 & _);
    [reflexivity|reflexivity|done|apply not_elem_of_nil|unfold INT32_MAX; simpl; lia|].
  vm_compute in E6. injection E6 as <-.
  destruct (taosAddIntoQset_spec _ _ 5%N 2%N (mkQueue 1 1 4%N 4%N NULL NULL) [1%N] []
              H6 S6) as (m7 & E7 & H7 & S7 & _);
    [reflexivity|reflexivity|done|set_solver|unfold INT32_MAX; simpl; lia|].
  vm_compute in E7. injection E7 as <-.
  split_and!.
  - exact H7.
  - exact S7.
  - intros p qr Hl. unfold mem_two_queues in Hl. heap_simpl.
    apply lookup_insert_Some in Hl as [[<- <-]|[_ Hl]]; [simpl; lia|].
    apply lookup_singleton_Some in Hl as [<- <-]. simpl. lia.
Qed.

(** ** Round robin *)

(** C6, on a set whose first member was removed while the cursor stood on
    it: [taosRemoveFromQset] unlinks the head of the member list without
    moving [current], so the cursor is left on the removed queue [b].  The
    set has the one member [a], which holds an item; the one poll that
    should visit every member visits [b] alone, hands out the item of [b],
    and leaves the item of [a] where it is. *)
Theorem poll_visits_removed_queue (fuel : nat) :
  match setup_cursor_on_removed fuel (mem_init (replicate 7 true)) with
  | Ok (s, a, b) m =>
      a ≠ b ∧
      (∃ sr, qsets m !! s = Some sr ∧
             qset_numOfQueues sr = 1 ∧
             qchain (queues m) (qset_head sr) [a] ∧
             qset_current sr = b) ∧
      taosGetQueueItemsNumber a m = Ok 1 m ∧
      ∃ m', taosReadQitemFromQset_visits s [Byte.x00] m = Ok (1, [Byte.x0b], [b]) m' ∧
            taosReadQitemFromQset s [Byte.x00] m = Ok (1, [Byte.x0b]) m' ∧
            taosReadQitemFromQset_n 1 s [Byte.x00] m = Ok [(1, [Byte.x0b], [b])] m' ∧
            taosGetQueueItemsNumber a m' = Ok 1 m'
  | _ => False
  end.
Proof.
  vm_compute. split; [discriminate|]. split.
  { eexists. split_and!; try reflexivity.
    - intros H; discriminate H.
    - eexists. split_and!; reflexivity. }
  split; [reflexivity|].
  eexists. split_and!; reflexivity.
Qed.

(** X21: round robin on a set whose member list and cursor are intact.
    The set has the member list [pre ++ cur], and its cursor stands on the
    first queue of [cur] ([NULL] when [cur] is empty); a cursor on a queue
    that is no longer a member is outside this statement.  One call of
    [taosReadQitemFromQset] visits a prefix of [cur ++ pre], that is it
    starts at the cursor, goes on from the head when the list ends, and
    visits no more queues than the set has members; the cursor moves on by
    one queue for each queue visited; the result is [0] only after a full
    round in which every queue was empty; otherwise the item comes from the
    first non-empty queue visited, which is the last one visited.
    When all members are non-empty, as many calls as there are members
    visit one queue each, in the order [cur ++ pre], which lists every
    member once. *)
Theorem poll_round_robin (m : mem) C (s : ptr) (pre cur : list ptr) (item : list byte) :
  heap_wf m C → set_ok m s (pre ++ cur) cur → buffer_fits m item →
  (∃ code item' visited m' C',
      taosReadQitemFromQset_visits s item m = Ok (code, item', visited) m' ∧
      taosReadQitemFromQset s item m = Ok (code, item') m' ∧
      heap_wf m' C' ∧
      (length visited ≤ length (pre ++ cur))%nat ∧
      visited `prefix_of` cur ++ pre ∧
      set_ok m' s (pre ++ cur) (Nat.iter (length visited) (advance (pre ++ cur)) cur) ∧
      ((code = 0 ∧ item' = item ∧ C' = C ∧ visited = cur ++ pre ∧
        Forall (fun a => C !! a = Some []) visited) ∨
       (code = 1 ∧ ∃ vis0 a c cs qr,
           visited = vis0 ++ [a] ∧ Forall (fun b => C !! b = Some []) vis0 ∧
           C !! a = Some (c :: cs) ∧ queues m !! a = Some qr ∧
           C' = <[a := cs]> C ∧
           item' = c.2 ++ drop (Z.to_nat (queue_itemSize qr)) item))) ∧
  ((∀ a, a ∈ pre ++ cur → ∃ c cs, C !! a = Some (c :: cs)) →
   ∃ rs m',
     taosReadQitemFromQset_n (length (pre ++ cur)) s item m = Ok rs m' ∧
     map snd rs = map (fun a => [a]) (cur ++ pre) ∧
     Forall (fun r => r.1.1 = 1) rs ∧
     concat (map snd rs) ≡ₚ pre ++ cur).
Proof.
  intros Hwf Hset Hbuf. split.
  - destruct (taosReadQitemFromQset_visits_spec m C s (pre ++ cur) cur item Hwf Hset Hbuf)
      as (code & item' & vis & m' & C' & E & Hwf' & Hset' & Hbuf' & Hpre & Hres).
    rewrite walk_round in Hpre, Hres.
    exists code, item', vis, m', C'. split_and!; try done.
    + rewrite taosReadQitemFromQset_visits_erase. by rewrite (bind_ok _ _ _ _ _ E).
    + apply prefix_length in Hpre. rewrite length_app in *. lia.
  - intros Hne.
    destruct (taosReadQitemFromQset_n_spec (length (pre ++ cur)) m C s (pre ++ cur) cur
                item Hwf Hset Hbuf) as (rs & m' & E & Hmap & Hcodes).
    + done.
    + rewrite walk_round. destruct Hset as (_ & _ & _ & Hnd & _).
      by rewrite Permutation_app_comm.
    + intros a Ha. apply Hne. rewrite walk_round in Ha.
      by rewrite Permutation_app_comm.
    + rewrite walk_round in Hmap. exists rs, m'. split_and!; try done.
      rewrite Hmap, concat_singletons. apply Permutation_app_comm.
Qed.

Lemma poll_round_robin_witness :
  ∃ rs m',
    taosReadQitemFromQset_n 2 5%N [Byte.x00] mem_two_queues = Ok rs m' ∧
    map snd rs = [[2%N]; [1%N]] ∧
    Forall (fun r => r.1.1 = 1) rs ∧
    concat (map snd rs) ≡ₚ [2%N; 1%N].
Proof.
  destruct mem_two_queues_ok as (Hwf & Hset & Hbuf).
  apply (poll_round_robin mem_two_queues _ 5%N [2%N; 1%N] [] [Byte.x00] Hwf Hset Hbuf).
  intros a Ha.
  apply elem_of_cons in Ha as [->|Ha]; [by eexists _, _|].
  apply list_elem_of_singleton in Ha as ->. by eexists _, _.
Defined.

(** ** The structural invariant *)

Lemma heap_wf_same_objects (m m' : mem) C :
  heap_wf m C → same_objects m m' → brk m' = brk m → heap_wf m' C.
Proof.
  intros Hwf (Hn & Hq & Hs & Ha) Hb.
  eapply heap_wf_qsets; [exact Hwf|done|done|lia|]. by rewrite Hs.
Qed.

Lemma heap_wf_set_terrno (m : mem) C (e : errcode) :
  heap_wf m C →
  heap_wf (mkMem (nodes m) (queues m) (qsets m) (qalls m) (brk m) (calloc_ok m) (Some e)) C.
Proof. intros Hwf. eapply heap_wf_same_objects; [exact Hwf| |done]. by split_and!. Qed.

Lemma calloc_succeeds_or_fails (m : mem) : calloc_succeeds m ∨ calloc_fails m.
Proof.
  unfold calloc_succeeds, calloc_fails.
  destruct (decide (head (calloc_ok m) = Some true)); [by left|by right].
Qed.

Lemma taosOpenQueue_total (m : mem) (itemSize : Z) :
  heap_inv m → 0 ≤ itemSize ≤ INT32_MAX →
  ∃ q m', taosOpenQueue itemSize m = Ok q m' ∧ heap_inv m' ∧
          (q ≠ NULL → ∃ qr, queues m' !! q = Some qr ∧ queue_struct_inv qr).
Proof.
  intros [C Hwf] Hsz. destruct (calloc_succeeds_or_fails m) as [Hal|Hf].
  - destruct (taosOpenQueue_spec m C itemSize Hwf Hal Hsz) as (m' & E & Hwf' & Hq & _).
    exists (brk m), m'. split_and!; [done|by eexists|]. intros _.
    eexists. split; [rewrite Hq; apply lookup_insert_eq|]. by split.
  - destruct (calloc_queue_refused m Hf) as (m1 & Hc & Hs & _ & Hb).
    unfold taosOpenQueue. rewrite (bind_ok _ _ _ _ _ Hc).
    change (is_null NULL) with true. cbv iota. unfold set_terrno, bind, ret.
    eexists _, _. split_and!; [reflexivity| |done].
    exists C. apply heap_wf_set_terrno. by eapply heap_wf_same_objects.
Qed.

Lemma taosWriteQitem_total (m : mem) C (q : ptr) (cs : list (ptr * list byte))
      (item : list byte) :
  heap_wf m C → C !! q = Some cs →
  Z.of_nat (length cs) < INT32_MAX →
  (∀ qr, queues m !! q = Some qr → (Z.to_nat (queue_itemSize qr) ≤ length item)%nat) →
  ∃ code m', taosWriteQitem q item m = Ok code m' ∧ heap_inv m'.
Proof.
  intros Hwf HC Hlen Hbuf.
  destruct (heap_wf_content_ok m C q cs Hwf HC) as (qr & Hq & _).
  destruct (calloc_succeeds_or_fails m) as [Hal|Hf].
  - destruct (taosWriteQitem_spec m C q qr cs item Hwf Hq HC Hal Hlen) as (m' & E & Hwf' & _);
      [by eapply Hbuf|].
    exists 0, m'. split; [done|by eexists].
  - destruct (calloc_qnode_refused m (queue_itemSize qr) Hf) as (m1 & Hc & Hs & _ & Hb).
    unfold taosWriteQitem. mstep. rewrite (bind_ok _ _ _ _ _ Hc).
    change (is_null NULL) with true. cbv iota. unfold set_terrno, bind, ret.
    eexists _, _. split; [reflexivity|].
    exists C. apply heap_wf_set_terrno. by eapply heap_wf_same_objects.
Qed.

Lemma taosReadQitem_total (m : mem) C (q : ptr) (item : list byte) :
  heap_wf m C → is_Some (C !! q) →
  (∀ qr, queues m !! q = Some qr → (Z.to_nat (queue_itemSize qr) ≤ length item)%nat) →
  ∃ r m', taosReadQitem q item m = Ok r m' ∧ heap_inv m'.
Proof.
  intros Hwf [cs HC] Hbuf.
  destruct (heap_wf_content_ok m C q cs Hwf HC) as (qr & Hq & _).
  destruct cs as [|c cs].
  - rewrite (taosReadQitem_empty m C q item Hwf HC). eexists _, _. split; [done|by eexists].
  - destruct (taosReadQitem_spec m C q qr c cs item Hwf Hq HC) as (m' & E & Hwf' & _);
      [by eapply Hbuf|].
    eexists _, m'. split; [done|by eexists].
Qed.

Lemma taosReadAllQitems_total (m : mem) C (q : ptr) :
  heap_wf m C → is_Some (C !! q) →
  ∃ r m', taosReadAllQitems q m = Ok r m' ∧ heap_inv m'.
Proof.
  intros Hwf [cs HC].
  destruct (heap_wf_content_ok m C q cs Hwf HC) as (qr & Hq & Hok).
  destruct cs as [|c cs].
  - rewrite (taosReadAllQitems_empty m C q Hwf HC). eexists _, _. split; [done|by eexists].
  - destruct (calloc_succeeds_or_fails m) as [Hal|Hf].
    + destruct (taosReadAllQitems_spec m C q qr (c :: cs) Hwf Hq HC) as (m' & E & Hwf' & _);
        [done|done|].
      eexists _, m'. split; [done|by eexists].
    + destruct (calloc_qall_refused m Hf) as (m1 & Hc & Hs & _ & Hb).
      destruct Hok as (Hch & _). destruct Hch as (Hh & Hnn & _).
      unfold taosReadAllQitems. mstep. apply is_null_false in Hnn. rewrite Hnn. cbn [negb].
      rewrite (bind_ok _ _ _ _ _ Hc).
      change (is_null NULL) with true. cbv iota. unfold set_terrno, bind, ret.
      eexists _, _. split; [reflexivity|].
      exists C. apply heap_wf_set_terrno. by eapply heap_wf_same_objects.
Qed.

Lemma taosReadQitemFromQset_total (m : mem) C (s : ptr) (qs cur : list ptr)
      (item : list byte) :
  heap_wf m C → set_ok m s qs cur → buffer_fits m item →
  ∃ r m', taosReadQitemFromQset s item m = Ok r m' ∧ heap_inv m'.
Proof.
  intros Hwf Hset Hbuf.
  destruct (taosReadQitemFromQset_visits_spec m C s qs cur item Hwf Hset Hbuf)
    as (code & item' & vis & m' & C' & E & Hwf' & _).
  rewrite taosReadQitemFromQset_visits_erase, (bind_ok _ _ _ _ _ E).
  eexists _, m'. split; [reflexivity|by eexists].
Qed.

Lemma taosReadAllQitemsFromQset_loop_total (n : nat) (m : mem) C (s : ptr)
      (qs cur : list ptr) (qall : ptr) :
  heap_wf m C → set_ok m s qs cur →
  ∃ r m', taosReadAllQitemsFromQset_loop n s qall m = Ok r m' ∧ heap_inv m'.
Proof.
  revert m cur. induction n as [|n IH]; intros m cur Hwf Hset.
  { exists (0, qall), m. split; [reflexivity|by eexists]. }
  cbn [taosReadAllQitemsFromQset_loop].
  match goal with
  | |- context [bind (get_qset s) ?k m] =>
      match k with
      | (fun s0 => bind _ (fun _ => bind _ (fun s1 => bind _ (fun _ => @?K s1)))) =>
          destruct (cursor_step (fun queue => K (mkQset NULL queue 0 0)) m s qs cur Hset)
            as (m1 & sr & E & Hs & Hm1 & Hset1)
      end
  end.
  cbn [qset_current] in E. rewrite E. clear E.
  assert (Hwf1 : heap_wf m1 C).
  { eapply heap_wf_qsets; [exact Hwf|by subst m1..|].
    subst m1. heap_simpl. intros p Hp. apply lookup_insert_is_Some'. by right. }
  assert (Hq1 : queues m1 = queues m) by (by subst m1).
  assert (Hs1 : qsets m1 !! s = Some (set_qset_current (hd NULL (advance qs cur)) sr)).
  { subst m1. heap_simpl. apply lookup_insert_eq. }
  destruct (rewind qs cur) as [|a rest] eqn:Hr.
  { cbn [hd]. change (is_null NULL) with true. cbv iota.
    eexists _, m1. split; [reflexivity|by eexists]. }
  destruct (set_ok_rewind_member m s qs cur rest a Hset Hr) as (Hnn & Hin & [qr Hq]).
  cbn [hd]. apply is_null_false in Hnn. rewrite Hnn.
  rewrite <- Hq1 in Hq. mstep.
  pose proof Hwf1 as (Hbrk & Hdom & Hfresh & Hok & Hdisj).
  destruct (proj1 (Hdom a) (mk_is_Some _ _ Hq)) as [cs HC].
  destruct (Hok a qr cs Hq HC) as (Hch & Htl & Hnum & Hmax & Hnd & Hall & Hsz & Hqset).
  destruct cs as [|c cs].
  - simpl in Hch. rewrite Hch. change (is_null NULL) with true. cbn [negb].
    by eapply IH.
  - assert (Hhn : is_null (queue_head qr) = false).
    { apply is_null_false. by destruct Hch as (-> & ? & _). }
    rewrite Hhn. cbn [negb].
    destruct (calloc_succeeds_or_fails m1) as [Hal|Hf].
    + rewrite (bind_ok _ _ _ _ _ (calloc_qall_granted m1 Hal Hbrk)).
      assert (Hb : is_null (brk m1) = false) by (by apply is_null_false).
      rewrite Hb. mstep. mstep. mstep. mstep. mstep. mstep. mstep.
      assert (Hc0 : Z.eqb (queue_numOfItems qr) 0 = false).
      { apply Z.eqb_neq. rewrite Hnum. simpl length. lia. }
      rewrite Hc0. unfold ret. eexists _, _. split; [reflexivity|].
      exists (<[a := []]> C).
      eapply heap_wf_clear; [exact Hwf1|exact Hq|exact HC| | | |];
        heap_norm; try done; [lia|].
      intros p Hp. apply lookup_insert_is_Some'. by right.
    + destruct (calloc_qall_refused m1 Hf) as (m2 & Hc & Hso & _ & Hb).
      rewrite (bind_ok _ _ _ _ _ Hc).
      change (is_null NULL) with true. cbv iota. unfold set_terrno, bind, ret.
      eexists _, _. split; [reflexivity|].
      exists C. apply heap_wf_set_terrno. by eapply heap_wf_same_objects.
Qed.

Lemma taosReadAllQitemsFromQset_total (m : mem) C (s : ptr) (qs cur : list ptr) :
  heap_wf m C → set_ok m s qs cur →
  ∃ r m', taosReadAllQitemsFromQset s m = Ok r m' ∧ heap_inv m'.
Proof.
  intros Hwf Hset. pose proof Hset as (sr & Hs & _).
  unfold taosReadAllQitemsFromQset. mstep.
  by eapply taosReadAllQitemsFromQset_loop_total.
Qed.

Lemma heap_inv_struct_inv (m : mem) : heap_inv m → queues_struct_inv m.
Proof. intros [C Hwf] p qr Hq. by eapply heap_wf_struct_inv. Qed.

Lemma keeps_inv_intro {A} (r : result A) :
  (∃ a m', r = Ok a m' ∧ heap_inv m') → keeps_inv r.
Proof.
  intros (a & m' & E & Hinv). exists a, m'. split_and!; [done..|].
  by apply heap_inv_struct_inv.
Qed.

(** C9: in a well-formed heap every queue record satisfies "head is null
    iff tail is null iff the item count is 0"; a queue just opened
    satisfies it; and from a well-formed heap each of taosOpenQueue,
    taosWriteQitem, taosReadQitem, taosReadAllQitems,
    taosReadQitemFromQset and taosReadAllQitemsFromQset returns and leaves
    a well-formed heap, so that every queue record satisfies the
    structural invariant again, whether or not [calloc] grants memory.
    The write is taken on a queue that holds fewer than [INT32_MAX]
    items, the buffers have room for one item, and the set calls are taken
    on a set whose member list is intact. *)
Theorem queue_structure_invariant (m : mem) C (Hwf : heap_wf m C) :
  queues_struct_inv m ∧
  (∀ itemSize, 0 ≤ itemSize ≤ INT32_MAX →
     keeps_inv (taosOpenQueue itemSize m) ∧
     ∀ q m', taosOpenQueue itemSize m = Ok q m' → q ≠ NULL →
             ∃ qr, queues m' !! q = Some qr ∧ queue_struct_inv qr) ∧
  (∀ q cs item,
     C !! q = Some cs → Z.of_nat (length cs) < INT32_MAX →
     (∀ qr, queues m !! q = Some qr → (Z.to_nat (queue_itemSize qr) ≤ length item)%nat) →
     keeps_inv (taosWriteQitem q item m)) ∧
  (∀ q item,
     is_Some (C !! q) →
     (∀ qr, queues m !! q = Some qr → (Z.to_nat (queue_itemSize qr) ≤ length item)%nat) →
     keeps_inv (taosReadQitem q item m)) ∧
  (∀ q, is_Some (C !! q) → keeps_inv (taosReadAllQitems q m)) ∧
  (∀ s qs cur item,
     set_ok m s qs cur → buffer_fits m item →
     keeps_inv (taosReadQitemFromQset s item m)) ∧
  (∀ s qs cur,
     set_ok m s qs cur →
     keeps_inv (taosReadAllQitemsFromQset s m)).
Proof.
  assert (Hinv : heap_inv m) by (by exists C).
  split_and!.
  - by apply heap_inv_struct_inv.
  - intros itemSize Hsz.
    destruct (taosOpenQueue_total m itemSize Hinv Hsz) as (q & m' & E & Hinv' & Hnew).
    split.
    + apply keeps_inv_intro. eauto.
    + intros q' m'' E' Hnn. rewrite E in E'. injection E' as <- <-. by apply Hnew.
  - intros q cs item HC Hlen Hbuf. apply keeps_inv_intro.
    by eapply taosWriteQitem_total.
  - intros q item HC Hbuf. apply keeps_inv_intro. by eapply taosReadQitem_total.
  - intros q HC. apply keeps_inv_intro. by eapply taosReadAllQitems_total.
  - intros s qs cur item Hset Hbuf. apply keeps_inv_intro.
    by eapply taosReadQitemFromQset_total.
  - intros s qs cur Hset. apply keeps_inv_intro.
    by eapply taosReadAllQitemsFromQset_total.
Qed.

Lemma queue_structure_invariant_witness :
  queues_struct_inv mem_two_queues ∧
  keeps_inv (taosWriteQitem 1%N [Byte.x07] mem_two_queues) ∧
  keeps_inv (taosReadQitem 1%N [Byte.x00] mem_two_queues) ∧
  keeps_inv (taosReadAllQitems 2%N mem_two_queues) ∧
  keeps_inv (taosReadQitemFromQset 5%N [Byte.x00] mem_two_queues) ∧
  keeps_inv (taosReadAllQitemsFromQset 5%N mem_two_queues).
Proof.
  destruct mem_two_queues_ok as (Hwf & Hset & Hbuf).
  destruct (queue_structure_invariant mem_two_queues _ Hwf)
    as (H0 & _ & Hw & Hr & Hd & Hp & Hsd).
  split_and!.
  - exact H0.
  - apply (Hw 1%N [(3%N, [Byte.x01])]); [reflexivity|unfold INT32_MAX; simpl; lia|].
    intros qr Hq. by apply (Hbuf 1%N).
  - apply Hr; [by eexists|]. intros qr Hq. by apply (Hbuf 1%N).
  - apply Hd. by eexists.
  - by apply (Hp 5%N [2%N; 1%N] []).
  - by apply (Hsd 5%N [2%N; 1%N] []).
Defined.

(** ** A refused allocation during the set-side drain *)

Lemma set_qset_current_same (sr : STaosQset) : set_qset_current (qset_current sr) sr = sr.
Proof. by destruct sr. Qed.

Lemma calloc_refused_heap (m : mem) :
  calloc_fails m →
  calloc m = Ok NULL (mkMem (nodes m) (queues m) (qsets m) (qalls m)
                            (brk m) (tail (calloc_ok m)) (terrno m)).
Proof.
  unfold calloc_fails, calloc. intros Hf.
  destruct m as [nd qu qs qa b [|[] rest] t]; simpl in *; [done|congruence|done].
Qed.

(** The loop of [taosReadAllQitemsFromQset] when the visits [vis0] find
    empty queues, the next visit finds the queue [a] with the items [cs],
    and [calloc] refuses the view: the cursor has moved behind [a] by then,
    and stays there. *)
Lemma taosReadAllQitemsFromQset_loop_refused (vis0 : list ptr) (n : nat) (m : mem) C
      (s : ptr) (qs cur : list ptr) (qall a : ptr) (cs : list (ptr * list byte)) :
  heap_wf m C → set_ok m s qs cur → calloc_fails m →
  (vis0 ++ [a]) `prefix_of` walk n qs cur →
  Forall (fun b => C !! b = Some []) vis0 →
  C !! a = Some cs → cs ≠ [] →
  ∃ sr, qsets m !! s = Some sr ∧
        taosReadAllQitemsFromQset_loop n s qall m
        = Ok (-1, NULL)
             (mkMem (nodes m) (queues m)
                    (<[s := set_qset_current
                              (hd NULL (Nat.iter (S (length vis0)) (advance qs) cur)) sr]>
                       (qsets m))
                    (qalls m) (brk m) (tail (calloc_ok m))
                    (Some TSDB_CODE_NO_RESOURCE)).
Proof.
  revert vis0 m cur. induction n as [|n IH]; intros vis0 m cur Hwf Hset Hf Hpre Hemp HC Hne.
  { simpl in Hpre. apply prefix_nil_inv in Hpre. by destruct vis0. }
  rewrite walk_S in Hpre.
  cbn [taosReadAllQitemsFromQset_loop].
  match goal with
  | |- context [bind (get_qset s) ?k m] =>
      match k with
      | (fun s0 => bind _ (fun _ => bind _ (fun s1 => bind _ (fun _ => @?K s1)))) =>
          destruct (cursor_step (fun queue => K (mkQset NULL queue 0 0)) m s qs cur Hset)
            as (m1 & sr & E & Hs & Hm1 & Hset1)
      end
  end.
  cbn [qset_current] in E. rewrite E. clear E.
  assert (Hwf1 : heap_wf m1 C).
  { eapply heap_wf_qsets; [exact Hwf|by subst m1..|].
    subst m1. heap_simpl. intros p Hp. apply lookup_insert_is_Some'. by right. }
  assert (Hq1 : queues m1 = queues m) by (by subst m1).
  assert (Hf1 : calloc_fails m1) by (by subst m1).
  destruct (rewind qs cur) as [|x rest] eqn:Hr.
  { apply prefix_nil_inv in Hpre. by destruct vis0. }
  destruct (set_ok_rewind_member m s qs cur rest x Hset Hr) as (Hnn & Hin & [qr Hq]).
  cbn [hd]. apply is_null_false in Hnn. rewrite Hnn.
  rewrite <- Hq1 in Hq. mstep.
  pose proof Hwf1 as (Hbrk & Hdom & Hfresh & Hok & Hdisj).
  exists sr. split; [done|].
  destruct vis0 as [|b vis0].
  - (* the queue under the cursor is [a] *)
    simpl in Hpre. apply prefix_cons_inv_1 in Hpre as <-.
    destruct (Hok a qr cs Hq HC) as (Hch & _).
    assert (Hhn : is_null (queue_head qr) = false).
    { apply is_null_false. intros E. by apply (chain_null_iff _ _ _ Hch) in E. }
    rewrite Hhn. cbn [negb].
    unfold calloc_qall. rewrite bind_assoc.
    rewrite (bind_ok _ _ _ _ _ (calloc_refused_heap m1 Hf1)).
    change (is_null NULL) with true. cbv iota.
    unfold set_terrno, bind, ret. subst m1. reflexivity.
  - (* the queue under the cursor is empty *)
    simpl in Hpre. pose proof (prefix_cons_inv_1 _ _ _ _ Hpre) as <-.
    apply prefix_cons_inv_2 in Hpre.
    apply Forall_cons in Hemp as [Hb Hemp].
    destruct (Hok b qr [] Hq Hb) as (Hch & _). simpl in Hch.
    rewrite Hch. change (is_null NULL) with true. cbn [negb].
    destruct (IH vis0 m1 (advance qs cur) Hwf1 Hset1 Hf1 Hpre Hemp HC Hne)
      as (sr1 & Hs1 & E).
    rewrite E. subst m1. heap_simpl.
    rewrite lookup_insert_eq in Hs1. injection Hs1 as <-.
    cbn [length]. rewrite insert_insert_eq, (Nat.iter_succ_r (S (length vis0))).
    reflexivity.
Qed.

(** C8: when [calloc] refuses, each allocating call reports the failure
    in its result ([NULL] from the two constructors, [-1] from
    [taosWriteQitem], from [taosReadAllQitems] and from
    [taosReadAllQitemsFromQset], the last two with [NULL] in [*res]) and
    sets [terrno].  The two constructors, [taosWriteQitem] and
    [taosReadAllQitems] leave every node, queue, set and batch view of the
    heap as it was: no item is linked, no chain is detached, no count
    moves.  [taosReadAllQitemsFromQset] allocates when its scan from the
    cursor comes to the first queue that holds items; the scan has moved
    the cursor by then.  On a set with the member list [pre ++ cur] and
    the cursor on [cur], where the queues [vis0] that come first are empty
    and the next one, [a], holds items, the heap after the refused call is
    the heap before it with one field changed: [current] of the set stands
    behind [a], [S (length vis0)] steps on from where it stood. *)
Theorem alloc_failure_moves_only_cursor (m : mem) (Hf : calloc_fails m) :
  (∀ itemSize, ∃ m',
      taosOpenQueue itemSize m = Ok NULL m' ∧
      same_objects m m' ∧ terrno m' = Some TSDB_CODE_NO_RESOURCE) ∧
  (∃ m',
      taosOpenQset m = Ok NULL m' ∧
      same_objects m m' ∧ terrno m' = Some TSDB_CODE_NO_RESOURCE) ∧
  (∀ q qr item, queues m !! q = Some qr → ∃ m',
      taosWriteQitem q item m = Ok (-1) m' ∧
      same_objects m m' ∧ terrno m' = Some TSDB_CODE_NO_RESOURCE) ∧
  (∀ q qr, queues m !! q = Some qr → queue_head qr ≠ NULL → ∃ m',
      taosReadAllQitems q m = Ok (-1, NULL) m' ∧
      same_objects m m' ∧ terrno m' = Some TSDB_CODE_NO_RESOURCE) ∧
  (∀ C s pre cur vis0 rest a cs,
      heap_wf m C → set_ok m s (pre ++ cur) cur →
      cur ++ pre = vis0 ++ a :: rest →
      Forall (fun b => C !! b = Some []) vis0 →
      C !! a = Some cs → cs ≠ [] →
      ∃ sr, qsets m !! s = Some sr ∧
            taosReadAllQitemsFromQset s m
            = Ok (-1, NULL)
                 (mkMem (nodes m) (queues m)
                        (<[s := set_qset_current
                                  (hd NULL (Nat.iter (S (length vis0))
                                                     (advance (pre ++ cur)) cur)) sr]>
                           (qsets m))
                        (qalls m) (brk m) (tail (calloc_ok m))
                        (Some TSDB_CODE_NO_RESOURCE))).
Proof.
  split_and!.
  - intros itemSize.
    destruct (calloc_queue_refused m Hf) as (m1 & Hc & Hs & _).
    unfold taosOpenQueue, bind. rewrite Hc. simpl.
    eexists. split; [reflexivity|]. split; [exact Hs | reflexivity].
  - destruct (calloc_qset_refused m Hf) as (m1 & Hc & Hs & _).
    unfold taosOpenQset, bind. rewrite Hc. simpl.
    eexists. split; [reflexivity|]. split; [exact Hs | reflexivity].
  - intros q qr item Hq.
    destruct (calloc_qnode_refused m (queue_itemSize qr) Hf) as (m1 & Hc & Hs & _).
    unfold taosWriteQitem, bind, get_queue. rewrite Hq, Hc. simpl.
    eexists. split; [reflexivity|]. split; [exact Hs | reflexivity].
  - intros q qr Hq Hh.
    destruct (calloc_qall_refused m Hf) as (m1 & Hc & Hs & _).
    unfold taosReadAllQitems, bind, get_queue. rewrite Hq.
    apply is_null_false in Hh. rewrite Hh. simpl. rewrite Hc. simpl.
    eexists. split; [reflexivity|]. split; [exact Hs | reflexivity].
  - intros C s pre cur vis0 rest a cs Hwf Hset Hrot Hemp HC Hne.
    pose proof Hset as (sr0 & Hs0 & _ & _ & Hnum & _).
    destruct (taosReadAllQitemsFromQset_loop_refused vis0 (length (pre ++ cur)) m C s
                (pre ++ cur) cur NULL a cs Hwf Hset Hf) as (sr & Hs & E); try done.
    { rewrite walk_round, Hrot. exists rest. by rewrite <- app_assoc. }
    exists sr. split; [done|].
    unfold taosReadAllQitemsFromQset. mstep.
    rewrite Hs in Hs0. injection Hs0 as <-. by rewrite Hnum, Nat2Z.id.
Qed.

(** [mem_two_queues] is still well formed when the allocator has nothing
    left to give. *)
Lemma mem_two_queues_exhausted_ok :
  heap_wf mem_two_queues_exhausted
          {[ 1%N := [(3%N, [Byte.x01])]; 2%N := [(4%N, [Byte.x02])] ]} ∧
  set_ok mem_two_queues_exhausted 5%N [2%N; 1%N] [].
Proof.
  destruct mem_two_queues_ok as (Hwf & Hset & _). split.
  - eapply heap_wf_same_objects; [exact Hwf| |done]. by split_and!.
  - eapply set_ok_frame; [exact Hset| |]; eauto.
Qed.

Lemma alloc_failure_moves_only_cursor_witness :
  (∃ m', taosWriteQitem 1%N [Byte.x07] mem_two_queues_exhausted = Ok (-1) m' ∧
         same_objects mem_two_queues_exhausted m' ∧
         terrno m' = Some TSDB_CODE_NO_RESOURCE) ∧
  (∃ m', taosReadAllQitems 1%N mem_two_queues_exhausted = Ok (-1, NULL) m' ∧
         same_objects mem_two_queues_exhausted m' ∧
         terrno m' = Some TSDB_CODE_NO_RESOURCE) ∧
  taosReadAllQitemsFromQset 5%N mem_two_queues_exhausted
  = Ok (-1, NULL)
       (mkMem (nodes mem_two_queues_exhausted) (queues mem_two_queues_exhausted)
              {[ 5%N := mkQset 2%N 1%N 2 2 ]}
              (qalls mem_two_queues_exhausted) (brk mem_two_queues_exhausted) []
              (Some TSDB_CODE_NO_RESOURCE)).
Proof.
  assert (Hf : calloc_fails mem_two_queues_exhausted)
    by (unfold calloc_fails; simpl; discriminate).
  destruct (alloc_failure_moves_only_cursor mem_two_queues_exhausted Hf)
    as (_ & _ & Hw & Hd & Hsd).
  destruct mem_two_queues_exhausted_ok as (Hwf & Hset).
  split_and!.
  - apply (Hw 1%N (mkQueue 1 1 3%N 3%N NULL 5%N)). reflexivity.
  - apply (Hd 1%N (mkQueue 1 1 3%N 3%N NULL 5%N)); [reflexivity | discriminate].
  - destruct (Hsd _ 5%N [2%N; 1%N] [] [] [1%N] 2%N [(4%N, [Byte.x02])] Hwf Hset)
      as (sr & Hs & E); [reflexivity|constructor|reflexivity|discriminate|].
    vm_compute in Hs. injection Hs as <-. rewrite E. reflexivity.
Defined.

(** C8, at the set-side drain.  The set of [mem_two_queues_exhausted] has
    the members [2] and [1], one item in each, and its cursor is [NULL];
    [calloc] refuses.  [taosReadAllQitemsFromQset] returns [-1] with a
    [NULL] view, and the cursor stands on queue [1] afterwards: the stores
    are not the ones before the call.  A caller sees it: the next poll
    takes the item of queue [1], while without the failed call it takes
    the item of queue [2]. *)
Lemma refused_set_drain_moves_cursor :
  calloc_fails mem_two_queues_exhausted ∧
  ∃ m', taosReadAllQitemsFromQset 5%N mem_two_queues_exhausted = Ok (-1, NULL) m' ∧
        terrno m' = Some TSDB_CODE_NO_RESOURCE ∧
        qsets mem_two_queues_exhausted !! 5%N = Some (mkQset 2%N NULL 2 2) ∧
        qsets m' !! 5%N = Some (mkQset 2%N 1%N 2 2) ∧
        ¬ same_objects mem_two_queues_exhausted m' ∧
        (∃ m1, taosReadQitemFromQset 5%N [Byte.x00] mem_two_queues_exhausted
               = Ok (1, [Byte.x02]) m1) ∧
        (∃ m2, taosReadQitemFromQset 5%N [Byte.x00] m' = Ok (1, [Byte.x01]) m2).
Proof.
  split; [unfold calloc_fails; simpl; discriminate|].
  eexists. split; [vm_compute; reflexivity|].
  split_and!; try reflexivity.
  - intros (_ & _ & H & _). apply (f_equal (fun qm => qm !! 5%N)) in H.
    vm_compute in H. discriminate H.
  - eexists. vm_compute. reflexivity.
  - eexists. vm_compute. reflexivity.
Qed.

(** ** Conservation of the aggregate by every call but the removal *)

Lemma wrap32_add_l (a b : Z) : wrap32 (wrap32 a + b) = wrap32 (a + b).
Proof.
  unfold wrap32. f_equal.
  replace ((a + 2 ^ 31) mod 2 ^ 32 - 2 ^ 31 + b + 2 ^ 31)
    with ((a + 2 ^ 31) mod 2 ^ 32 + b) by lia.
  replace (a + b + 2 ^ 31) with (a + 2 ^ 31 + b) by lia.
  by rewrite Zplus_mod_idemp_l.
Qed.

Lemma sum_numOfItems_insert_other (qm : gmap N STaosQueue) (qs : list ptr)
      (q : ptr) (qr' : STaosQueue) :
  q ∉ qs → sum_numOfItems (<[q := qr']> qm) qs = sum_numOfItems qm qs.
Proof.
  induction qs as [|a qs IH]; intros Hin; [done|].
  apply not_elem_of_cons in Hin as [Hne Hin]. simpl.
  rewrite lookup_insert_ne by done. by rewrite IH.
Qed.

Lemma sum_numOfItems_insert_member (qm : gmap N STaosQueue) (qs : list ptr)
      (q : ptr) (qr qr' : STaosQueue) :
  NoDup qs → q ∈ qs → qm !! q = Some qr →
  sum_numOfItems (<[q := qr']> qm) qs
  = sum_numOfItems qm qs + (queue_numOfItems qr' - queue_numOfItems qr).
Proof.
  induction qs as [|a qs IH]; intros Hnd Hin Hq; [by apply elem_of_nil in Hin|].
  apply NoDup_cons in Hnd as [Ha Hnd]. simpl.
  destruct (decide (q = a)) as [->|Hne].
  - rewrite lookup_insert_eq, Hq, sum_numOfItems_insert_other by done. lia.
  - apply elem_of_cons in Hin as [?|Hin]; [done|].
    rewrite lookup_insert_ne by done. rewrite IH by done.
    destruct (qm !! a); lia.
Qed.

(** The item count of one queue moves by [d], and with it the aggregate of
    the set the queue points to, if any: the set invariant of any set [s]
    is kept. *)
Lemma set_inv_count (m m' : mem) (s : ptr) (qs cur : list ptr)
      (q : ptr) (qr qr' : STaosQueue) (f : STaosQset → STaosQset) (d : Z) :
  set_inv m s qs cur →
  queues m !! q = Some qr →
  queues m' = <[q := qr']> (queues m) →
  queue_next qr' = queue_next qr → queue_qset qr' = queue_qset qr →
  queue_numOfItems qr' = queue_numOfItems qr + d →
  (∀ sr, f sr = set_qset_numOfItems (wrap32 (qset_numOfItems sr + d)) sr) →
  qsets m' = (if is_null (queue_qset qr) then qsets m
              else alter f (queue_qset qr) (qsets m)) →
  set_inv m' s qs cur.
Proof.
  intros (Hsn & Hset & Hbound & (sr & Hs & Hsum)) Hq Hq' Hnx Hqs Hn Hf Hs'.
  pose proof Hset as (sr0 & Hs0 & Hch & Hnd & _). rewrite Hs in Hs0. injection Hs0 as <-.
  assert (Hsr' : ∃ sr', qsets m' !! s = Some sr' ∧ qset_head sr' = qset_head sr ∧
                        qset_current sr' = qset_current sr ∧
                        qset_numOfQueues sr' = qset_numOfQueues sr ∧
                        qset_numOfItems sr'
                        = wrap32 (sum_numOfItems (queues m') qs)).
  { rewrite Hs', Hq'. destruct (decide (q ∈ qs)) as [Hin|Hin].
    - assert (queue_qset qr = s) as -> by (by apply (Hbound q qr Hq)).
      apply is_null_false in Hsn. rewrite Hsn, lookup_alter_eq, Hs. simpl.
      eexists. split; [reflexivity|]. rewrite Hf. heap_simpl. split_and!; try done.
      rewrite (sum_numOfItems_insert_member _ _ _ qr qr') by done.
      rewrite Hsum, wrap32_add_l. f_equal. lia.
    - assert (queue_qset qr ≠ s) by (by rewrite (Hbound q qr Hq)).
      exists sr. rewrite sum_numOfItems_insert_other by done. split_and!; try done.
      destruct (is_null (queue_qset qr)); [done|]. by rewrite lookup_alter_ne. }
  destruct Hsr' as (sr' & Hs1 & Hh & Hc & Hk & Hsum').
  split_and!.
  - done.
  - eapply set_ok_frame; [exact Hset| |].
    + intros sr1 Hsr1. rewrite Hs in Hsr1. injection Hsr1 as <-. eauto.
    + intros a qa Ha Hqa. rewrite Hq'. destruct (decide (q = a)) as [<-|Hne].
      * rewrite lookup_insert_eq. eexists. split; [done|]. congruence.
      * rewrite lookup_insert_ne by done. eauto.
  - intros p pr. rewrite Hq'. intros Hl.
    apply lookup_insert_Some in Hl as [[<- <-]|[_ Hl]]; [|by apply Hbound].
    rewrite Hqs. by apply Hbound.
  - by exists sr'.
Qed.

Lemma set_inv_same_objects (m m' : mem) (s : ptr) (qs cur : list ptr) :
  set_inv m s qs cur → same_objects m m' → set_inv m' s qs cur.
Proof.
  intros (Hsn & Hset & Hbound & (sr & Hs & Hsum)) (Hn & Hq & Hss & Ha).
  split_and!; [done| | |].
  - eapply set_ok_frame; [exact Hset| |]; rewrite ?Hss, ?Hq; eauto.
  - intros p pr. rewrite Hq. apply Hbound.
  - exists sr. by rewrite Hss, Hq.
Qed.

Lemma set_ok_member_lt (m : mem) C (s : ptr) (qs cur : list ptr) (a : ptr) :
  heap_wf m C → set_ok m s qs cur → a ∈ qs → (a < brk m)%N.
Proof.
  intros (_ & _ & Hfresh & _) (sr & _ & Hch & _) Ha.
  apply list_elem_of_split in Ha as (k & l & ->).
  apply qchain_app_inv in Hch. destruct Hch as (_ & _ & q & Hq & _).
  by eapply Hfresh.
Qed.

(** X1: with the removal left out, the aggregate of a set is conserved:
    from a well-formed heap in which the set [s] has the member list [qs],
    points back from exactly these queues and carries the 32-bit sum of
    their item counts, each of taosOpenQueue, taosWriteQitem,
    taosReadQitem, taosReadAllQitems and taosAddIntoQset returns and leaves
    such a heap, whether or not [calloc] grants memory. *)
Theorem aggregate_conserved_without_remove
        (m : mem) C (s : ptr) (qs cur : list ptr)
        (Hwf : heap_wf m C) (Hinv : set_inv m s qs cur) :
  (∀ itemSize, 0 ≤ itemSize ≤ INT32_MAX →
     ∃ q m', taosOpenQueue itemSize m = Ok q m' ∧ set_inv m' s qs cur) ∧
  (∀ q qr cs item,
     queues m !! q = Some qr → C !! q = Some cs →
     Z.of_nat (length cs) < INT32_MAX →
     (Z.to_nat (queue_itemSize qr) ≤ length item)%nat →
     ∃ code m', taosWriteQitem q item m = Ok code m' ∧ set_inv m' s qs cur) ∧
  (∀ q qr item,
     queues m !! q = Some qr →
     (Z.to_nat (queue_itemSize qr) ≤ length item)%nat →
     ∃ r m', taosReadQitem q item m = Ok r m' ∧ set_inv m' s qs cur) ∧
  (∀ q qr,
     queues m !! q = Some qr →
     ∃ r m', taosReadAllQitems q m = Ok r m' ∧ set_inv m' s qs cur) ∧
  (∀ q qr,
     queues m !! q = Some qr → queue_qset qr = NULL → q ≠ NULL →
     Z.of_nat (length qs) < INT32_MAX →
     ∃ m', taosAddIntoQset s q m = Ok 0 m' ∧ set_inv m' s (q :: qs) cur).
Proof.
  pose proof Hwf as (Hbrk & Hdom & Hfresh & Hok & Hdisj).
  pose proof Hinv as (Hsn & Hset & Hbound & (sr & Hs & Hsum)).
  split_and!.
  - (* taosOpenQueue *)
    intros itemSize Hsz. destruct (calloc_succeeds_or_fails m) as [Hal|Hf].
    + destruct (taosOpenQueue_spec m C itemSize Hwf Hal Hsz)
        as (m' & E & _ & Hq' & _ & Hs' & _).
      exists (brk m), m'. split; [done|].
      assert (Hnin : brk m ∉ qs).
      { intros Hin. pose proof (set_ok_member_lt m C s qs cur _ Hwf Hset Hin). lia. }
      assert (HqN : queues m !! brk m = None).
      { destruct (queues m !! brk m) eqn:E'; [|done]. pose proof (Hfresh _ _ E'). lia. }
      split_and!; [done| | |].
      * eapply set_ok_frame; [exact Hset| |]; rewrite ?Hs', ?Hq'; [eauto|].
        intros a qa Ha Hqa. rewrite lookup_insert_ne by (intros <-; done). eauto.
      * intros p pr. rewrite Hq'. intros Hl.
        apply lookup_insert_Some in Hl as [[<- <-]|[_ Hl]]; [|by apply Hbound].
        simpl. split; [intros <-; done|done].
      * exists sr. rewrite Hs', Hq', sum_numOfItems_insert_other by done. done.
    + destruct (calloc_queue_refused m Hf) as (m1 & Hc & Hso & _ & _).
      unfold taosOpenQueue. rewrite (bind_ok _ _ _ _ _ Hc).
      change (is_null NULL) with true. cbv iota. unfold set_terrno, bind, ret.
      eexists _, _. split; [reflexivity|].
      eapply set_inv_same_objects; [exact Hinv|]. exact Hso.
  - (* taosWriteQitem *)
    intros q qr cs item Hq HC Hlen Hit. destruct (calloc_succeeds_or_fails m) as [Hal|Hf].
    + destruct (taosWriteQitem_spec m C q qr cs item Hwf Hq HC Hal Hlen Hit)
        as (m' & E & _ & _ & _ & Hq' & Hs').
      exists 0, m'. split; [done|].
      eapply (set_inv_count m m' s qs cur q qr _ (atomic_add_numOfItems 1) 1);
        try done.
    + destruct (calloc_qnode_refused m (queue_itemSize qr) Hf) as (m1 & Hc & Hso & _ & _).
      unfold taosWriteQitem. mstep. rewrite (bind_ok _ _ _ _ _ Hc).
      change (is_null NULL) with true. cbv iota. unfold set_terrno, bind, ret.
      eexists _, _. split; [reflexivity|].
      eapply set_inv_same_objects; [exact Hinv|]. exact Hso.
  - (* taosReadQitem *)
    intros q qr item Hq Hit.
    destruct (proj1 (Hdom q) (mk_is_Some _ _ Hq)) as [cs HC].
    destruct cs as [|c cs].
    + rewrite (taosReadQitem_empty m C q item Hwf HC). by eexists _, _.
    + destruct (taosReadQitem_spec m C q qr c cs item Hwf Hq HC Hit)
        as (m' & E & _ & _ & _ & Hq' & Hs').
      eexists _, m'. split; [done|].
      eapply (set_inv_count m m' s qs cur q qr _ (atomic_sub_numOfItems 1) (-1));
        try done.
  - (* taosReadAllQitems *)
    intros q qr Hq.
    destruct (proj1 (Hdom q) (mk_is_Some _ _ Hq)) as [cs HC].
    destruct cs as [|c cs].
    + rewrite (taosReadAllQitems_empty m C q Hwf HC). by eexists _, _.
    + destruct (calloc_succeeds_or_fails m) as [Hal|Hf].
      * destruct (taosReadAllQitems_spec m C q qr (c :: cs) Hwf Hq HC)
          as (m' & E & _ & _ & _ & _ & Hq' & Hs'); [done|done|].
        eexists _, m'. split; [done|].
        eapply (set_inv_count m m' s qs cur q qr _
                  (atomic_sub_numOfItems (queue_numOfItems qr))
                  (- queue_numOfItems qr)); try done.
        simpl. lia.
      * destruct (calloc_qall_refused m Hf) as (m1 & Hc & Hso & _ & _).
        destruct (Hok q qr _ Hq HC) as ((Hh & Hnn & _) & _).
        unfold taosReadAllQitems. mstep. apply is_null_false in Hnn. rewrite Hnn.
        cbn [negb]. rewrite (bind_ok _ _ _ _ _ Hc).
        change (is_null NULL) with true. cbv iota. unfold set_terrno, bind, ret.
        eexists _, _. split; [reflexivity|].
        eapply set_inv_same_objects; [exact Hinv|]. exact Hso.
  - (* taosAddIntoQset *)
    intros q qr Hq Hun Hnn Hlen.
    assert (Hnin : q ∉ qs).
    { intros Hin. apply (Hbound q qr Hq) in Hin. congruence. }
    destruct (taosAddIntoQset_spec m C s q qr qs cur Hwf Hset Hq Hun Hnn Hnin Hlen)
      as (m' & E & _ & Hset' & _ & sr0 & Hs0 & Hq' & Hs').
    rewrite Hs in Hs0. injection Hs0 as <-.
    pose proof Hset as (_ & _ & _ & Hnd & _).
    exists m'. split; [done|]. split_and!; [done|done| |].
    + intros p pr. rewrite Hq'. intros Hl.
      apply lookup_insert_Some in Hl as [[<- <-]|[Hne Hl]].
      * simpl. split; [intros _; apply list_elem_of_here|done].
      * rewrite (Hbound p pr Hl). split; [by apply list_elem_of_further|].
        intros Hin. apply elem_of_cons in Hin as [?|?]; [congruence|done].
    + eexists. rewrite Hs', Hq'. split; [apply lookup_insert_eq|]. simpl.
      rewrite lookup_insert_eq, sum_numOfItems_insert_other by done. simpl.
      rewrite Hsum, wrap32_add_l. f_equal. lia.
Qed.

(** The heap built by [setup_two_queues] has the set invariant. *)
Lemma mem_two_queues_inv : set_inv mem_two_queues 5%N [2%N; 1%N] [].
Proof.
  destruct mem_two_queues_ok as (Hwf & Hset & Hbuf).
  split_and!; [done|done| |].
  - intros q qr Hl. unfold mem_two_queues in Hl. heap_simpl.
    apply lookup_insert_Some in Hl as [[<- <-]|[_ Hl]]; [simpl; set_solver|].
    apply lookup_singleton_Some in Hl as [<- <-]. simpl. set_solver.
  - eexists. split; reflexivity.
Qed.

Lemma aggregate_conserved_without_remove_witness :
  (∃ code m', taosWriteQitem 2%N [Byte.x05] mem_two_queues = Ok code m' ∧
              set_inv m' 5%N [2%N; 1%N] []) ∧
  (∃ r m', taosReadQitem 1%N [Byte.x00] mem_two_queues = Ok r m' ∧
           set_inv m' 5%N [2%N; 1%N] []) ∧
  (∃ r m', taosReadAllQitems 2%N mem_two_queues = Ok r m' ∧
           set_inv m' 5%N [2%N; 1%N] []).
Proof.
  destruct mem_two_queues_ok as (Hwf & Hset & Hbuf).
  destruct (aggregate_conserved_without_remove mem_two_queues _ 5%N [2%N; 1%N] []
              Hwf mem_two_queues_inv) as (_ & Hw & Hr & Hd & _).
  split_and!.
  - apply (Hw 2%N (mkQueue 1 1 4%N 4%N 1%N 5%N) [(4%N, [Byte.x02])]);
      [reflexivity|reflexivity|unfold INT32_MAX; simpl; lia|simpl; lia].
  - apply (Hr 1%N (mkQueue 1 1 3%N 3%N NULL 5%N)); [reflexivity|simpl; lia].
  - apply (Hd 2%N (mkQueue 1 1 4%N 4%N 1%N 5%N)). reflexivity.
Defined.

(** ** Removal from a set, for whatever set and queue *)

Lemma qchain_member (qm : gmap N STaosQueue) (qs : list ptr) (p a : ptr) :
  qchain qm p qs → a ∈ qs → a ≠ NULL ∧ is_Some (qm !! a).
Proof.
  intros Hch Ha. apply list_elem_of_split in Ha as (k & l & ->).
  apply qchain_app_inv in Hch. destruct Hch as (_ & Hnn & q & Hq & _).
  simpl in *. eauto.
Qed.

(** X2: [taosRemoveFromQset] of a queue that is not in the member list of
    the set returns, and the heap is as it was before the call; this holds
    whether the queue is unbound or bound to another set. *)
Theorem remove_non_member_is_noop
        (m : mem) (s queue : ptr) (qs cur : list ptr) (fuel : nat) :
  set_ok m s qs cur → queue ∉ qs → (length qs ≤ fuel)%nat →
  taosRemoveFromQset fuel s queue m = Ok tt m.
Proof.
  intros (sr & Hs & Hch & _) Hin Hf.
  by apply (taosRemoveFromQset_non_member m s queue sr qs fuel).
Qed.

Lemma remove_non_member_is_noop_witness :
  taosRemoveFromQset 0 2%N 3%N mem_bound = Ok tt mem_bound ∧
  taosRemoveFromQset 2 5%N 7%N mem_two_queues = Ok tt mem_two_queues.
Proof.
  split.
  - apply (remove_non_member_is_noop mem_bound 2%N 3%N [] [] 0);
      [|apply not_elem_of_nil|done].
    exists zero_qset. split_and!; try done. constructor.
  - apply (remove_non_member_is_noop mem_two_queues 5%N 7%N [2%N; 1%N] [] 2);
      [apply mem_two_queues_ok| |done].
    intros Hin. apply elem_of_cons in Hin as [?|Hin]; [done|].
    by apply list_elem_of_singleton in Hin.
Defined.

(** X3: [taosRemoveFromQset] of a member that is not the first element of
    the member list does not return: whatever step budget [fuel] the loop
    is given, the call is still running when the budget is used up.  The
    branch that unlinks the queue neither advances [tqueue] nor leaves the
    loop. *)
Theorem remove_later_member_never_returns
        (m : mem) (s queue a : ptr) (qs cur : list ptr) (fuel : nat) :
  set_ok m s (a :: qs) cur → queue ∈ qs →
  taosRemoveFromQset fuel s queue m = Timeout.
Proof.
  intros (sr & Hs & Hch & Hnd & _) Hin.
  apply NoDup_cons in Hnd as [Ha _].
  apply (taosRemoveFromQset_later_member_diverges m s queue sr a qs fuel); try done.
  by intros ->.
Qed.

Lemma remove_later_member_never_returns_witness :
  taosRemoveFromQset 1000 5%N 1%N mem_two_queues = Timeout.
Proof.
  apply (remove_later_member_never_returns mem_two_queues 5%N 1%N 2%N [1%N] [] 1000);
    [apply mem_two_queues_ok|apply list_elem_of_here].
Defined.

(** X4: [taosRemoveFromQset] of the first element of the member list
    returns at once.  The member list and [numOfQueues] lose the queue,
    but nothing else is written: no queue record changes, so the removed
    queue still points to the set; the aggregate still counts its items;
    and [taosAddIntoQset] refuses the removed queue, for whatever set. *)
Theorem remove_first_member_effect
        (m : mem) (s q : ptr) (qs cur : list ptr) (fuel : nat) :
  set_inv m s (q :: qs) cur →
  Z.of_nat (length qs) < INT32_MAX →
  ∃ m' sr',
    taosRemoveFromQset fuel s q m = Ok tt m' ∧
    qsets m' !! s = Some sr' ∧
    qchain (queues m') (qset_head sr') qs ∧
    taosGetQueueNumber s m' = Ok (Z.of_nat (length qs)) m' ∧
    taosGetQsetItemsNumber s m'
    = Ok (wrap32 (sum_numOfItems (queues m) (q :: qs))) m' ∧
    queues m' = queues m ∧ nodes m' = nodes m ∧ qalls m' = qalls m ∧
    (∃ qr, queues m' !! q = Some qr ∧ queue_qset qr = s) ∧
    (∀ s2, taosAddIntoQset s2 q m' = Ok (-1) m').
Proof.
  intros (Hsn & (sr & Hs & Hch & Hnd & Hnum & Hsuf & Hcur) & Hbound & (sr0 & Hs0 & Hsum)) Hlen.
  rewrite Hs in Hs0. injection Hs0 as <-.
  destruct Hch as (Hh & Hnn & qr & Hq & Hch). rewrite Hh in Hq, Hnn.
  rewrite (taosRemoveFromQset_first_member m s q sr qr fuel Hs Hh Hnn Hq).
  assert (Hqs : queue_qset qr = s).
  { apply (Hbound q qr Hq). apply list_elem_of_here. }
  assert (Hw : wrap32 (qset_numOfQueues sr - 1) = Z.of_nat (length qs)).
  { rewrite Hnum. cbn [length]. rewrite wrap32_id; unfold INT32_MAX in *; lia. }
  eexists _, _. split; [reflexivity|]. heap_simpl.
  split; [apply lookup_insert_eq|]. heap_simpl.
  split; [exact Hch|].
  split; [unfold taosGetQueueNumber; mstep; by rewrite Hw|].
  split; [unfold taosGetQsetItemsNumber; mstep; by rewrite Hsum|].
  split_and!; try done.
  - by exists qr.
  - intros s2. unfold taosAddIntoQset. mstep. rewrite Hqs.
    apply is_null_false in Hsn. by rewrite Hsn.
Qed.

Lemma remove_first_member_effect_witness :
  ∃ m', taosRemoveFromQset 0 5%N 2%N mem_two_queues = Ok tt m' ∧
        taosGetQueueNumber 5%N m' = Ok 1 m' ∧
        taosGetQsetItemsNumber 5%N m' = Ok 2 m' ∧
        taosAddIntoQset 5%N 2%N m' = Ok (-1) m'.
Proof.
  destruct (remove_first_member_effect mem_two_queues 5%N 2%N [1%N] [] 0 mem_two_queues_inv)
    as (m' & sr' & E & _ & _ & Hk & Hn & _ & _ & _ & _ & Hadd);
    [unfold INT32_MAX; simpl; lia|].
  exists m'. split_and!; [exact E|exact Hk|exact Hn|apply Hadd].
Defined.

(** ** Closing a queue *)

(** X5: [taosCloseQueue] of a queue that is a member of a set, but not the
    first element of the member list, does not return: it hands the queue
    to [taosRemoveFromQset], whose loop is still running when its step
    budget, however large, is used up. *)
Theorem close_later_member_never_returns
        (m : mem) (s q a : ptr) (qs cur : list ptr) (fuel : nat) :
  set_inv m s (a :: qs) cur → q ∈ qs →
  taosCloseQueue fuel q m = Timeout.
Proof.
  intros (Hsn & (sr & Hs & Hch & Hnd & _) & Hbound & _) Hin.
  apply NoDup_cons in Hnd as [Ha _].
  destruct (qchain_member _ _ _ q Hch) as [Hqn [qr Hq]]; [by apply list_elem_of_further|].
  assert (Hqs : queue_qset qr = s).
  { apply (Hbound q qr Hq). by apply list_elem_of_further. }
  apply (taosCloseQueue_later_member_diverges m q qr sr a qs fuel); try done.
  - by rewrite Hqs.
  - by rewrite Hqs.
  - by intros ->.
Qed.

Lemma close_later_member_never_returns_witness :
  taosCloseQueue 1000 1%N mem_two_queues = Timeout.
Proof.
  apply (close_later_member_never_returns mem_two_queues 5%N 1%N 2%N [1%N] [] 1000);
    [apply mem_two_queues_inv|apply list_elem_of_here].
Defined.

(** The loop of [taosCloseQueue] over a chain: every node of the chain is
    freed, and nothing else is touched. *)
Lemma taosCloseQueue_loop_spec (cs : list (ptr * list byte)) (fuel : nat) (p : ptr) (m : mem) :
  chain (nodes m) p cs → NoDup cs.*1 → (length cs < fuel)%nat →
  ∃ m', taosCloseQueue_loop fuel p m = Ok tt m' ∧
        (∀ a, nodes m' !! a = if decide (a ∈ cs.*1) then None else nodes m !! a) ∧
        queues m' = queues m ∧ qsets m' = qsets m ∧ qalls m' = qalls m ∧
        brk m' = brk m ∧ calloc_ok m' = calloc_ok m.
Proof.
  revert fuel p m. induction cs as [|c cs IH]; intros fuel p m Hch Hnd Hf.
  - simpl in Hch. subst p. destruct fuel as [|fuel]; [simpl in Hf; lia|].
    exists m. split; [reflexivity|]. split_and!; try done.
  - destruct Hch as (Hp & Hnn & nx & Hn & Hch). subst p.
    rewrite fmap_cons in Hnd. apply NoDup_cons in Hnd as [Hc Hnd].
    destruct fuel as [|fuel]; [simpl in Hf; lia|].
    cbn [taosCloseQueue_loop]. apply is_null_false in Hnn. rewrite Hnn. cbn [negb].
    mstep. mstep.
    destruct (IH fuel nx (set_nodes (delete c.1) m)) as (m' & E & Hn' & Hrest).
    + eapply chain_frame; [|exact Hch]. intros a Ha. heap_simpl.
      apply lookup_delete_ne. by intros <-.
    + done.
    + simpl in Hf. lia.
    + exists m'. split; [exact E|]. split; [|exact Hrest].
      intros a. rewrite Hn'. heap_simpl. rewrite fmap_cons.
      destruct (decide (a ∈ cs.*1)) as [Ha|Ha].
      * rewrite decide_True; [done|]. by apply list_elem_of_further.
      * destruct (decide (a = c.1)) as [->|Hne].
        -- rewrite decide_True by apply list_elem_of_here. apply lookup_delete_eq.
        -- rewrite decide_False; [by apply lookup_delete_ne|].
           intros Hin. apply elem_of_cons in Hin as [?|?]; done.
Qed.

(** A queue and the chain it owns leave the heap. *)
Lemma heap_wf_close (m m' : mem) C (q : ptr) (cs : list (ptr * list byte)) :
  heap_wf m C → C !! q = Some cs →
  queues m' = delete q (queues m) →
  (∀ a, a ∉ cs.*1 → nodes m' !! a = nodes m !! a) →
  (brk m ≤ brk m')%N →
  (∀ p, is_Some (qsets m !! p) → is_Some (qsets m' !! p)) →
  heap_wf m' (delete q C).
Proof.
  intros (Hbrk & Hdom & Hfresh & Hok & Hdisj) HC Hq' Hn' Hb' Hs'.
  split_and!.
  - lia.
  - intros p. rewrite Hq'. destruct (decide (p = q)) as [->|Hne].
    + rewrite !lookup_delete_eq. split; intros [? ?]; done.
    + rewrite !lookup_delete_ne by done. apply Hdom.
  - intros p qr. rewrite Hq'. intros Hl. apply lookup_delete_Some in Hl as [_ Hl].
    pose proof (Hfresh p qr Hl). lia.
  - intros p qr cp. rewrite Hq'. intros Hl HCp.
    apply lookup_delete_Some in Hl as [Hne Hl].
    apply lookup_delete_Some in HCp as [_ HCp].
    eapply queue_ok_frame; [by eapply Hok| |done|done].
    intros a Ha. apply Hn'. intros Hin. by eapply (Hdisj p q cp cs a).
  - intros p1 p2 c1 c2 a Hne H1 H2.
    apply lookup_delete_Some in H1 as [_ H1]. apply lookup_delete_Some in H2 as [_ H2].
    by eapply Hdisj.
Qed.

(** X6: [taosCloseQueue] of a queue that is bound to no set returns, given
    a step budget above the number of queued items.  The queue record and
    every node of its chain are freed; every other node, every other queue,
    every set and every view stay as they are, and the heap is well formed
    without the queue. *)
Theorem close_unbound_queue_frees_all
        (m : mem) C (q : ptr) (qr : STaosQueue) (cs : list (ptr * list byte)) (fuel : nat) :
  heap_wf m C → queues m !! q = Some qr → C !! q = Some cs →
  queue_qset qr = NULL → (length cs < fuel)%nat →
  ∃ m', taosCloseQueue fuel q m = Ok tt m' ∧
        queues m' = delete q (queues m) ∧
        (∀ a, nodes m' !! a = if decide (a ∈ cs.*1) then None else nodes m !! a) ∧
        qsets m' = qsets m ∧ qalls m' = qalls m ∧
        heap_wf m' (delete q C).
Proof.
  intros Hwf Hq HC Hun Hf.
  pose proof Hwf as (_ & _ & _ & Hok & _).
  destruct (Hok q qr cs Hq HC) as (Hch & _ & _ & _ & Hnd & _).
  unfold taosCloseQueue. mstep. mstep. mstep. rewrite Hun.
  change (is_null NULL) with true. cbn [negb when]. rewrite bind_ret.
  destruct (taosCloseQueue_loop_spec cs fuel (queue_head qr)
              (set_queues (insert q (set_queue_head NULL qr)) m))
    as (m1 & E & Hn1 & Hq1 & Hs1 & Ha1 & Hb1 & _); [done..|].
  rewrite (bind_ok _ _ _ _ _ E). heap_simpl.
  assert (Hl : queues m1 !! q = Some (set_queue_head NULL qr))
    by (rewrite Hq1; apply lookup_insert_eq).
  unfold free_queue. rewrite Hl.
  assert (Hq' : delete q (queues m1) = delete q (queues m))
    by (rewrite Hq1; apply delete_insert_eq).
  eexists. split; [reflexivity|]. heap_simpl.
  split_and!; try done.
  eapply heap_wf_close; try done; heap_simpl; try done.
  - intros a Ha. rewrite Hn1. by rewrite decide_False.
  - lia.
  - intros p. by rewrite Hs1.
Qed.

Lemma heap_wf_loose_items :
  heap_wf mem_loose_items {[ 1%N := [(2%N, [Byte.x07]); (3%N, [Byte.x09])] ]}.
Proof.
  unfold heap_wf, mem_loose_items. heap_simpl. split_and!.
  - done.
  - intros p. rewrite !lookup_singleton_is_Some. done.
  - intros p qr Hl. apply lookup_singleton_Some in Hl as [<- _]. done.
  - intros p qr cs Hl HC.
    apply lookup_singleton_Some in Hl as [<- <-].
    rewrite lookup_singleton_eq in HC. injection HC as <-.
    unfold queue_ok. heap_simpl. split_and!.
    + simpl. split_and!; try done. eexists. split; [reflexivity|].
      split_and!; try done. eexists. split; [reflexivity|]. done.
    + reflexivity.
    + reflexivity.
    + unfold INT32_MAX. simpl. lia.
    + simpl. apply (bool_decide_unpack _). reflexivity.
    + repeat (apply Forall_cons; split; [split; [reflexivity|reflexivity]|]).
      constructor.
    + lia.
    + by left.
  - intros p1 p2 c1 c2 a Hne H1 H2.
    apply lookup_singleton_Some in H1 as [<- _].
    apply lookup_singleton_Some in H2 as [<- _]. done.
Qed.

Lemma close_unbound_queue_frees_all_witness :
  ∃ m', taosCloseQueue 3 1%N mem_loose_items = Ok tt m' ∧
        queues m' !! 1%N = None ∧
        nodes m' !! 2%N = None ∧ nodes m' !! 3%N = None ∧
        heap_wf m' (delete 1%N {[ 1%N := [(2%N, [Byte.x07]); (3%N, [Byte.x09])] ]}).
Proof.
  destruct (close_unbound_queue_frees_all mem_loose_items _ 1%N
              (mkQueue 1 2 2%N 3%N NULL NULL) [(2%N, [Byte.x07]); (3%N, [Byte.x09])] 3
              heap_wf_loose_items)
    as (m' & E & Hq & Hn & _ & _ & Hwf); [reflexivity|reflexivity|reflexivity|simpl; lia|].
  exists m'. split_and!; [exact E| | | |exact Hwf].
  - rewrite Hq. apply lookup_delete_eq.
  - rewrite Hn. reflexivity.
  - rewrite Hn. reflexivity.
Defined.

(** ** Freeing a batch view *)

Lemma chain_hd (nd : gmap N STaosQnode) (cs : list (ptr * list byte)) (p : ptr) :
  chain nd p cs → p = hd NULL cs.*1.
Proof. destruct cs; simpl; [done|]. by intros (-> & _). Qed.

Lemma chain_app_inv (nd : gmap N STaosQnode) (k l : list (ptr * list byte)) (p : ptr) :
  chain nd p (k ++ l) → chain nd (hd NULL l.*1) l.
Proof.
  revert p. induction k as [|c k IH]; intros p Hch.
  - simpl in Hch. by rewrite <- (chain_hd _ _ _ Hch).
  - destruct Hch as (_ & _ & nx & _ & Hch). by eapply IH.
Qed.

(** A chain is determined by its first node. *)
Lemma chain_inj (nd : gmap N STaosQnode) (cs cs' : list (ptr * list byte)) (p : ptr) :
  chain nd p cs → chain nd p cs' → cs = cs'.
Proof.
  revert p cs'. induction cs as [|c cs IH]; intros p cs' H1 H2.
  - simpl in H1. subst p. destruct cs' as [|c' cs']; [done|]. by destruct H2 as (_ & ? & _).
  - destruct H1 as (Hp & Hnn & nx & Hn & H1).
    destruct cs' as [|c' cs']; [simpl in H2; done|].
    destruct H2 as (Hp' & _ & nx' & Hn' & H2).
    rewrite Hn in Hn'. injection Hn' as <- Hpay.
    f_equal; [|by eapply IH].
    destruct c, c'. simpl in *. congruence.
Qed.

(** A chain that ends in [NULL] passes no node twice. *)
Lemma chain_NoDup (nd : gmap N STaosQnode) (cs : list (ptr * list byte)) (p : ptr) :
  chain nd p cs → NoDup cs.*1.
Proof.
  revert p. induction cs as [|c cs IH]; intros p Hch; [constructor|].
  pose proof Hch as (Hp & _ & nx & _ & Hrest).
  rewrite fmap_cons. apply NoDup_cons. split; [|by eapply IH].
  intros Hin. apply list_elem_of_fmap in Hin as (c' & Hc' & Hin).
  apply list_elem_of_split in Hin as (k & l & ->).
  pose proof (chain_app_inv _ _ _ _ Hrest) as Hsuf.
  change (chain nd c'.1 (c' :: l)) in Hsuf. rewrite <- Hc', <- Hp in Hsuf.
  pose proof (chain_inj _ _ _ _ Hch Hsuf) as Heq.
  apply (f_equal length) in Heq. simpl in Heq. rewrite length_app in Heq.
  simpl in Heq. lia.
Qed.

(** The loop of [taosFreeQitems]: the nodes from the cursor of the view to
    the end of its chain are freed, and the cursor is left at [NULL]. *)
Lemma taosFreeQitems_loop_spec (cs : list (ptr * list byte)) (fuel : nat)
      (view : ptr) (ar : STaosQall) (m : mem) :
  qalls m !! view = Some ar →
  chain (nodes m) (qall_current ar) cs →
  (length cs < fuel)%nat →
  ∃ m', taosFreeQitems_loop fuel view m = Ok tt m' ∧
        (∀ a, nodes m' !! a = if decide (a ∈ cs.*1) then None else nodes m !! a) ∧
        qalls m' = <[view := set_qall_current NULL ar]> (qalls m) ∧
        queues m' = queues m ∧ qsets m' = qsets m ∧
        brk m' = brk m ∧ calloc_ok m' = calloc_ok m.
Proof.
  revert fuel ar m. induction cs as [|c cs IH]; intros fuel ar m Ha Hch Hf.
  - simpl in Hch. destruct fuel as [|fuel]; [simpl in Hf; lia|].
    cbn [taosFreeQitems_loop]. mstep. rewrite Hch.
    exists m. split; [reflexivity|]. split_and!; try done.
    rewrite <- Hch, set_qall_current_same. by rewrite insert_id.
  - pose proof (chain_NoDup _ _ _ Hch) as Hnd.
    rewrite fmap_cons in Hnd. apply NoDup_cons in Hnd as [Hc _].
    destruct Hch as (Hp & Hnn & nx & Hn & Hch).
    destruct fuel as [|fuel]; [simpl in Hf; lia|].
    cbn [taosFreeQitems_loop]. mstep. apply is_null_false in Hnn. rewrite Hnn. cbn [negb].
    rewrite Hp in *. mstep. mstep. mstep.
    destruct (IH fuel (set_qall_current nx ar)
                 (set_nodes (delete c.1) (set_qalls (insert view (set_qall_current nx ar)) m)))
      as (m' & E & Hn' & Ha' & Hrest).
    + heap_simpl. apply lookup_insert_eq.
    + heap_simpl. eapply chain_frame; [|exact Hch]. intros a Hin.
      apply lookup_delete_ne. by intros <-.
    + simpl in Hf. lia.
    + exists m'. split; [exact E|]. split; [|split; [|exact Hrest]].
      * intros a. rewrite Hn'. heap_simpl. rewrite fmap_cons.
        destruct (decide (a ∈ cs.*1)) as [Hin|Hin].
        -- rewrite decide_True; [done|]. by apply list_elem_of_further.
        -- destruct (decide (a = c.1)) as [->|Hne].
           ++ rewrite decide_True by apply list_elem_of_here. apply lookup_delete_eq.
           ++ rewrite decide_False; [by apply lookup_delete_ne|].
              intros Hx. apply elem_of_cons in Hx as [?|?]; done.
      * rewrite Ha'. heap_simpl. by rewrite insert_insert_eq.
Qed.

(** X7: [taosFreeQitems] on a view whose chain is [pre ++ rest] and whose
    cursor stands at the first node of [rest] returns, given a step budget
    above the length of [rest].  The view and the nodes of [rest] are
    freed.  The nodes of [pre], which the cursor has passed, are not: they
    stay allocated, and so does everything else. *)
Theorem free_view_releases_from_cursor
        (m : mem) (view : ptr) (ar : STaosQall) (pre rest : list (ptr * list byte))
        (fuel : nat) :
  qalls m !! view = Some ar →
  chain (nodes m) (qall_start ar) (pre ++ rest) →
  qall_current ar = hd NULL rest.*1 →
  (length rest < fuel)%nat →
  ∃ m', taosFreeQitems fuel view m = Ok tt m' ∧
        qalls m' = delete view (qalls m) ∧
        (∀ a, a ∈ rest.*1 → nodes m' !! a = None) ∧
        (∀ a, a ∉ rest.*1 → nodes m' !! a = nodes m !! a) ∧
        (∀ a, a ∈ pre.*1 → is_Some (nodes m' !! a)) ∧
        queues m' = queues m ∧ qsets m' = qsets m.
Proof.
  intros Ha Hst Hcur Hf.
  pose proof (chain_NoDup _ _ _ Hst) as Hnd.
  pose proof (chain_app_inv _ _ _ _ Hst) as Hch. rewrite <- Hcur in Hch.
  destruct (taosFreeQitems_loop_spec rest fuel view ar m Ha Hch Hf)
    as (m1 & E & Hn1 & Ha1 & Hq1 & Hs1 & _).
  unfold taosFreeQitems. rewrite (bind_ok _ _ _ _ _ E).
  unfold free_qall. rewrite Ha1, lookup_insert_eq.
  eexists. split; [reflexivity|]. heap_simpl.
  split; [rewrite Ha1; apply delete_insert_eq|].
  split; [intros a Hin; rewrite Hn1; by rewrite decide_True|].
  assert (Hout : ∀ a, a ∉ rest.*1 → nodes m1 !! a = nodes m !! a).
  { intros a Hin. rewrite Hn1. by rewrite decide_False. }
  split; [exact Hout|]. split; [|done].
  intros a Hin. rewrite Hout.
  - eapply chain_lookup; [exact Hst|]. rewrite fmap_app. apply elem_of_app. by left.
  - rewrite fmap_app in Hnd. apply NoDup_app in Hnd as (_ & Hd & _). by apply Hd.
Qed.

Lemma free_view_releases_from_cursor_witness :
  (∃ m', taosFreeQitems 1 4%N mem_view_done = Ok tt m' ∧
         qalls m' !! 4%N = None ∧
         is_Some (nodes m' !! 2%N) ∧ is_Some (nodes m' !! 3%N)) ∧
  (∃ m1 m2, taosResetQitems 4%N mem_view_done = Ok tt m1 ∧
            taosFreeQitems 3 4%N m1 = Ok tt m2 ∧
            nodes m2 !! 2%N = None ∧ nodes m2 !! 3%N = None).
Proof.
  split.
  - destruct (free_view_releases_from_cursor mem_view_done 4%N (mkQall NULL 2%N 1 2)
                [(2%N, [Byte.x01]); (3%N, [Byte.x02])] [] 1)
      as (m' & E & Ha & _ & _ & Hpre & _).
    + reflexivity.
    + simpl. split_and!; try done. eexists. split; [reflexivity|].
      split_and!; try done. eexists. split; [reflexivity|]. done.
    + reflexivity.
    + simpl. lia.
    + exists m'. split_and!; [exact E| | |].
      * rewrite Ha. apply lookup_delete_eq.
      * apply Hpre. simpl. apply list_elem_of_here.
      * apply Hpre. simpl. apply list_elem_of_further, list_elem_of_here.
  - destruct (free_view_releases_from_cursor
                (set_qalls (insert 4%N (mkQall 2%N 2%N 1 2)) mem_view_done)
                4%N (mkQall 2%N 2%N 1 2)
                [] [(2%N, [Byte.x01]); (3%N, [Byte.x02])] 3)
      as (m' & E & _ & Hfree & _).
    + reflexivity.
    + simpl. split_and!; try done. eexists. split; [reflexivity|].
      split_and!; try done. eexists. split; [reflexivity|]. done.
    + reflexivity.
    + simpl. lia.
    + eexists _, m'. split; [reflexivity|].
      split; [exact E|]. split; apply Hfree; simpl.
      * apply list_elem_of_here.
      * apply list_elem_of_further, list_elem_of_here.
Defined.

(** ** The life of a batch *)

Lemma taosGetQitem_alloc (view : ptr) (item : list byte) (m m' : mem) r :
  taosGetQitem view item m = Ok r m' → brk m' = brk m ∧ calloc_ok m' = calloc_ok m.
Proof.
  unfold taosGetQitem, bind, get_qall, get_qnode, upd_qall, do_memcpy, ret, fault.
  intros H. repeat case_match; simplify_eq; done.
Qed.

Lemma taosGetQitem_n_alloc (n : nat) (view : ptr) (item : list byte) (m m' : mem) r :
  taosGetQitem_n n view item m = Ok r m' → brk m' = brk m ∧ calloc_ok m' = calloc_ok m.
Proof.
  revert m r. induction n as [|n IH]; intros m r H.
  - cbn in H. by injection H as _ <-.
  - cbn [taosGetQitem_n] in H. unfold bind at 1 in H.
    destruct (taosGetQitem view item m) as [r1 m1| |] eqn:E1; try discriminate.
    unfold bind at 1 in H.
    destruct (taosGetQitem_n n view item m1) as [r2 m2| |] eqn:E2; try discriminate.
    cbn in H. injection H as _ <-.
    destruct (taosGetQitem_alloc _ _ _ _ _ E1) as [Hb1 Ho1].
    destruct (IH _ _ E2) as [Hb2 Ho2]. split; congruence.
Qed.

(** The nodes that the queues own are as they were: the heap stays well
    formed whatever happens to the other nodes. *)
Lemma heap_wf_nodes_frame (m m' : mem) C :
  heap_wf m C →
  queues m' = queues m →
  (∀ p cp a, C !! p = Some cp → a ∈ cp.*1 → nodes m' !! a = nodes m !! a) →
  (brk m ≤ brk m')%N →
  (∀ p, is_Some (qsets m !! p) → is_Some (qsets m' !! p)) →
  heap_wf m' C.
Proof.
  intros (Hbrk & Hdom & Hfresh & Hok & Hdisj) Hq' Hn' Hb' Hs'.
  split_and!; rewrite ?Hq'; try done.
  - lia.
  - intros p qr Hl. pose proof (Hfresh p qr Hl). lia.
  - intros p qr cp Hl HC. eapply queue_ok_frame; [by eapply Hok| |done|done].
    intros a Ha. by eapply Hn'.
Qed.

(** X8: the life of a batch.  [taosReadAllQitems] moves the [N] nodes of
    a non-empty queue into a view, and a pass of [taosGetQitem] calls
    leaves the cursor of the view at its end.  [taosFreeQitems] called
    then frees the view and no node: every node of the batch stays
    allocated.  After [taosResetQitems] it frees the view and all [N]
    nodes, and the heap is well formed with the queue empty. *)
Theorem batch_nodes_freed_only_after_reset
        (m : mem) C (q : ptr) (qr : STaosQueue) (cs : list (ptr * list byte))
        (item : list byte) (fuel : nat) :
  heap_wf m C → queues m !! q = Some qr → C !! q = Some cs → cs ≠ [] →
  calloc_succeeds m →
  length item = Z.to_nat (queue_itemSize qr) →
  (length cs < fuel)%nat →
  ∃ view m1 m2,
    taosReadAllQitems q m = Ok (Z.of_nat (length cs), view) m1 ∧
    taosGetQitem_n (S (length cs)) view item m1
    = Ok (map (fun c => (1, c.2)) cs ++ [(0, item)]) m2 ∧
    (∃ m3, taosFreeQitems fuel view m2 = Ok tt m3 ∧
           nodes m3 = nodes m ∧
           qalls m3 = delete view (qalls m)) ∧
    (∃ m3, (taosResetQitems view;; taosFreeQitems fuel view) m2 = Ok tt m3 ∧
           (∀ a, nodes m3 !! a = if decide (a ∈ cs.*1) then None else nodes m !! a) ∧
           qalls m3 = delete view (qalls m) ∧
           heap_wf m3 (<[q := []]> C)).
Proof.
  intros Hwf Hq HC Hne Hal Hit Hf.
  pose proof Hwf as (Hbrk & Hdom & Hfresh & Hok & Hdisj).
  destruct (Hok q qr _ Hq HC) as (Hch & Htl & Hnum & Hmax & Hnd & Hall & Hsz & Hset).
  destruct (taosReadAllQitems_spec m C q qr cs Hwf Hq HC Hne Hal)
    as (m1 & E1 & Hwf1 & N1 & O1 & A1 & Q1 & S1).
  set (ar := mkQall (queue_head qr) (queue_head qr) (queue_itemSize qr)
                    (queue_numOfItems qr)) in *.
  assert (Ha1 : qalls m1 !! brk m = Some ar) by (rewrite A1; apply lookup_insert_eq).
  assert (Hlens : Forall (fun c : ptr * list byte =>
                            length c.2 = Z.to_nat (qall_itemSize ar)) cs).
  { eapply Forall_impl; [exact Hall|]. by intros c [_ ?]. }
  assert (Hmap : map (fun c : ptr * list byte =>
                        (1, c.2 ++ drop (Z.to_nat (qall_itemSize ar)) item)) cs
                 = map (fun c => (1, c.2)) cs).
  { apply map_ext. intros c. simpl. by rewrite drop_ge, app_nil_r by lia. }
  destruct (taosGetQitem_n_pass cs m1 (brk m) ar item Ha1)
    as (m2 & E2 & N2 & Q2 & S2 & A2); try done.
  { by rewrite N1. }
  { simpl. lia. }
  destruct (taosGetQitem_n_alloc _ _ _ _ _ _ E2) as [B2 _].
  assert (Ha2 : qalls m2 !! brk m = Some (set_qall_current NULL ar))
    by (rewrite A2; apply lookup_insert_eq).
  exists (brk m), m1, m2. rewrite Hmap in E2. split_and!; try done.
  - (* freed where the pass left the cursor *)
    destruct (taosFreeQitems_loop_spec [] fuel (brk m) (set_qall_current NULL ar) m2 Ha2)
      as (m3 & E3 & N3 & A3 & _); [done|simpl; lia|].
    unfold taosFreeQitems. rewrite (bind_ok _ _ _ _ _ E3).
    unfold free_qall. rewrite A3, lookup_insert_eq.
    eexists. split; [reflexivity|]. heap_simpl. split.
    + apply map_eq. intros a. rewrite N3. simpl. by rewrite N2, N1.
    + by rewrite A3, A2, A1, !delete_insert_eq.
  - (* freed after a reset *)
    unfold taosResetQitems. rewrite bind_assoc. mstep. mstep.
    set (m2' := set_qalls (insert (brk m) ar) m2).
    destruct (taosFreeQitems_loop_spec cs fuel (brk m) ar m2')
      as (m3 & E3 & N3 & A3 & Q3 & S3 & B3 & _).
    { subst m2'. heap_simpl. apply lookup_insert_eq. }
    { subst m2'. heap_simpl. by rewrite N2, N1. }
    { done. }
    unfold taosFreeQitems. rewrite (bind_ok _ _ _ _ _ E3).
    unfold free_qall. rewrite A3, lookup_insert_eq.
    eexists. split; [reflexivity|]. heap_simpl.
    assert (Hn3 : ∀ a, nodes m3 !! a
                       = if decide (a ∈ cs.*1) then None else nodes m !! a).
    { intros a. rewrite N3. subst m2'. heap_simpl. by rewrite N2, N1. }
    split_and!.
    + exact Hn3.
    + rewrite A3. subst m2'. heap_simpl. by rewrite A2, A1, !delete_insert_eq.
    + eapply (heap_wf_nodes_frame m1); [exact Hwf1| | | |]; heap_simpl.
      * rewrite Q3. subst m2'. heap_simpl. done.
      * intros p cp a HCp Ha. rewrite Hn3, N1.
        rewrite decide_False; [done|]. intros Hin.
        apply lookup_insert_Some in HCp as [[<- <-]|[Hpq HCp]];
          [by apply elem_of_nil in Ha|].
        by eapply (Hdisj p q cp cs a); first (intros ->; done).
      * rewrite B3. subst m2'. heap_simpl. lia.
      * intros p. rewrite S3. subst m2'. heap_simpl. by rewrite S2.
Qed.

Lemma batch_nodes_freed_only_after_reset_witness :
  ∃ view m1 m2,
    taosReadAllQitems 1%N mem_loose_items = Ok (2, view) m1 ∧
    taosGetQitem_n 3 view [Byte.x00] m1
    = Ok [(1, [Byte.x07]); (1, [Byte.x09]); (0, [Byte.x00])] m2 ∧
    (∃ m3, taosFreeQitems 3 view m2 = Ok tt m3 ∧ nodes m3 = nodes mem_loose_items) ∧
    (∃ m3, (taosResetQitems view;; taosFreeQitems 3 view) m2 = Ok tt m3 ∧
           nodes m3 !! 2%N = None ∧ nodes m3 !! 3%N = None).
Proof.
  destruct (batch_nodes_freed_only_after_reset mem_loose_items _ 1%N
              (mkQueue 1 2 2%N 3%N NULL NULL) [(2%N, [Byte.x07]); (3%N, [Byte.x09])]
              [Byte.x00] 3 heap_wf_loose_items)
    as (view & m1 & m2 & E1 & E2 & (m3 & E3 & N3 & _) & (m4 & E4 & N4 & _));
    [reflexivity|reflexivity|discriminate|reflexivity|reflexivity|simpl; lia|].
  exists view, m1, m2. split_and!; [exact E1|exact E2| |].
  - by exists m3.
  - exists m4. split; [exact E4|]. by rewrite !N4.
Defined.

(** ** A batch view is a snapshot *)

Lemma taosReadAllQitems_alloc (q : ptr) (m m' : mem) r :
  taosReadAllQitems q m = Ok r m' → (brk m ≤ brk m')%N.
Proof.
  unfold taosReadAllQitems, get_queue, calloc_qall, calloc, upd_qall, get_qall,
    upd_queue, upd_qset, when, set_terrno.
  unfold bind, ret. intros H.
  repeat (case_match; simplify_eq; cbn beta in * ); simplify_eq; simpl; lia.
Qed.

(** X9: a batch view is a snapshot.  Once [taosReadAllQitems] has moved
    the items of a queue into a view, an item written to the queue is not
    seen by the view: a pass over the view yields the items that were
    drained, in their order, and the queue yields the new item alone. *)
Theorem view_is_a_snapshot
        (m : mem) C (q : ptr) (qr : STaosQueue) (cs : list (ptr * list byte))
        (new item : list byte) :
  heap_wf m C → queues m !! q = Some qr → C !! q = Some cs → cs ≠ [] →
  calloc_grants 2 m →
  length new = Z.to_nat (queue_itemSize qr) →
  length item = Z.to_nat (queue_itemSize qr) →
  ∃ view m1 m2 m3 m4,
    taosReadAllQitems q m = Ok (Z.of_nat (length cs), view) m1 ∧
    taosWriteQitem q new m1 = Ok 0 m2 ∧
    taosGetQitem_n (S (length cs)) view item m2
    = Ok (map (fun c => (1, c.2)) cs ++ [(0, item)]) m3 ∧
    taosReadQitem_n 2 q item m3 = Ok [(1, new); (0, item)] m4.
Proof.
  intros Hwf Hq HC Hne Hal Hnew Hit.
  apply calloc_grants_S in Hal as [Hal Hal2].
  pose proof Hwf as (Hbrk & Hdom & Hfresh & Hok & Hdisj).
  pose proof (Hok q qr _ Hq HC) as Hqok.
  destruct (Hok q qr _ Hq HC) as (Hch & Htl & Hnum & Hmax & Hnd & Hall & Hsz & Hset).
  destruct (taosReadAllQitems_spec m C q qr cs Hwf Hq HC Hne Hal)
    as (m1 & E1 & Hwf1 & N1 & O1 & A1 & Q1 & S1).
  pose proof (taosReadAllQitems_alloc _ _ _ _ E1) as B1.
  set (ar := mkQall (queue_head qr) (queue_head qr) (queue_itemSize qr)
                    (queue_numOfItems qr)) in *.
  set (qr1 := mkQueue (queue_itemSize qr) 0 NULL NULL (queue_next qr) (queue_qset qr)) in *.
  assert (Hq1 : queues m1 !! q = Some qr1) by (rewrite Q1; apply lookup_insert_eq).
  (* the write *)
  destruct (taosWriteQitem_effect m1 _ q qr1 [] new Hwf1 Hq1)
    as (m2 & E2 & Hwf2 & O2 & A2 & Q2 & S2 & B2 & F2).
  { apply lookup_insert_eq. }
  { unfold calloc_succeeds. rewrite O1. destruct (calloc_ok m) as [|b [|b' l]]; simpl in *;
      congruence. }
  { unfold INT32_MAX. simpl. lia. }
  { subst qr1. simpl. lia. }
  rewrite insert_insert_eq in Hwf2. subst qr1. heap_simpl.
  rewrite take_ge in Hwf2 by lia. simpl in Hwf2.
  (* the pass over the view *)
  assert (Ha2 : qalls m2 !! brk m = Some ar) by (rewrite A2, A1; apply lookup_insert_eq).
  assert (Hlens : Forall (fun c : ptr * list byte =>
                            length c.2 = Z.to_nat (qall_itemSize ar)) cs).
  { eapply Forall_impl; [exact Hall|]. by intros c [_ ?]. }
  assert (Hmap : map (fun c : ptr * list byte =>
                        (1, c.2 ++ drop (Z.to_nat (qall_itemSize ar)) item)) cs
                 = map (fun c => (1, c.2)) cs).
  { apply map_ext. intros c. simpl. by rewrite drop_ge, app_nil_r by lia. }
  destruct (taosGetQitem_n_pass cs m2 (brk m) ar item Ha2)
    as (m3 & E3 & N3 & Q3 & S3 & A3); try done.
  { eapply chain_frame; [|exact Hch]. intros a Ha. rewrite F2, N1; [done| |done].
    pose proof (queue_ok_addr_lt m qr cs a Hqok Ha). lia. }
  { simpl. lia. }
  destruct (taosGetQitem_n_alloc _ _ _ _ _ _ E3) as [B3 _].
  rewrite Hmap in E3.
  (* the reads *)
  assert (Hwf3 : heap_wf m3 (<[q := [(brk m1, new)]]> (<[q := []]> C))).
  { rewrite insert_insert_eq.
    eapply heap_wf_qsets; [exact Hwf2|done|done|lia|]. intros p. by rewrite S3. }
  assert (Hq3 : ∃ qr3, queues m3 !! q = Some qr3 ∧ queue_itemSize qr3 = queue_itemSize qr).
  { rewrite Q3, Q2. eexists. split; [apply lookup_insert_eq|done]. }
  destruct Hq3 as (qr3 & Hq3 & Hsz3).
  destruct (taosReadQitem_n_spec [(brk m1, new)] m3 _ q qr3 item Hwf3 Hq3)
    as (m4 & C4 & E4 & _).
  { apply lookup_insert_eq. }
  { rewrite Hsz3. lia. }
  exists (brk m), m1, m2, m3, m4. by split_and!.
Qed.

Lemma view_is_a_snapshot_witness :
  ∃ view m1 m2 m3 m4,
    taosReadAllQitems 1%N mem_loose_items = Ok (2, view) m1 ∧
    taosWriteQitem 1%N [Byte.x0b] m1 = Ok 0 m2 ∧
    taosGetQitem_n 3 view [Byte.x00] m2
    = Ok [(1, [Byte.x07]); (1, [Byte.x09]); (0, [Byte.x00])] m3 ∧
    taosReadQitem_n 2 1%N [Byte.x00] m3 = Ok [(1, [Byte.x0b]); (0, [Byte.x00])] m4.
Proof.
  apply (view_is_a_snapshot mem_loose_items _ 1%N
           (mkQueue 1 2 2%N 3%N NULL NULL) [(2%N, [Byte.x07]); (3%N, [Byte.x09])]
           [Byte.x0b] [Byte.x00] heap_wf_loose_items);
    [reflexivity|reflexivity|discriminate|reflexivity|reflexivity|reflexivity].
Defined.

(** ** The item count of a queue *)

(** Any number of reads: the first items of the queue, as many as there
    are, and then [0] with the buffer as it was. *)
Lemma taosReadQitem_n_any (n : nat) (cs : list (ptr * list byte)) (m : mem) C (q : ptr)
      (qr : STaosQueue) (item : list byte) :
  heap_wf m C → queues m !! q = Some qr → C !! q = Some cs →
  length item = Z.to_nat (queue_itemSize qr) →
  ∃ m' qr',
    taosReadQitem_n n q item m
    = Ok (map (fun c => (1, c.2)) (take n cs) ++ replicate (n - length cs) (0, item)) m' ∧
    heap_wf m' (<[q := drop n cs]> C) ∧
    queues m' !! q = Some qr' ∧ queue_itemSize qr' = queue_itemSize qr.
Proof.
  revert cs m C qr. induction n as [|n IH]; intros cs m C qr Hwf Hq HC Hit.
  - exists m, qr. rewrite drop_0, insert_id by done. by split_and!.
  - destruct cs as [|c cs].
    + destruct (IH [] m C qr Hwf Hq HC Hit) as (m' & qr' & E & Hwf' & Hq' & Hsz').
      exists m', qr'. cbn [taosReadQitem_n].
      rewrite (bind_ok _ _ _ _ _ (taosReadQitem_empty m C q item Hwf HC)).
      rewrite (bind_ok _ _ _ _ _ E). rewrite take_nil, drop_nil in *.
      split_and!; try done. unfold ret. simpl. by rewrite Nat.sub_0_r.
    + destruct (taosReadQitem_spec m C q qr c cs item Hwf Hq HC) as
        (m1 & E1 & Hwf1 & O1 & A1 & Q1 & S1); [lia|].
      rewrite drop_ge, app_nil_r in E1 by lia.
      set (qr1 := mkQueue _ _ _ _ _ _) in Q1.
      destruct (IH cs m1 _ qr1 Hwf1) as (m' & qr' & E & Hwf' & Hq' & Hsz').
      * rewrite Q1. apply lookup_insert_eq.
      * apply lookup_insert_eq.
      * done.
      * exists m', qr'. cbn [taosReadQitem_n].
        rewrite (bind_ok _ _ _ _ _ E1), (bind_ok _ _ _ _ _ E).
        rewrite insert_insert_eq in Hwf'. by split_and!.
Qed.

(** X10: [taosGetQueueItemsNumber] follows the writes and the reads.  On
    a queue that holds [length cs] items, after the items [items] have
    been written and [k] reads have been made, it returns
    [length cs + length items - k], and [0] when more reads were made
    than there were items; the reads that found an item return the items
    in the order they were written. *)
Theorem item_count_follows_writes_and_reads
        (m : mem) C (q : ptr) (qr : STaosQueue) (cs : list (ptr * list byte))
        (items : list (list byte)) (item : list byte) (k : nat) :
  heap_wf m C → queues m !! q = Some qr → C !! q = Some cs →
  calloc_grants (length items) m →
  Z.of_nat (length cs + length items) ≤ INT32_MAX →
  Forall (fun it => length it = Z.to_nat (queue_itemSize qr)) items →
  length item = Z.to_nat (queue_itemSize qr) →
  ∃ m0 m1 m2,
    taosGetQueueItemsNumber q m = Ok (Z.of_nat (length cs)) m0 ∧
    taosWriteQitem_all q items m = Ok (replicate (length items) 0) m1 ∧
    taosGetQueueItemsNumber q m1 = Ok (Z.of_nat (length cs + length items)) m1 ∧
    taosReadQitem_n k q item m1
    = Ok (map (fun it => (1, it)) (take k (cs.*2 ++ items))
          ++ replicate (k - (length cs + length items)) (0, item)) m2 ∧
    taosGetQueueItemsNumber q m2 = Ok (Z.of_nat (length cs + length items - k)) m2.
Proof.
  intros Hwf Hq HC Hal Hlen Hall Hit.
  assert (Hcount : ∀ m' C' cs', heap_wf m' C' → C' !! q = Some cs' →
            taosGetQueueItemsNumber q m' = Ok (Z.of_nat (length cs')) m').
  { intros m' C' cs' Hwf' HC'.
    destruct (heap_wf_content_ok m' C' q cs' Hwf' HC') as (qr' & Hq' & Hok').
    destruct Hok' as (_ & _ & Hnum & _).
    unfold taosGetQueueItemsNumber. mstep. by rewrite Hnum. }
  destruct (taosWriteQitem_all_spec items m C q qr cs Hwf Hq HC Hal Hlen Hall)
    as (m1 & qr1 & cs1 & E1 & Hwf1 & Hcs1 & Hq1 & Hsz1 & _).
  destruct (taosReadQitem_n_any k (cs ++ cs1) m1 _ q qr1 item Hwf1 Hq1)
    as (m2 & qr2 & E2 & Hwf2 & _); [apply lookup_insert_eq|by rewrite Hsz1|].
  assert (Hl1 : length cs1 = length items) by (by rewrite <- Hcs1, length_fmap).
  exists m, m1, m2. split_and!.
  - by apply (Hcount m C).
  - exact E1.
  - rewrite (Hcount m1 _ (cs ++ cs1) Hwf1) by apply lookup_insert_eq.
    by rewrite length_app, Hl1.
  - rewrite E2. f_equal. rewrite length_app, Hl1. f_equal.
    rewrite <- Hcs1, <- fmap_app, <- fmap_take.
    rewrite <- (list_fmap_compose snd (fun it => (1, it))). done.
  - rewrite (Hcount m2 _ (drop k (cs ++ cs1)) Hwf2) by apply lookup_insert_eq.
    by rewrite length_drop, length_app, Hl1.
Qed.

Lemma item_count_follows_writes_and_reads_witness :
  ∃ m0 m1 m2,
    taosGetQueueItemsNumber 1%N mem_loose_items = Ok 2 m0 ∧
    taosWriteQitem_all 1%N [[Byte.x0b]] mem_loose_items = Ok [0] m1 ∧
    taosGetQueueItemsNumber 1%N m1 = Ok 3 m1 ∧
    taosReadQitem_n 4 1%N [Byte.x00] m1
    = Ok [(1, [Byte.x07]); (1, [Byte.x09]); (1, [Byte.x0b]); (0, [Byte.x00])] m2 ∧
    taosGetQueueItemsNumber 1%N m2 = Ok 0 m2.
Proof.
  apply (item_count_follows_writes_and_reads mem_loose_items _ 1%N
           (mkQueue 1 2 2%N 3%N NULL NULL) [(2%N, [Byte.x07]); (3%N, [Byte.x09])]
           [[Byte.x0b]] [Byte.x00] 4 heap_wf_loose_items);
    [reflexivity|reflexivity|reflexivity|unfold INT32_MAX; simpl; lia
    |repeat constructor|reflexivity].
Defined.

(** ** Adding an unbound queue to a set *)

(** X11: [taosAddIntoQset] of a queue that is bound to no set returns [0].
    [taosGetQueueNumber] grows by one and [taosGetQsetItemsNumber] by the
    number of items waiting in the queue; the queue is bound from then on,
    so adding it once more, to whatever set, returns [-1].  The queue is
    put in front of the member list and the cursor is not moved: the next
    poll goes on from the cursor to the end of the old list, and reaches
    the new queue only after that, before the queues it had passed. *)
Theorem add_unbound_queue_effect
        (m : mem) C (s q : ptr) (qr : STaosQueue) (pre cur : list ptr) (item : list byte) :
  heap_wf m C → set_inv m s (pre ++ cur) cur →
  queues m !! q = Some qr → queue_qset qr = NULL → q ≠ NULL →
  Z.of_nat (length (pre ++ cur)) < INT32_MAX →
  buffer_fits m item →
  ∃ m' k n,
    taosGetQueueNumber s m = Ok k m ∧
    taosGetQsetItemsNumber s m = Ok n m ∧
    taosAddIntoQset s q m = Ok 0 m' ∧
    taosGetQueueNumber s m' = Ok (k + 1) m' ∧
    taosGetQsetItemsNumber s m' = Ok (wrap32 (n + queue_numOfItems qr)) m' ∧
    set_ok m' s (q :: pre ++ cur) cur ∧
    (∀ s2, taosAddIntoQset s2 q m' = Ok (-1) m') ∧
    (∃ code item' visited m'',
        taosReadQitemFromQset_visits s item m' = Ok (code, item', visited) m'' ∧
        visited `prefix_of` cur ++ q :: pre).
Proof.
  intros Hwf (Hsn & Hset & Hbound & _) Hq Hun Hnn Hlen Hbuf.
  assert (Hnin : q ∉ pre ++ cur).
  { intros Hin. apply (Hbound q qr Hq) in Hin. congruence. }
  destruct (taosAddIntoQset_spec m C s q qr (pre ++ cur) cur Hwf Hset Hq Hun Hnn Hnin Hlen)
    as (m' & E & Hwf' & Hset' & _ & sr & Hs & Hq' & Hs').
  assert (Hbuf' : buffer_fits m' item).
  { eapply buffer_fits_frame; [exact Hbuf|]. rewrite Hq'. intros p q' Hl.
    apply lookup_insert_Some in Hl as [[<- <-]|[_ Hl]]; eauto. }
  destruct (taosReadQitemFromQset_visits_spec m' C s (q :: pre ++ cur) cur item Hwf' Hset' Hbuf')
    as (code & item' & visited & m'' & C' & Ev & _ & _ & _ & Hpre & _).
  change (q :: pre ++ cur) with ((q :: pre) ++ cur) in Hpre. rewrite walk_round in Hpre.
  exists m', (qset_numOfQueues sr), (qset_numOfItems sr). split_and!.
  - unfold taosGetQueueNumber. by mstep.
  - unfold taosGetQsetItemsNumber. by mstep.
  - exact E.
  - unfold taosGetQueueNumber.
    erewrite bind_ok by (apply get_qset_ok; rewrite Hs'; apply lookup_insert_eq). done.
  - unfold taosGetQsetItemsNumber.
    erewrite bind_ok by (apply get_qset_ok; rewrite Hs'; apply lookup_insert_eq). done.
  - exact Hset'.
  - intros s2. unfold taosAddIntoQset.
    erewrite bind_ok by (apply get_queue_ok; rewrite Hq'; apply lookup_insert_eq).
    heap_simpl. apply is_null_false in Hsn. by rewrite Hsn.
  - by exists code, item', visited, m''.
Qed.

Lemma mem_one_member_ok :
  heap_wf mem_one_member {[ 1%N := [(3%N, [Byte.x01])]; 2%N := [(4%N, [Byte.x02])] ]} ∧
  set_inv mem_one_member 5%N [1%N] [] ∧
  buffer_fits mem_one_member [Byte.x00].
Proof.
  pose proof (heap_wf_init (replicate 6 true)) as H0.
  destruct (taosOpenQueue_spec _ _ 1 H0) as (m1 & E1 & H1 & _);
    [reflexivity|unfold INT32_MAX; simpl; lia|].
  vm_compute in E1. injection E1 as <-.
  destruct (taosOpenQueue_spec _ _ 1 H1) as (m2 & E2 & H2 & _);
    [reflexivity|unfold INT32_MAX; simpl; lia|].
  vm_compute in E2. injection E2 as <-.
  destruct (taosWriteQitem_spec _ _ 1%N (mkQueue 1 0 NULL NULL NULL NULL) []
              [Byte.x01] H2) as (m3 & E3 & H3 & _);
    [reflexivity|reflexivity|reflexivity|unfold INT32_MAX; simpl; lia|simpl; lia|].
  vm_compute in E3. injection E3 as <-.
  destruct (taosWriteQitem_spec _ _ 2%N (mkQueue 1 0 NULL NULL NULL NULL) []
              [Byte.x02] H3) as (m4 & E4 & H4 & _);
    [reflexivity|reflexivity|reflexivity|unfold INT32_MAX; simpl; lia|simpl; lia|].
  vm_compute in E4. injection E4 as <-.
  destruct (taosOpenQset_spec _ _ H4) as (m5 & E5 & H5 & S5 & _); [reflexivity|].
  vm_compute in E5. injection E5 as <-.
  destruct (taosAddIntoQset_spec _ _ 5%N 1%N (mkQueue 1 1 3%N 3%N NULL NULL) [] []
              H5 S5) as (m6 & E6 & H6 & S6 & _);
    [reflexivity|reflexivity|done|apply not_elem_of_nil|unfold INT32_MAX; simpl; lia|].
  vm_compute in E6. injection E6 as <-.
  split_and!.
  - exact H6.
  - split_and!; [done|exact S6| |].
    + intros q qr Hl. unfold mem_one_member in Hl. heap_simpl.
      apply lookup_insert_Some in Hl as [[<- <-]|[_ Hl]].
      * simpl. split; [intros _; apply list_elem_of_here|done].
      * apply lookup_singleton_Some in Hl as [<- <-]. simpl.
        split; [done|]. intros Hin. apply list_elem_of_singleton in Hin. done.
    + eexists. split; reflexivity.
  - intros p qr Hl. unfold mem_one_member in Hl. heap_simpl.
    apply lookup_insert_Some in Hl as [[<- <-]|[_ Hl]]; [simpl; lia|].
    apply lookup_singleton_Some in Hl as [<- <-]. simpl. lia.
Qed.

Lemma add_unbound_queue_effect_witness :
  ∃ m',
    taosGetQueueNumber 5%N mem_one_member = Ok 1 mem_one_member ∧
    taosGetQsetItemsNumber 5%N mem_one_member = Ok 1 mem_one_member ∧
    taosAddIntoQset 5%N 2%N mem_one_member = Ok 0 m' ∧
    taosGetQueueNumber 5%N m' = Ok 2 m' ∧
    taosGetQsetItemsNumber 5%N m' = Ok 2 m' ∧
    set_ok m' 5%N [2%N; 1%N] [] ∧
    taosAddIntoQset 5%N 2%N m' = Ok (-1) m'.
Proof.
  destruct mem_one_member_ok as (Hwf & Hinv & Hbuf).
  destruct (add_unbound_queue_effect mem_one_member _ 5%N 2%N
              (mkQueue 1 1 4%N 4%N NULL NULL) [1%N] [] [Byte.x00] Hwf Hinv)
    as (m' & k & n & Ek & En & E & Ek' & En' & Hset & Hadd & _);
    [reflexivity|reflexivity|done|unfold INT32_MAX; simpl; lia|exact Hbuf|].
  vm_compute in Ek. injection Ek as <-. vm_compute in En. injection En as <-.
  exists m'. split_and!; [reflexivity|reflexivity|exact E|exact Ek'|exact En'|exact Hset|].
  apply Hadd.
Defined.

(** ** Polling a set whose queues are all empty *)

Lemma iter_advance_within (qs : list ptr) (j : nat) (cur : list ptr) :
  (j ≤ length cur)%nat → Nat.iter j (advance qs) cur = drop j cur.
Proof.
  revert cur. induction j as [|j IH]; intros cur Hj; [by rewrite drop_0|].
  destruct cur as [|a cur]; [simpl in Hj; lia|].
  rewrite Nat.iter_succ_r. unfold advance at 2. cbn [rewind tail].
  rewrite IH by (simpl in Hj; lia). done.
Qed.

Lemma iter_advance_from_null (qs : list ptr) (j : nat) :
  (1 ≤ j ≤ length qs)%nat → Nat.iter j (advance qs) [] = drop j qs.
Proof.
  intros Hj. destruct j as [|j]; [lia|]. destruct qs as [|a qs]; [simpl in Hj; lia|].
  rewrite Nat.iter_succ_r. unfold advance at 2. cbn [rewind tail].
  rewrite iter_advance_within by (simpl in Hj; lia). done.
Qed.

(** After as many visits as the set has members the cursor is back where
    the round began; a round that began on the head of the list ends with
    the cursor at [NULL], from where the next round begins on the head
    again. *)
Lemma iter_advance_round (qs cur : list ptr) :
  cur `suffix_of` qs →
  Nat.iter (length qs) (advance qs) cur = if decide (cur = qs) then [] else cur.
Proof.
  intros [pre ->]. destruct pre as [|p pre].
  - rewrite decide_True by done. simpl.
    rewrite iter_advance_within by done. by rewrite drop_all.
  - rewrite decide_False.
    2:{ intros H. apply (f_equal length) in H. rewrite length_app in H. simpl in H. lia. }
    rewrite length_app, Nat.iter_add, (iter_advance_within _ (length cur)) by done.
    rewrite drop_all, iter_advance_from_null.
    + by rewrite drop_app_length.
    + rewrite length_app. simpl. lia.
Qed.

Lemma iter_advance_fixed (qs cur : list ptr) (n : nat) :
  advance qs cur = cur → Nat.iter n (advance qs) cur = cur.
Proof. intros H. induction n as [|n IH]; [done|]. simpl. by rewrite IH. Qed.

Lemma set_qsets_same (m : mem) (s : ptr) (sr : STaosQset) :
  qsets m !! s = Some sr → set_qsets (insert s sr) m = m.
Proof. intros H. unfold set_qsets. rewrite insert_id by done. by destruct m. Qed.

(** The loop of [taosReadQitemFromQset] over queues that are all empty:
    only the cursor moves. *)
Lemma taosReadQitemFromQset_loop_empty (n : nat) (m : mem) C (s : ptr)
      (qs cur : list ptr) (item : list byte) :
  heap_wf m C → set_ok m s qs cur →
  (∀ a, a ∈ qs → C !! a = Some []) →
  ∃ sr, qsets m !! s = Some sr ∧
        taosReadQitemFromQset_loop n s item m
        = Ok (0, item)
             (set_qsets (insert s (set_qset_current
                                     (hd NULL (Nat.iter n (advance qs) cur)) sr)) m).
Proof.
  revert m cur. induction n as [|n IH]; intros m cur Hwf Hset Hemp.
  { pose proof Hset as (sr & Hs & _ & _ & _ & _ & Hcur). exists sr. split; [done|].
    simpl. rewrite <- Hcur, set_qset_current_same, set_qsets_same by done. reflexivity. }
  cbn [taosReadQitemFromQset_loop].
  match goal with
  | |- context [bind (get_qset s) ?k m] =>
      match k with
      | (fun s0 => bind _ (fun _ => bind _ (fun s1 => bind _ (fun _ => @?K s1)))) =>
          destruct (cursor_step (fun queue => K (mkQset NULL queue 0 0)) m s qs cur Hset)
            as (m1 & sr & E & Hs & Hm1 & Hset1)
      end
  end.
  cbn [qset_current] in E. exists sr. split; [done|]. rewrite E. clear E.
  assert (Hwf1 : heap_wf m1 C).
  { eapply heap_wf_qsets; [exact Hwf|by subst m1..|].
    subst m1. heap_simpl. intros p Hp. apply lookup_insert_is_Some'. by right. }
  destruct (rewind qs cur) as [|a rest] eqn:Hr.
  { assert (advance qs cur = cur) as Hadv.
    { unfold advance. rewrite Hr. destruct cur; [done|discriminate]. }
    cbn [hd]. change (is_null NULL) with true. cbv iota.
    rewrite iter_advance_fixed by done. rewrite Hadv in Hm1. by rewrite Hm1. }
  destruct (set_ok_rewind_member m s qs cur rest a Hset Hr) as (Hnn & Hin & [qr Hq]).
  cbn [hd]. apply is_null_false in Hnn. rewrite Hnn.
  assert (Hq1 : queues m1 !! a = Some qr) by (by subst m1).
  pose proof Hwf1 as (_ & _ & _ & Hok & _).
  destruct (Hok a qr [] Hq1 (Hemp a Hin)) as (Hch & _). simpl in Hch.
  mstep. rewrite Hch. change (is_null NULL) with true. cbn [negb].
  destruct (IH m1 (advance qs cur) Hwf1 Hset1 Hemp) as (sr1 & Hs1 & E1).
  rewrite E1. f_equal. rewrite Nat.iter_succ_r.
  assert (sr1 = set_qset_current (hd NULL (advance qs cur)) sr) as ->.
  { subst m1. heap_simpl. rewrite lookup_insert_eq in Hs1. by injection Hs1. }
  subst m1. unfold set_qsets. heap_simpl. by rewrite insert_insert_eq.
Qed.

(** The same for the loop of [taosReadAllQitemsFromQset]. *)
Lemma taosReadAllQitemsFromQset_loop_empty (n : nat) (m : mem) C (s : ptr)
      (qs cur : list ptr) (qall : ptr) :
  heap_wf m C → set_ok m s qs cur →
  (∀ a, a ∈ qs → C !! a = Some []) →
  ∃ sr, qsets m !! s = Some sr ∧
        taosReadAllQitemsFromQset_loop n s qall m
        = Ok (0, qall)
             (set_qsets (insert s (set_qset_current
                                     (hd NULL (Nat.iter n (advance qs) cur)) sr)) m).
Proof.
  revert m cur. induction n as [|n IH]; intros m cur Hwf Hset Hemp.
  { pose proof Hset as (sr & Hs & _ & _ & _ & _ & Hcur). exists sr. split; [done|].
    simpl. rewrite <- Hcur, set_qset_current_same, set_qsets_same by done. reflexivity. }
  cbn [taosReadAllQitemsFromQset_loop].
  match goal with
  | |- context [bind (get_qset s) ?k m] =>
      match k with
      | (fun s0 => bind _ (fun _ => bind _ (fun s1 => bind _ (fun _ => @?K s1)))) =>
          destruct (cursor_step (fun queue => K (mkQset NULL queue 0 0)) m s qs cur Hset)
            as (m1 & sr & E & Hs & Hm1 & Hset1)
      end
  end.
  cbn [qset_current] in E. exists sr. split; [done|]. rewrite E. clear E.
  assert (Hwf1 : heap_wf m1 C).
  { eapply heap_wf_qsets; [exact Hwf|by subst m1..|].
    subst m1. heap_simpl. intros p Hp. apply lookup_insert_is_Some'. by right. }
  destruct (rewind qs cur) as [|a rest] eqn:Hr.
  { assert (advance qs cur = cur) as Hadv.
    { unfold advance. rewrite Hr. destruct cur; [done|discriminate]. }
    cbn [hd]. change (is_null NULL) with true. cbv iota.
    rewrite iter_advance_fixed by done. rewrite Hadv in Hm1. by rewrite Hm1. }
  destruct (set_ok_rewind_member m s qs cur rest a Hset Hr) as (Hnn & Hin & [qr Hq]).
  cbn [hd]. apply is_null_false in Hnn. rewrite Hnn.
  assert (Hq1 : queues m1 !! a = Some qr) by (by subst m1).
  pose proof Hwf1 as (_ & _ & _ & Hok & _).
  destruct (Hok a qr [] Hq1 (Hemp a Hin)) as (Hch & _). simpl in Hch.
  mstep. rewrite Hch. change (is_null NULL) with true. cbn [negb].
  destruct (IH m1 (advance qs cur) Hwf1 Hset1 Hemp) as (sr1 & Hs1 & E1).
  rewrite E1. f_equal. rewrite Nat.iter_succ_r.
  assert (sr1 = set_qset_current (hd NULL (advance qs cur)) sr) as ->.
  { subst m1. heap_simpl. rewrite lookup_insert_eq in Hs1. by injection Hs1. }
  subst m1. unfold set_qsets. heap_simpl. by rewrite insert_insert_eq.
Qed.

(** X12: a poll of a set whose queues are all empty, the member list
    intact and the cursor [NULL] or on a member.  Both
    [taosReadQitemFromQset] and [taosReadAllQitemsFromQset] return [0],
    the first with the caller's buffer as it was, the second with a [NULL]
    view, after a full round over the members.  The round ends where it
    began: the heap after the call is the heap before it, except that a
    cursor that stood on the head of the member list is left at [NULL],
    from where the next round begins on the head again. *)
Theorem empty_poll_leaves_heap
        (m : mem) C (s : ptr) (qs cur : list ptr) (item : list byte) :
  heap_wf m C → set_ok m s qs cur →
  (∀ a, a ∈ qs → C !! a = Some []) →
  ∃ m', taosReadQitemFromQset s item m = Ok (0, item) m' ∧
        taosReadAllQitemsFromQset s m = Ok (0, NULL) m' ∧
        (cur ≠ qs → m' = m) ∧
        (cur = qs → m' = set_qsets (alter (set_qset_current NULL) s) m) ∧
        set_ok m' s qs (if decide (cur = qs) then [] else cur).
Proof.
  intros Hwf Hset Hemp.
  pose proof Hset as (sr & Hs & Hch & Hnd & Hnum & Hsuf & Hcur).
  destruct (taosReadQitemFromQset_loop_empty (length qs) m C s qs cur item Hwf Hset Hemp)
    as (sr1 & Hs1 & E1).
  destruct (taosReadAllQitemsFromQset_loop_empty (length qs) m C s qs cur NULL Hwf Hset Hemp)
    as (sr2 & Hs2 & E2).
  rewrite Hs in Hs1, Hs2. injection Hs1 as <-. injection Hs2 as <-.
  rewrite iter_advance_round in E1, E2 by done.
  eexists. split_and!.
  - unfold taosReadQitemFromQset. mstep. rewrite Hnum, Nat2Z.id. exact E1.
  - unfold taosReadAllQitemsFromQset. mstep. rewrite Hnum, Nat2Z.id. exact E2.
  - intros Hne. rewrite decide_False by done.
    by rewrite <- Hcur, set_qset_current_same, set_qsets_same.
  - intros Heq. rewrite decide_True by done. unfold set_qsets. simpl.
    by rewrite (alter_as_insert _ _ _ _ Hs).
  - eexists. heap_simpl. split; [apply lookup_insert_eq|]. heap_simpl.
    split_and!; try done.
    + case_decide; [apply suffix_nil|done].
Qed.

Lemma mem_idle_set_ok :
  heap_wf mem_idle_set {[ 1%N := []; 2%N := [] ]} ∧
  set_ok mem_idle_set 3%N [2%N; 1%N] [1%N].
Proof.
  split.
  - unfold heap_wf, mem_idle_set. heap_simpl. split_and!.
    + done.
    + intros p. rewrite !lookup_insert_is_Some', !lookup_singleton_is_Some. done.
    + intros p qr Hl.
      apply lookup_insert_Some in Hl as [[<- _]|[_ Hl]]; [done|].
      apply lookup_singleton_Some in Hl as [<- _]. done.
    + intros p qr cs Hl HC.
      assert (cs = [] ∧ queue_head qr = NULL ∧ queue_tail qr = NULL ∧
              queue_numOfItems qr = 0 ∧ queue_itemSize qr = 1 ∧ queue_qset qr = 3%N)
        as (-> & Hh & Ht & Hn & Hsz & Hqs).
      { apply lookup_insert_Some in Hl as [[<- <-]|[Hne Hl]].
        - rewrite lookup_insert_eq in HC. by injection HC as <-.
        - apply lookup_singleton_Some in Hl as [<- <-].
          rewrite lookup_insert_ne, lookup_singleton_eq in HC by done.
          by injection HC as <-. }
      unfold queue_ok. heap_simpl. rewrite Hh, Ht, Hn, Hsz, Hqs.
      split_and!; try done.
      * constructor.
      * right. by eexists.
    + intros p1 p2 c1 c2 a Hne H1 H2 Ha.
      assert (c1 = []) as ->; [|by apply elem_of_nil in Ha].
      apply lookup_insert_Some in H1 as [[_ <-]|[_ H1]]; [done|].
      by apply lookup_singleton_Some in H1 as [_ <-].
  - eexists. split; [reflexivity|]. simpl. split_and!; try done.
    + eexists. split; [reflexivity|]. simpl. split_and!; try done.
      eexists. split; [reflexivity|]. done.
    + apply (bool_decide_unpack _). reflexivity.
    + by exists [2%N].
Qed.

Lemma empty_poll_leaves_heap_witness :
  taosReadQitemFromQset 3%N [Byte.x00] mem_idle_set = Ok (0, [Byte.x00]) mem_idle_set ∧
  taosReadAllQitemsFromQset 3%N mem_idle_set = Ok (0, NULL) mem_idle_set.
Proof.
  destruct mem_idle_set_ok as [Hwf Hset].
  destruct (empty_poll_leaves_heap mem_idle_set _ 3%N [2%N; 1%N] [1%N] [Byte.x00] Hwf Hset)
    as (m' & E1 & E2 & Hsame & _).
  - intros a Ha. apply elem_of_cons in Ha as [->|Ha]; [reflexivity|].
    apply list_elem_of_singleton in Ha as ->. reflexivity.
  - rewrite Hsame in E1, E2 by discriminate. by split.
Defined.

(** ** The aggregate of a set under the two polls *)

Lemma wrap32_idem (a : Z) : wrap32 (wrap32 a) = wrap32 a.
Proof. pose proof (wrap32_add_l a 0) as H. by rewrite !Z.add_0_r in H. Qed.

(** Moving the cursor keeps the invariant of the set. *)
Lemma set_inv_cursor (m : mem) (s : ptr) (qs cur cur1 : list ptr) (sr : STaosQset) (c : ptr) :
  set_inv m s qs cur → qsets m !! s = Some sr →
  set_ok (set_qsets (insert s (set_qset_current c sr)) m) s qs cur1 →
  set_inv (set_qsets (insert s (set_qset_current c sr)) m) s qs cur1.
Proof.
  intros (Hsn & _ & Hbound & (sr0 & Hs0 & Hsum)) Hs Hset1.
  rewrite Hs in Hs0. injection Hs0 as <-.
  split_and!; [done|done|exact Hbound|].
  eexists. heap_simpl. split; [apply lookup_insert_eq|]. exact Hsum.
Qed.

(** The loop of [taosReadQitemFromQset] keeps the invariant of the set,
    and the aggregate goes down by the return code. *)
Lemma taosReadQitemFromQset_loop_inv (n : nat) (m : mem) C (s : ptr)
      (qs cur : list ptr) (item : list byte) :
  heap_wf m C → set_inv m s qs cur → buffer_fits m item →
  ∃ code item' m' cur' sr sr',
    taosReadQitemFromQset_loop n s item m = Ok (code, item') m' ∧
    (code = 0 ∨ code = 1) ∧
    heap_inv m' ∧ set_inv m' s qs cur' ∧
    qsets m !! s = Some sr ∧ qsets m' !! s = Some sr' ∧
    qset_numOfItems sr' = wrap32 (qset_numOfItems sr - code).
Proof.
  revert m cur. induction n as [|n IH]; intros m cur Hwf Hinv Hbuf.
  { pose proof Hinv as (_ & _ & _ & (sr & Hs & Hsum)).
    exists 0, item, m, cur, sr, sr. split; [reflexivity|].
    split_and!; try done; [by left|by eexists|].
    by rewrite Z.sub_0_r, Hsum, wrap32_idem. }
  pose proof Hinv as (Hsn & Hset & Hbound & (sr0 & Hs0 & Hsum)).
  cbn [taosReadQitemFromQset_loop].
  match goal with
  | |- context [bind (get_qset s) ?k m] =>
      match k with
      | (fun s0 => bind _ (fun _ => bind _ (fun s1 => bind _ (fun _ => @?K s1)))) =>
          destruct (cursor_step (fun queue => K (mkQset NULL queue 0 0)) m s qs cur Hset)
            as (m1 & sr & E & Hs & Hm1 & Hset1)
      end
  end.
  cbn [qset_current] in E. rewrite E. clear E.
  rewrite Hs in Hs0. injection Hs0 as <-.
  assert (Hinv1 : set_inv m1 s qs (advance qs cur)).
  { subst m1. apply (set_inv_cursor m s qs cur); try done. }
  assert (Hwf1 : heap_wf m1 C).
  { eapply heap_wf_qsets; [exact Hwf|by subst m1..|].
    subst m1. heap_simpl. intros p Hp. apply lookup_insert_is_Some'. by right. }
  assert (Hbuf1 : buffer_fits m1 item).
  { eapply buffer_fits_frame; [exact Hbuf|]. subst m1. heap_simpl. eauto. }
  assert (Hq1 : queues m1 = queues m) by (by subst m1).
  assert (Hs1 : qsets m1 !! s = Some (set_qset_current (hd NULL (advance qs cur)) sr)).
  { subst m1. heap_simpl. apply lookup_insert_eq. }
  destruct (rewind qs cur) as [|a rest] eqn:Hr.
  { cbn [hd]. change (is_null NULL) with true. cbv iota.
    eexists 0, item, m1, _, sr, _. split; [reflexivity|].
    split_and!; try done; [by left|by eexists|].
    heap_simpl. by rewrite Z.sub_0_r, Hsum, wrap32_idem. }
  destruct (set_ok_rewind_member m s qs cur rest a Hset Hr) as (Hnn & Hin & [qr Hq]).
  cbn [hd]. apply is_null_false in Hnn. rewrite Hnn.
  rewrite <- Hq1 in Hq. mstep.
  pose proof Hwf1 as (Hbrk & Hdom & Hfresh & Hok & Hdisj).
  destruct (proj1 (Hdom a) (mk_is_Some _ _ Hq)) as [cs HC].
  destruct (Hok a qr cs Hq HC) as (Hch & Htl & Hnum & Hmax & Hnd & Hall & Hsz & Hqset).
  destruct cs as [|c cs].
  - simpl in Hch. rewrite Hch. change (is_null NULL) with true. cbn [negb].
    destruct (IH m1 (advance qs cur) Hwf1 Hinv1 Hbuf1)
      as (code & item' & m' & cur' & sr1 & sr' & E & Hcode & Hwf' & Hinv' & Hsr1 & Hsr' & Hn').
    rewrite Hs1 in Hsr1. injection Hsr1 as <-.
    exists code, item', m', cur', sr, sr'. by split_and!.
  - assert (Hhn : is_null (queue_head qr) = false).
    { apply is_null_false. by destruct Hch as (-> & ? & _). }
    rewrite Hhn. cbn [negb].
    destruct (pop_steps (fun item' => upd_qset s (atomic_sub_numOfItems 1);;
                                      ret (1, item'))
                        m1 C a qr c cs item Hwf1 Hq HC)
      as (m2 & E & Hwf2 & S2 & A2 & O2 & B2 & Q2); [by eapply Hbuf1|].
    rewrite E. clear E.
    assert (Hs2 : qsets m2 !! s
                  = Some (set_qset_current (hd NULL (advance qs cur)) sr)).
    { by rewrite S2. }
    mstep. unfold ret.
    assert (Hqs : queue_qset qr = s).
    { destruct Hinv1 as (_ & _ & Hbound1 & _). by apply (Hbound1 a qr Hq). }
    eexists 1, _, _, (advance qs cur), sr, _. split; [reflexivity|].
    split_and!; [by right| | |done|heap_simpl; apply lookup_insert_eq|done].
    + exists (<[a := cs]> C).
      eapply heap_wf_qsets; [exact Hwf2|done..|].
      heap_simpl. intros p Hp. apply lookup_insert_is_Some'. by right.
    + eapply (set_inv_count m1 _ s qs (advance qs cur) a qr _
                (atomic_sub_numOfItems 1) (-1)); [exact Hinv1|exact Hq| | | | | |].
      * heap_simpl. exact Q2.
      * done.
      * done.
      * simpl. lia.
      * intros x. unfold atomic_sub_numOfItems. f_equal.
      * heap_simpl. rewrite Hqs. apply is_null_false in Hsn. rewrite Hsn.
        rewrite S2. by apply alter_as_insert.
Qed.

(** X13: [taosReadQitemFromQset] conserves the aggregate.  On a set
    whose aggregate is the 32-bit sum of the item counts of its members,
    the call returns [0] or [1], the aggregate goes down by what it
    returns, and the set is again as described: same member list, every
    member pointing back to it, aggregate equal to the sum. *)
Theorem poll_conserves_aggregate
        (m : mem) C (s : ptr) (qs cur : list ptr) (item : list byte) :
  heap_wf m C → set_inv m s qs cur → buffer_fits m item →
  ∃ code item' m' cur' n,
    taosGetQsetItemsNumber s m = Ok n m ∧
    taosReadQitemFromQset s item m = Ok (code, item') m' ∧
    (code = 0 ∨ code = 1) ∧
    heap_inv m' ∧ set_inv m' s qs cur' ∧
    taosGetQsetItemsNumber s m' = Ok (wrap32 (n - code)) m'.
Proof.
  intros Hwf Hinv Hbuf.
  pose proof Hinv as (_ & (sr0 & Hs0 & _ & _ & Hnum & _) & _).
  destruct (taosReadQitemFromQset_loop_inv (length qs) m C s qs cur item Hwf Hinv Hbuf)
    as (code & item' & m' & cur' & sr & sr' & E & Hcode & Hwf' & Hinv' & Hsr & Hsr' & Hn').
  rewrite Hs0 in Hsr. injection Hsr as <-.
  exists code, item', m', cur', (qset_numOfItems sr0). split_and!; try done.
  - unfold taosGetQsetItemsNumber. by mstep.
  - unfold taosReadQitemFromQset. mstep. by rewrite Hnum, Nat2Z.id.
  - unfold taosGetQsetItemsNumber. mstep. by rewrite Hn'.
Qed.

Lemma poll_conserves_aggregate_witness :
  ∃ item' m' cur',
    taosGetQsetItemsNumber 5%N mem_two_queues = Ok 2 mem_two_queues ∧
    taosReadQitemFromQset 5%N [Byte.x00] mem_two_queues = Ok (1, item') m' ∧
    set_inv m' 5%N [2%N; 1%N] cur' ∧
    taosGetQsetItemsNumber 5%N m' = Ok 1 m'.
Proof.
  destruct mem_two_queues_ok as (Hwf & Hset & Hbuf).
  destruct (poll_conserves_aggregate mem_two_queues _ 5%N [2%N; 1%N] [] [Byte.x00]
              Hwf mem_two_queues_inv Hbuf)
    as (code & item' & m' & cur' & n & En & E & _ & _ & Hinv' & En').
  vm_compute in En. injection En as <-.
  assert (code = 1) as ->.
  { vm_compute in E. by injection E as <- _ _. }
  exists item', m', cur'. by split_and!.
Defined.

(** The loop of [taosReadAllQitemsFromQset] when the visits [vis0] find
    empty queues and the next visit finds the queue [a] with the items
    [cs]: the batch is taken from [a]. *)
Lemma taosReadAllQitemsFromQset_loop_spec (vis0 : list ptr) (n : nat) (m : mem) C (s : ptr)
      (qs cur : list ptr) (qall a : ptr) (cs : list (ptr * list byte)) :
  heap_wf m C → set_inv m s qs cur → calloc_succeeds m →
  (vis0 ++ [a]) `prefix_of` walk n qs cur →
  Forall (fun b => C !! b = Some []) vis0 →
  C !! a = Some cs → cs ≠ [] →
  ∃ m' qr sr sr',
    taosReadAllQitemsFromQset_loop n s qall m = Ok (Z.of_nat (length cs), brk m) m' ∧
    heap_wf m' (<[a := []]> C) ∧
    set_inv m' s qs (Nat.iter (S (length vis0)) (advance qs) cur) ∧
    queues m !! a = Some qr ∧
    nodes m' = nodes m ∧
    qalls m' = <[brk m := mkQall (queue_head qr) (queue_head qr)
                                 (queue_itemSize qr) (queue_numOfItems qr)]> (qalls m) ∧
    qsets m !! s = Some sr ∧ qsets m' !! s = Some sr' ∧
    qset_numOfItems sr' = wrap32 (qset_numOfItems sr - Z.of_nat (length cs)).
Proof.
  revert vis0 m cur. induction n as [|n IH]; intros vis0 m cur Hwf Hinv Hal Hpre Hemp HC Hne.
  { simpl in Hpre. apply prefix_nil_inv in Hpre. by destruct vis0. }
  pose proof Hinv as (Hsn & Hset & Hbound & (sr0 & Hs0 & Hsum)).
  rewrite walk_S in Hpre.
  cbn [taosReadAllQitemsFromQset_loop].
  match goal with
  | |- context [bind (get_qset s) ?k m] =>
      match k with
      | (fun s0 => bind _ (fun _ => bind _ (fun s1 => bind _ (fun _ => @?K s1)))) =>
          destruct (cursor_step (fun queue => K (mkQset NULL queue 0 0)) m s qs cur Hset)
            as (m1 & sr & E & Hs & Hm1 & Hset1)
      end
  end.
  cbn [qset_current] in E. rewrite E. clear E.
  rewrite Hs in Hs0. injection Hs0 as <-.
  assert (Hinv1 : set_inv m1 s qs (advance qs cur))
    by (subst m1; by apply (set_inv_cursor m s qs cur)).
  assert (Hwf1 : heap_wf m1 C).
  { eapply heap_wf_qsets; [exact Hwf|by subst m1..|].
    subst m1. heap_simpl. intros p Hp. apply lookup_insert_is_Some'. by right. }
  assert (Hq1 : queues m1 = queues m) by (by subst m1).
  assert (Hs1 : qsets m1 !! s = Some (set_qset_current (hd NULL (advance qs cur)) sr)).
  { subst m1. heap_simpl. apply lookup_insert_eq. }
  destruct (rewind qs cur) as [|x rest] eqn:Hr.
  { apply prefix_nil_inv in Hpre. by destruct vis0. }
  destruct (set_ok_rewind_member m s qs cur rest x Hset Hr) as (Hnn & Hin & [qr Hq]).
  cbn [hd]. apply is_null_false in Hnn. rewrite Hnn.
  rewrite <- Hq1 in Hq. mstep.
  pose proof Hwf1 as (Hbrk & Hdom & Hfresh & Hok & Hdisj).
  destruct vis0 as [|b vis0].
  - (* the queue under the cursor is [a] *)
    simpl in Hpre. apply prefix_cons_inv_1 in Hpre as <-.
    destruct (Hok a qr cs Hq HC) as (Hch & Htl & Hnum & Hmax & Hnd & Hall & Hsz & Hqset).
    assert (Hhn : is_null (queue_head qr) = false).
    { apply is_null_false. intros E. by apply (chain_null_iff _ _ _ Hch) in E. }
    rewrite Hhn. cbn [negb].
    assert (Hal1 : calloc_succeeds m1) by (by subst m1).
    rewrite (bind_ok _ _ _ _ _ (calloc_qall_granted m1 Hal1 Hbrk)).
    assert (Hb : is_null (brk m1) = false) by (by apply is_null_false).
    rewrite Hb. mstep. mstep. mstep. mstep. mstep. mstep. mstep.
    assert (Hc0 : Z.eqb (queue_numOfItems qr) 0 = false).
    { apply Z.eqb_neq. rewrite Hnum. destruct cs; [done|]. simpl length. lia. }
    rewrite Hc0. unfold ret. rewrite Hnum.
    assert (Hb1 : brk m1 = brk m) by (by subst m1).
    assert (Hqs : queue_qset qr = s).
    { destruct Hinv1 as (_ & _ & Hbound1 & _). by apply (Hbound1 a qr Hq). }
    rewrite Hb1. eexists _, qr, sr, _. split; [reflexivity|].
    split_and!.
    + eapply heap_wf_clear; [exact Hwf1|exact Hq|exact HC| | | |];
        heap_norm; try done; [lia|].
      intros p Hp. apply lookup_insert_is_Some'. by right.
    + simpl. eapply (set_inv_count m1 _ s qs (advance qs cur) a qr _
                (atomic_sub_numOfItems (Z.of_nat (length cs))) (- Z.of_nat (length cs)));
        [exact Hinv1|exact Hq| | | | | |].
      * heap_norm. reflexivity.
      * done.
      * done.
      * simpl. lia.
      * intros x. unfold atomic_sub_numOfItems. f_equal.
      * heap_simpl. rewrite Hqs. apply is_null_false in Hsn. rewrite Hsn.
        by apply alter_as_insert.
    + by rewrite <- Hq1.
    + heap_simpl. by subst m1.
    + heap_simpl. rewrite Hnum, insert_insert_eq. by subst m1.
    + done.
    + heap_norm. apply lookup_insert_eq.
    + done.
  - (* the queue under the cursor is empty *)
    simpl in Hpre. pose proof (prefix_cons_inv_1 _ _ _ _ Hpre) as <-.
    apply prefix_cons_inv_2 in Hpre.
    apply Forall_cons in Hemp as [Hb Hemp].
    destruct (Hok b qr [] Hq Hb) as (Hch & _). simpl in Hch.
    rewrite Hch. change (is_null NULL) with true. cbn [negb].
    destruct (IH vis0 m1 (advance qs cur) Hwf1 Hinv1) as
      (m' & qa & sr1 & sr' & E & Hwf' & Hinv' & Hqa & Hn' & Ha' & Hsr1 & Hsr' & Hk');
      try done.
    { by subst m1. }
    rewrite Hs1 in Hsr1. injection Hsr1 as <-.
    assert (Hb1 : brk m1 = brk m) by (by subst m1).
    rewrite Hb1 in E, Ha'.
    exists m', qa, sr, sr'. split; [exact E|].
    split_and!; try done.
    + cbn [length]. by rewrite Nat.iter_succ_r.
    + by rewrite <- Hq1.
    + by rewrite Hn'; subst m1.
    + by rewrite Ha'; subst m1.
Qed.

(** X14: [taosReadAllQitemsFromQset] takes the batch of the first
    non-empty queue in round-robin order.  The set is intact: its cursor
    is [NULL] or on a member, its members are the queues bound to it, and
    its aggregate is the sum over them.  When the queues [vis0] that
    come first from the cursor are empty and the next one, [a], holds the
    items [cs], the call returns [length cs] and a view; a pass over the
    view yields the items of [a] in their order; [a] is left empty and
    the contents of every other queue stay as they are; the aggregate of
    the set goes down by [length cs] and is again the 32-bit sum of the
    item counts of the members; the cursor stands behind [a]. *)
Theorem set_drain_takes_first_nonempty
        (m : mem) C (s : ptr) (pre cur vis0 rest : list ptr) (a : ptr)
        (cs : list (ptr * list byte)) (item : list byte) :
  heap_wf m C → set_inv m s (pre ++ cur) cur → calloc_succeeds m →
  cur ++ pre = vis0 ++ a :: rest →
  Forall (fun b => C !! b = Some []) vis0 →
  C !! a = Some cs → cs ≠ [] →
  (∀ qr, queues m !! a = Some qr → length item = Z.to_nat (queue_itemSize qr)) →
  ∃ view m1 m2 n,
    taosGetQsetItemsNumber s m = Ok n m ∧
    taosReadAllQitemsFromQset s m = Ok (Z.of_nat (length cs), view) m1 ∧
    heap_wf m1 (<[a := []]> C) ∧
    set_inv m1 s (pre ++ cur) (Nat.iter (S (length vis0)) (advance (pre ++ cur)) cur) ∧
    taosGetQsetItemsNumber s m1 = Ok (wrap32 (n - Z.of_nat (length cs))) m1 ∧
    taosGetQueueItemsNumber a m1 = Ok 0 m1 ∧
    taosGetQitem_n (S (length cs)) view item m1
    = Ok (map (fun c => (1, c.2)) cs ++ [(0, item)]) m2.
Proof.
  intros Hwf Hinv Hal Hrot Hemp HC Hne Hit.
  pose proof Hinv as (_ & (sr0 & Hs0 & _ & _ & Hnum & _) & _).
  destruct (taosReadAllQitemsFromQset_loop_spec vis0 (length (pre ++ cur)) m C s
              (pre ++ cur) cur NULL a cs Hwf Hinv Hal)
    as (m1 & qr & sr & sr' & E & Hwf1 & Hinv1 & Hq & Hn1 & Ha1 & Hsr & Hsr' & Hk);
    try done.
  { rewrite walk_round, Hrot. exists rest. by rewrite <- app_assoc. }
  rewrite Hs0 in Hsr. injection Hsr as <-.
  pose proof Hwf as (_ & _ & _ & Hok & _).
  destruct (Hok a qr cs Hq HC) as (Hch & _ & _ & _ & _ & Hall & Hsz & _).
  set (ar := mkQall (queue_head qr) (queue_head qr) (queue_itemSize qr)
                    (queue_numOfItems qr)) in *.
  specialize (Hit qr Hq).
  assert (Hmap : map (fun c : ptr * list byte =>
                        (1, c.2 ++ drop (Z.to_nat (qall_itemSize ar)) item)) cs
                 = map (fun c => (1, c.2)) cs).
  { apply map_ext. intros c. simpl. by rewrite drop_ge, app_nil_r by lia. }
  destruct (taosGetQitem_n_pass cs m1 (brk m) ar item) as (m2 & E2 & _).
  { rewrite Ha1. apply lookup_insert_eq. }
  { by rewrite Hn1. }
  { done. }
  { eapply Forall_impl; [exact Hall|]. by intros c [_ ?]. }
  { simpl. lia. }
  rewrite Hmap in E2.
  exists (brk m), m1, m2, (qset_numOfItems sr0). split_and!; try done.
  - unfold taosGetQsetItemsNumber. by mstep.
  - unfold taosReadAllQitemsFromQset. mstep. by rewrite Hnum, Nat2Z.id.
  - unfold taosGetQsetItemsNumber. mstep. by rewrite Hk.
  - destruct (heap_wf_content_ok m1 _ a [] Hwf1) as (qr1 & Hq1 & Hok1);
      [apply lookup_insert_eq|].
    destruct Hok1 as (_ & _ & Hn0 & _).
    unfold taosGetQueueItemsNumber. mstep. by rewrite Hn0.
Qed.

Lemma set_drain_takes_first_nonempty_witness :
  ∃ view m1 m2,
    taosGetQsetItemsNumber 5%N mem_two_queues = Ok 2 mem_two_queues ∧
    taosReadAllQitemsFromQset 5%N mem_two_queues = Ok (1, view) m1 ∧
    taosGetQsetItemsNumber 5%N m1 = Ok 1 m1 ∧
    taosGetQueueItemsNumber 2%N m1 = Ok 0 m1 ∧
    taosGetQitem_n 2 view [Byte.x00] m1 = Ok [(1, [Byte.x02]); (0, [Byte.x00])] m2.
Proof.
  destruct mem_two_queues_ok as (Hwf & Hset & Hbuf).
  destruct (set_drain_takes_first_nonempty mem_two_queues _ 5%N [2%N; 1%N] [] [] [1%N] 2%N
              [(4%N, [Byte.x02])] [Byte.x00] Hwf mem_two_queues_inv)
    as (view & m1 & m2 & n & En & E & _ & _ & En1 & Ea & Ep);
    [reflexivity|reflexivity|constructor|reflexivity|discriminate| |].
  - intros qr Hq. vm_compute in Hq. by injection Hq as <-.
  - vm_compute in En. injection En as <-.
    exists view, m1, m2. by split_and!.
Defined.

(** ** Closing a set *)

(** X15: [taosCloseQset] frees the set record and nothing else: the
    member queues are not unbound, so each of them still points to the
    freed set.  A later [taosWriteQitem] on such a queue, a later
    [taosReadQitem] that finds an item in it, and a later [taosCloseQueue]
    of it all go through that pointer, which is a use of freed memory (a
    fault of the model). *)
Theorem close_set_leaves_members_bound
        (m : mem) C (s q : ptr) (qs cur : list ptr) (cs : list (ptr * list byte))
        (item : list byte) :
  heap_wf m C → set_inv m s qs cur → q ∈ qs → C !! q = Some cs →
  calloc_succeeds m →
  (∀ qr, queues m !! q = Some qr → (Z.to_nat (queue_itemSize qr) ≤ length item)%nat) →
  ∃ m', taosCloseQset s m = Ok tt m' ∧
        qsets m' !! s = None ∧
        queues m' = queues m ∧ nodes m' = nodes m ∧ qalls m' = qalls m ∧
        (∃ qr, queues m' !! q = Some qr ∧ queue_qset qr = s) ∧
        taosWriteQitem q item m' = Fault ∧
        (cs ≠ [] → taosReadQitem q item m' = Fault) ∧
        (∀ fuel, taosCloseQueue fuel q m' = Fault).
Proof.
  intros Hwf (Hsn & (sr & Hs & _) & Hbound & _) Hin HC Hal Hit.
  pose proof Hwf as (Hbrk & Hdom & Hfresh & Hok & Hdisj).
  destruct (heap_wf_content_ok m C q cs Hwf HC) as (qr & Hq & Hqok).
  destruct Hqok as (Hch & Htl & Hnum & Hmax & Hnd & Hall & Hsz & _).
  assert (Hqs : queue_qset qr = s) by (by apply (Hbound q qr Hq)).
  specialize (Hit qr Hq).
  apply is_null_false in Hsn.
  unfold taosCloseQset, free_qset. rewrite Hs.
  set (m' := set_qsets (delete s) m).
  assert (Hdead : qsets m' !! s = None) by (subst m'; simpl; apply lookup_delete_eq).
  assert (Hq' : queues m' !! q = Some qr) by done.
  exists m'. split; [reflexivity|]. split_and!; try done.
  - by exists qr.
  - (* the write *)
    assert (Hal' : calloc_succeeds m') by done.
    assert (Hbrk' : brk m' ≠ NULL) by done.
    assert (Hb : is_null (brk m') = false) by (by apply is_null_false).
    assert (Hbn : brk m ∉ cs.*1).
    { intros Hx. apply list_elem_of_fmap in Hx as (c & Hc & Hx).
      rewrite Forall_forall in Hall. destruct (Hall c Hx) as [Hlt _].
      rewrite <- Hc in Hlt. lia. }
    unfold taosWriteQitem. mstep.
    rewrite (bind_ok _ _ _ _ _ (calloc_qnode_granted m' _ Hal' Hbrk')).
    rewrite Hb. mstep.
    erewrite bind_ok; cycle 1.
    { apply do_memcpy_fits; [done|done|].
      unfold zero_qnode, zero_bytes. heap_simpl. by rewrite length_replicate. }
    mstep. mstep.
    destruct (decide (cs = [])) as [->|Hne].
    + rewrite Htl. change (is_null (last_addr [])) with true. heap_simpl.
      mstep. mstep. mstep. mstep. rewrite Hqs, Hsn. cbn [negb when].
      unfold bind at 1, upd_qset. heap_simpl. by rewrite Hdead.
    + assert (Htn : queue_tail qr ≠ NULL).
      { rewrite Htl. intros E. by apply (last_addr_null_iff _ _ _ Hch) in E. }
      assert (Htb : queue_tail qr ≠ brk m).
      { rewrite Htl. intros E. apply Hbn. rewrite <- E. by apply last_addr_elem. }
      assert (Htin : last_addr cs ∈ cs.*1) by (by apply last_addr_elem).
      destruct (chain_lookup _ _ _ _ Hch Htin) as [nt Hnt]. rewrite <- Htl in Hnt.
      apply is_null_false in Htn. rewrite Htn. heap_simpl.
      mstep. mstep. mstep. mstep. rewrite Hqs, Hsn. cbn [negb when].
      unfold bind at 1, upd_qset. heap_simpl. by rewrite Hdead.
  - (* the read *)
    intros Hne. destruct cs as [|c cs]; [done|].
    destruct Hch as (Hh & Hhn & nx & Hn & Hch).
    apply Forall_cons in Hall as [[_ Hc2] Hall].
    unfold taosReadQitem. mstep. apply is_null_false in Hhn. rewrite Hhn. cbn [negb].
    rewrite Hh in *. mstep.
    erewrite bind_ok; cycle 1.
    { apply do_memcpy_fits; [done| |done]. heap_simpl. lia. }
    mstep. mstep.
    destruct (is_null nx); cbn [when].
    + mstep. mstep. mstep. mstep. rewrite Hqs, Hsn. cbn [negb when].
      unfold bind at 1, upd_qset. heap_simpl. by rewrite Hdead.
    + rewrite bind_ret. mstep. mstep. mstep. rewrite Hqs, Hsn. cbn [negb when].
      unfold bind at 1, upd_qset. heap_simpl. by rewrite Hdead.
  - (* the close *)
    intros fuel. unfold taosCloseQueue. mstep. mstep. mstep.
    rewrite Hqs, Hsn. cbn [negb when].
    unfold bind at 1, bind at 1, taosRemoveFromQset, bind at 1, get_qset.
    heap_simpl. by rewrite Hdead.
Qed.

Lemma close_set_leaves_members_bound_witness :
  ∃ m', taosCloseQset 5%N mem_two_queues = Ok tt m' ∧
        taosWriteQitem 1%N [Byte.x07] m' = Fault ∧
        taosReadQitem 1%N [Byte.x07] m' = Fault ∧
        taosCloseQueue 5 1%N m' = Fault.
Proof.
  destruct mem_two_queues_ok as (Hwf & Hset & Hbuf).
  destruct (close_set_leaves_members_bound mem_two_queues _ 5%N 1%N [2%N; 1%N] []
              [(3%N, [Byte.x01])] [Byte.x07] Hwf mem_two_queues_inv)
    as (m' & E & _ & _ & _ & _ & _ & Hw & Hr & Hc).
  - apply list_elem_of_further, list_elem_of_here.
  - reflexivity.
  - reflexivity.
  - intros qr Hq. by apply (Hbuf 1%N).
  - exists m'. split_and!; [exact E|exact Hw|by apply Hr|apply Hc].
Defined.

(** ** Nodes are freed as items are read *)

(** The writes of [taosWriteQitem_all]: the new nodes lie at fresh
    addresses, and no node outside the chain of the queue is touched. *)
Lemma taosWriteQitem_all_nodes (items : list (list byte)) (m : mem) C (q : ptr)
      (qr : STaosQueue) (cs : list (ptr * list byte)) :
  heap_wf m C → queues m !! q = Some qr → C !! q = Some cs →
  calloc_grants (length items) m →
  Z.of_nat (length cs + length items) ≤ INT32_MAX →
  Forall (fun it => length it = Z.to_nat (queue_itemSize qr)) items →
  ∃ m' qr' cs',
    taosWriteQitem_all q items m = Ok (replicate (length items) 0) m' ∧
    heap_wf m' (<[q := cs ++ cs']> C) ∧
    cs'.*2 = items ∧
    queues m' !! q = Some qr' ∧
    queue_itemSize qr' = queue_itemSize qr ∧
    Forall (fun a => (brk m ≤ a)%N) cs'.*1 ∧
    (∀ a, a ∉ cs.*1 → a ∉ cs'.*1 → nodes m' !! a = nodes m !! a).
Proof.
  revert m C qr cs. induction items as [|it items IH]; intros m C qr cs Hwf Hq HC Hal Hlen Hall.
  - exists m, qr, []. split; [reflexivity|]. rewrite app_nil_r, insert_id by done.
    split_and!; try done.
  - apply calloc_grants_S in Hal as [Hal Hrest].
    apply Forall_cons in Hall as [Hit Hall]. cbn [length] in Hlen.
    pose proof Hwf as (_ & _ & _ & Hok & _).
    destruct (Hok q qr cs Hq HC) as (Hch & Htl & _).
    destruct (taosWriteQitem_effect m C q qr cs it Hwf Hq HC Hal) as
      (m1 & E1 & Hwf1 & O1 & A1 & Q1 & S1 & B1 & F1); [lia|lia|].
    rewrite take_ge in Hwf1 by lia.
    set (qr1 := mkQueue _ _ _ _ _ _) in Q1.
    destruct (IH m1 _ qr1 (cs ++ [(brk m, it)]) Hwf1) as
      (m2 & qr2 & cs2 & E2 & Hwf2 & Hcs2 & Hq2 & Hsz2 & Hfresh2 & F2).
    + rewrite Q1. apply lookup_insert_eq.
    + apply lookup_insert_eq.
    + unfold calloc_grants. by rewrite O1.
    + rewrite length_app. simpl. lia.
    + done.
    + exists m2, qr2, ((brk m, it) :: cs2).
      cbn [taosWriteQitem_all]. rewrite (bind_ok _ _ _ _ _ E1), (bind_ok _ _ _ _ _ E2).
      split; [reflexivity|]. rewrite insert_insert_eq, <- app_assoc in Hwf2.
      split_and!; try done.
      * rewrite fmap_cons. simpl. by rewrite Hcs2.
      * rewrite fmap_cons. apply Forall_cons. split; [simpl; lia|].
        eapply Forall_impl; [exact Hfresh2|]. intros a Ha. simpl in Ha. lia.
      * intros a Ha1 Ha2. rewrite fmap_cons in Ha2.
        apply not_elem_of_cons in Ha2 as [Hab Ha2]. simpl in Hab.
        rewrite F2, F1; [done|done| |by rewrite fmap_app, elem_of_app; intros [?|Hx];
          [done|simpl in Hx; apply list_elem_of_singleton in Hx]|done].
        intros Hne Hx. apply Ha1. rewrite Hx, Htl. by apply last_addr_elem.
Qed.

(** Reading a queue empty frees exactly the nodes of its chain. *)
Lemma taosReadQitem_n_nodes (cs : list (ptr * list byte)) (m : mem) C (q : ptr)
      (qr : STaosQueue) (item : list byte) :
  heap_wf m C → queues m !! q = Some qr → C !! q = Some cs →
  length item = Z.to_nat (queue_itemSize qr) →
  ∃ m',
    taosReadQitem_n (length cs) q item m = Ok (map (fun c => (1, c.2)) cs) m' ∧
    heap_wf m' (<[q := []]> C) ∧
    (∀ a, nodes m' !! a = if decide (a ∈ cs.*1) then None else nodes m !! a).
Proof.
  revert m C qr. induction cs as [|c cs IH]; intros m C qr Hwf Hq HC Hit.
  - exists m. rewrite insert_id by done. by split_and!.
  - pose proof Hwf as (_ & _ & _ & Hok & _).
    destruct (Hok q qr _ Hq HC) as (_ & _ & _ & _ & Hnd & _).
    rewrite fmap_cons in Hnd. apply NoDup_cons in Hnd as [Hc Hnd].
    destruct (taosReadQitem_effect m C q qr c cs item Hwf Hq HC) as
      (m1 & E1 & Hwf1 & O1 & A1 & Q1 & S1 & N1 & B1); [lia|].
    rewrite drop_ge, app_nil_r in E1 by lia.
    set (qr1 := mkQueue _ _ _ _ _ _) in Q1.
    destruct (IH m1 _ qr1 Hwf1) as (m2 & E2 & Hwf2 & N2).
    + rewrite Q1. apply lookup_insert_eq.
    + apply lookup_insert_eq.
    + done.
    + exists m2. cbn [length taosReadQitem_n].
      rewrite (bind_ok _ _ _ _ _ E1), (bind_ok _ _ _ _ _ E2).
      rewrite insert_insert_eq in Hwf2. split_and!; try done.
      intros a. rewrite N2, N1, fmap_cons.
      destruct (decide (a ∈ cs.*1)) as [Ha|Ha].
      * rewrite decide_True; [done|]. by apply list_elem_of_further.
      * destruct (decide (a = c.1)) as [->|Hne].
        -- rewrite decide_True by apply list_elem_of_here. apply lookup_delete_eq.
        -- rewrite decide_False; [by apply lookup_delete_ne|].
           intros Hx. apply elem_of_cons in Hx as [?|?]; done.
Qed.

(** X16: no node is left behind by writes and reads.  From a heap in
    which no node lies at an address that [calloc] has yet to hand out,
    writing [items] to a queue and then reading as many items as the
    queue holds returns the old items and then the new ones, leaves the
    queue empty, and frees every node of the queue, the old ones and the
    ones the writes allocated; every other node is as it was. *)
Theorem write_read_frees_every_node
        (m : mem) C (q : ptr) (qr : STaosQueue) (cs : list (ptr * list byte))
        (items : list (list byte)) (item : list byte) :
  heap_wf m C → queues m !! q = Some qr → C !! q = Some cs →
  (∀ a, (brk m ≤ a)%N → nodes m !! a = None) →
  calloc_grants (length items) m →
  Z.of_nat (length cs + length items) ≤ INT32_MAX →
  Forall (fun it => length it = Z.to_nat (queue_itemSize qr)) items →
  length item = Z.to_nat (queue_itemSize qr) →
  ∃ m1 m2,
    taosWriteQitem_all q items m = Ok (replicate (length items) 0) m1 ∧
    taosReadQitem_n (length cs + length items) q item m1
    = Ok (map (fun it => (1, it)) (cs.*2 ++ items)) m2 ∧
    (∀ a, nodes m2 !! a = if decide (a ∈ cs.*1) then None else nodes m !! a) ∧
    heap_wf m2 (<[q := []]> C) ∧
    taosGetQueueItemsNumber q m2 = Ok 0 m2.
Proof.
  intros Hwf Hq HC Hfree Hal Hlen Hall Hit.
  destruct (taosWriteQitem_all_nodes items m C q qr cs Hwf Hq HC Hal Hlen Hall)
    as (m1 & qr1 & cs1 & E1 & Hwf1 & Hcs1 & Hq1 & Hsz1 & Hfresh1 & F1).
  destruct (taosReadQitem_n_nodes (cs ++ cs1) m1 _ q qr1 item Hwf1 Hq1)
    as (m2 & E2 & Hwf2 & N2); [apply lookup_insert_eq|by rewrite Hsz1|].
  assert (Hl1 : length cs1 = length items) by (by rewrite <- Hcs1, length_fmap).
  rewrite length_app, Hl1 in E2. rewrite insert_insert_eq in Hwf2.
  exists m1, m2. split_and!; try done.
  - rewrite E2. f_equal. rewrite <- Hcs1, <- fmap_app.
    by rewrite <- (list_fmap_compose snd (fun it => (1, it))).
  - intros a. rewrite N2, fmap_app.
    destruct (decide (a ∈ cs.*1)) as [Ha|Ha].
    + rewrite decide_True; [done|]. apply elem_of_app. by left.
    + destruct (decide (a ∈ cs1.*1)) as [Ha1|Ha1].
      * rewrite decide_True by (apply elem_of_app; by right).
        rewrite Forall_forall in Hfresh1. symmetry. apply Hfree. by apply Hfresh1.
      * rewrite decide_False; [by apply F1|].
        intros Hx. apply elem_of_app in Hx as [?|?]; done.
  - destruct (heap_wf_content_ok m2 _ q [] Hwf2) as (qr2 & Hq2 & Hok2);
      [apply lookup_insert_eq|].
    destruct Hok2 as (_ & _ & Hn0 & _).
    unfold taosGetQueueItemsNumber. mstep. by rewrite Hn0.
Qed.

Lemma write_read_frees_every_node_witness :
  ∃ m1 m2,
    taosWriteQitem_all 1%N [[Byte.x0b]] mem_loose_items = Ok [0] m1 ∧
    taosReadQitem_n 3 1%N [Byte.x00] m1
    = Ok [(1, [Byte.x07]); (1, [Byte.x09]); (1, [Byte.x0b])] m2 ∧
    nodes m2 !! 2%N = None ∧ nodes m2 !! 3%N = None ∧ nodes m2 !! 4%N = None.
Proof.
  destruct (write_read_frees_every_node mem_loose_items _ 1%N
              (mkQueue 1 2 2%N 3%N NULL NULL) [(2%N, [Byte.x07]); (3%N, [Byte.x09])]
              [[Byte.x0b]] [Byte.x00] heap_wf_loose_items)
    as (m1 & m2 & E1 & E2 & N2 & _).
  - reflexivity.
  - reflexivity.
  - intros a Ha. unfold mem_loose_items in *. heap_simpl.
    rewrite lookup_insert_ne, lookup_singleton_ne; [done|intros <-; simpl in Ha; lia..].
  - reflexivity.
  - unfold INT32_MAX. simpl. lia.
  - repeat constructor.
  - reflexivity.
  - exists m1, m2. split_and!; [exact E1|exact E2|by rewrite N2..].
Defined.

(** ** Fresh queues and sets *)

(** X17: what [calloc]'s zero fill gives a fresh object.  A queue that
    [taosOpenQueue] returns is a new, non-null handle; it holds no item
    ([taosGetQueueItemsNumber] is [0], [taosReadQitem] returns [0] and
    leaves the buffer alone, [taosReadAllQitems] returns [0] and a [NULL]
    view) and is bound to no set, so [taosAddIntoQset] accepts it.  A set
    that [taosOpenQset] returns has no member and no item, and both polls
    return [0] on it. *)
Theorem fresh_queue_and_set_are_empty
        (m : mem) C (itemSize : Z) (item : list byte) :
  heap_wf m C → calloc_succeeds m → 0 ≤ itemSize ≤ INT32_MAX →
  (∃ q m', taosOpenQueue itemSize m = Ok q m' ∧
           q ≠ NULL ∧ queues m !! q = None ∧
           heap_wf m' (<[q := []]> C) ∧
           taosGetQueueItemsNumber q m' = Ok 0 m' ∧
           taosReadQitem q item m' = Ok (0, item) m' ∧
           taosReadAllQitems q m' = Ok (0, NULL) m' ∧
           ∀ s qs cur, set_ok m' s qs cur → q ∉ qs →
                       Z.of_nat (length qs) < INT32_MAX →
                       ∃ m'', taosAddIntoQset s q m' = Ok 0 m'' ∧
                              set_ok m'' s (q :: qs) cur) ∧
  (∃ s m', taosOpenQset m = Ok s m' ∧
           s ≠ NULL ∧
           heap_wf m' C ∧
           taosGetQueueNumber s m' = Ok 0 m' ∧
           taosGetQsetItemsNumber s m' = Ok 0 m' ∧
           taosReadQitemFromQset s item m' = Ok (0, item) m' ∧
           taosReadAllQitemsFromQset s m' = Ok (0, NULL) m').
Proof.
  intros Hwf Hal Hsz. pose proof Hwf as (Hbrk & _ & Hfresh & _). split.
  - destruct (taosOpenQueue_spec m C itemSize Hwf Hal Hsz)
      as (m' & E & Hwf' & Hq' & _).
    assert (HC : (<[brk m := []]> C) !! brk m = Some []) by apply lookup_insert_eq.
    assert (Hq : queues m' !! brk m = Some (mkQueue itemSize 0 NULL NULL NULL NULL))
      by (rewrite Hq'; apply lookup_insert_eq).
    exists (brk m), m'. split_and!; try done.
    + destruct (queues m !! brk m) as [qr|] eqn:El; [|done].
      pose proof (Hfresh _ _ El). lia.
    + unfold taosGetQueueItemsNumber. by mstep.
    + by eapply taosReadQitem_empty.
    + by eapply taosReadAllQitems_empty.
    + intros s qs cur Hset Hin Hlen.
      destruct (taosAddIntoQset_spec m' _ s (brk m) _ qs cur Hwf' Hset Hq)
        as (m'' & Ea & _ & Hset'' & _); try done.
      by exists m''.
  - destruct (taosOpenQset_spec m C Hwf Hal) as (m' & E & Hwf' & _ & _ & _ & Hs' & _).
    assert (Hs : qsets m' !! brk m = Some zero_qset) by (rewrite Hs'; apply lookup_insert_eq).
    exists (brk m), m'. split_and!; try done.
    + unfold taosGetQueueNumber. by mstep.
    + unfold taosGetQsetItemsNumber. by mstep.
    + unfold taosReadQitemFromQset. by mstep.
    + unfold taosReadAllQitemsFromQset. by mstep.
Qed.

Lemma fresh_queue_and_set_are_empty_witness :
  (∃ q m', taosOpenQueue 4 mem_loose_items = Ok q m' ∧
           taosGetQueueItemsNumber q m' = Ok 0 m' ∧
           taosReadQitem q (int32_bytes 7) m' = Ok (0, int32_bytes 7) m' ∧
           taosReadAllQitems q m' = Ok (0, NULL) m') ∧
  (∃ s m', taosOpenQset mem_loose_items = Ok s m' ∧
           taosGetQueueNumber s m' = Ok 0 m' ∧
           taosReadQitemFromQset s (int32_bytes 7) m' = Ok (0, int32_bytes 7) m').
Proof.
  destruct (fresh_queue_and_set_are_empty mem_loose_items _ 4 (int32_bytes 7)
              heap_wf_loose_items)
    as [(q & m1 & E1 & _ & _ & _ & Hn & Hr & Hd & _) (s & m2 & E2 & _ & _ & Hk & _ & Hp & _)];
    [reflexivity|unfold INT32_MAX; simpl; lia|].
  split; [by exists q, m1|by exists s, m2].
Defined.

(** ** Closing the queue under the cursor *)

(** X18: [taosCloseQueue] of the first member of a set while the cursor
    of the set stands on it.  The call returns and frees the queue.  The
    head of the member list moves on, but the cursor does not: it still
    holds the address of the freed queue, and the next poll of the set,
    by [taosReadQitemFromQset] or by [taosReadAllQitemsFromQset], reads
    that queue (a use of freed memory, a fault of the model). *)
Theorem close_first_member_under_cursor
        (m : mem) (s q : ptr) (qr : STaosQueue) (qs : list ptr)
        (cs : list (ptr * list byte)) (item : list byte) (fuel : nat) :
  s ≠ NULL → set_ok m s (q :: qs) (q :: qs) → qs ≠ [] →
  queues m !! q = Some qr → queue_qset qr = s →
  chain (nodes m) (queue_head qr) cs →
  (length cs < fuel)%nat →
  Z.of_nat (length qs) < INT32_MAX →
  ∃ m' sr',
    taosCloseQueue fuel q m = Ok tt m' ∧
    queues m' !! q = None ∧
    qsets m' !! s = Some sr' ∧
    qset_head sr' = hd NULL qs ∧ qset_current sr' = q ∧
    qset_numOfQueues sr' = Z.of_nat (length qs) ∧
    taosReadQitemFromQset s item m' = Fault ∧
    taosReadAllQitemsFromQset s m' = Fault.
Proof.
  intros Hsn (sr & Hs & Hch & Hnd & Hnum & _ & Hcur) Hqs Hq Hbound Hchain Hf Hlen.
  destruct Hch as (Hh & Hnn & qr0 & Hq0 & Hch). rewrite Hh, Hq in Hq0.
  injection Hq0 as <-. rewrite Hh in Hnn.
  pose proof (qchain_hd _ _ _ Hch) as Hnx. cbn [hd] in Hcur.
  assert (Hw : wrap32 (qset_numOfQueues sr - 1) = Z.of_nat (length qs)).
  { rewrite Hnum. cbn [length]. rewrite wrap32_id; unfold INT32_MAX in *; lia. }
  unfold taosCloseQueue. mstep. mstep. mstep. rewrite Hbound.
  apply is_null_false in Hsn. rewrite Hsn. cbn [negb when].
  set (m1 := set_queues (insert q (set_queue_head NULL qr)) m).
  rewrite (bind_ok _ _ _ _ _
             (taosRemoveFromQset_first_member m1 s q sr (set_queue_head NULL qr) fuel
                Hs Hh Hnn (lookup_insert_eq _ _ _))).
  heap_simpl. rewrite Hw, Hnx.
  set (sr' := mkQset (hd NULL qs) (qset_current sr) (Z.of_nat (length qs))
                     (qset_numOfItems sr)).
  set (m2 := set_qsets (insert s sr') m1).
  destruct (taosCloseQueue_loop_spec cs fuel (queue_head qr) m2)
    as (m3 & E3 & _ & Hq3 & Hs3 & _); [done|by eapply chain_NoDup|done|].
  rewrite (bind_ok _ _ _ _ _ E3).
  assert (Hl : queues m3 !! q = Some (set_queue_head NULL qr))
    by (rewrite Hq3; apply lookup_insert_eq).
  unfold free_queue. rewrite Hl.
  set (m' := set_queues (delete q) m3).
  assert (Hdead : queues m' !! q = None) by (subst m'; simpl; apply lookup_delete_eq).
  assert (Hs' : qsets m' !! s = Some sr')
    by (subst m'; simpl; rewrite Hs3; apply lookup_insert_eq).
  assert (Hc' : is_null (qset_current sr') = false).
  { subst sr'. heap_simpl. rewrite Hcur. by apply is_null_false. }
  assert (Hk : Z.to_nat (qset_numOfQueues sr') = S (length qs - 1)).
  { subst sr'. simpl. rewrite Nat2Z.id. destruct qs; [done|]. simpl. lia. }
  exists m', sr'. split; [reflexivity|].
  split; [exact Hdead|]. split; [exact Hs'|]. split; [reflexivity|].
  split; [exact Hcur|]. split; [reflexivity|]. split.
  - unfold taosReadQitemFromQset. mstep. rewrite Hk.
    cbn [taosReadQitemFromQset_loop]. mstep. rewrite Hc'. cbn [when]. rewrite bind_ret.
    mstep. rewrite Hc'. cbn [negb].
    unfold bind at 1, bind at 1, get_queue.
    subst sr'. heap_simpl. rewrite Hcur. by rewrite Hdead.
  - unfold taosReadAllQitemsFromQset. mstep. rewrite Hk.
    cbn [taosReadAllQitemsFromQset_loop]. mstep. rewrite Hc'. cbn [when]. rewrite bind_ret.
    mstep. rewrite Hc'. cbn [negb].
    unfold bind at 1, bind at 1, get_queue.
    subst sr'. heap_simpl. rewrite Hcur. by rewrite Hdead.
Qed.

Lemma close_first_member_under_cursor_witness :
  match setup_cursor_on_head 2 (mem_init (replicate 6 true)) with
  | Ok (s, b) m =>
      ∃ m', taosCloseQueue 2 b m = Ok tt m' ∧
            taosReadQitemFromQset s [Byte.x00] m' = Fault ∧
            taosReadAllQitemsFromQset s m' = Fault
  | _ => False
  end.
Proof.
  destruct (setup_cursor_on_head 2 (mem_init (replicate 6 true))) as [[s b] m| |] eqn:E;
    vm_compute in E; try discriminate E.
  injection E as <- <- <-.
  match goal with
  | |- context [taosCloseQueue _ _ ?m] =>
      destruct (close_first_member_under_cursor m 1%N 3%N (mkQueue 1 1 5%N 5%N 2%N 1%N)
                  [2%N] [(5%N, [Byte.x0b])] [Byte.x00] 2)
        as (m' & sr' & E1 & _ & _ & _ & _ & _ & Hp & Hd)
  end.
  - done.
  - eexists. split; [reflexivity|]. split_and!.
    + simpl. split_and!; try done. eexists. split; [reflexivity|]. simpl.
      split_and!; try done. eexists. split; [reflexivity|]. done.
    + apply (bool_decide_unpack _). reflexivity.
    + reflexivity.
    + done.
    + reflexivity.
  - done.
  - reflexivity.
  - reflexivity.
  - simpl. split_and!; try done. eexists. split; [reflexivity|]. done.
  - simpl. lia.
  - unfold INT32_MAX. simpl. lia.
  - exists m'. by split_and!.
Defined.

(** ** How many bytes travel *)

(** X19: an item travels as [itemSize] bytes.  [taosWriteQitem] stores
    the first [itemSize] bytes of what the caller passes, whatever follows
    them; [taosReadQitem] overwrites the first [itemSize] bytes of the
    caller's buffer with them and leaves the rest of the buffer as it
    was.  With [itemSize = 0] the read returns [1] and the buffer is
    untouched. *)
Theorem item_size_bytes_round_trip
        (m : mem) C (q : ptr) (qr : STaosQueue) (item buf : list byte) :
  heap_wf m C → queues m !! q = Some qr → C !! q = Some [] →
  calloc_succeeds m →
  (Z.to_nat (queue_itemSize qr) ≤ length item)%nat →
  (Z.to_nat (queue_itemSize qr) ≤ length buf)%nat →
  ∃ m1 m2,
    taosWriteQitem q item m = Ok 0 m1 ∧
    taosReadQitem q buf m1
    = Ok (1, take (Z.to_nat (queue_itemSize qr)) item
             ++ drop (Z.to_nat (queue_itemSize qr)) buf) m2 ∧
    taosReadQitem q buf m2 = Ok (0, buf) m2 ∧
    (queue_itemSize qr = 0 → taosReadQitem q buf m1 = Ok (1, buf) m2).
Proof.
  intros Hwf Hq HC Hal Hit Hbuf.
  destruct (taosWriteQitem_spec m C q qr [] item Hwf Hq HC Hal)
    as (m1 & E1 & Hwf1 & _ & _ & Q1 & _); [unfold INT32_MAX; simpl; lia|done|].
  simpl in Hwf1.
  set (qr1 := mkQueue _ _ _ _ _ _) in Q1.
  destruct (taosReadQitem_spec m1 _ q qr1 (brk m, take (Z.to_nat (queue_itemSize qr)) item)
              [] buf Hwf1)
    as (m2 & E2 & Hwf2 & _); [rewrite Q1; apply lookup_insert_eq|apply lookup_insert_eq|done|].
  rewrite insert_insert_eq in Hwf2. subst qr1. heap_simpl.
  exists m1, m2. split_and!; try done.
  - eapply taosReadQitem_empty; [exact Hwf2|apply lookup_insert_eq].
  - intros H0. rewrite E2, H0. simpl. by rewrite drop_0.
Qed.

Lemma item_size_bytes_round_trip_witness :
  ∃ m1 m2,
    taosWriteQitem 1%N [Byte.x01; Byte.x02; Byte.x03; Byte.x04; Byte.x05; Byte.x06] mem_queue4
    = Ok 0 m1 ∧
    taosReadQitem 1%N [Byte.xa0; Byte.xa1; Byte.xa2; Byte.xa3; Byte.xa4] m1
    = Ok (1, [Byte.x01; Byte.x02; Byte.x03; Byte.x04; Byte.xa4]) m2.
Proof.
  destruct (item_size_bytes_round_trip mem_queue4 _ 1%N (mkQueue 4 0 NULL NULL NULL NULL)
              [Byte.x01; Byte.x02; Byte.x03; Byte.x04; Byte.x05; Byte.x06]
              [Byte.xa0; Byte.xa1; Byte.xa2; Byte.xa3; Byte.xa4] heap_wf_queue4)
    as (m1 & m2 & E1 & E2 & _);
    [reflexivity|reflexivity|reflexivity|simpl; lia|simpl; lia|].
  by exists m1, m2.
Defined.

(** ** From a member queue to the poll of its set *)

(** X20: an item written to a member queue is delivered by the next poll
    of the set.  When every member of the set is empty and an item is
    written to one of them, wherever in the member list the cursor of the
    set stands ([NULL] or on a member, not on a removed queue), the
    next [taosReadQitemFromQset] returns [1] with that item in the
    caller's buffer, and the queue is empty again. *)
Theorem written_item_is_polled
        (m : mem) C (s q : ptr) (qr : STaosQueue) (qs cur : list ptr)
        (item buf : list byte) :
  heap_wf m C → set_ok m s qs cur → q ∈ qs → queues m !! q = Some qr →
  (∀ a, a ∈ qs → C !! a = Some []) →
  calloc_succeeds m →
  length item = Z.to_nat (queue_itemSize qr) →
  buffer_fits m buf →
  ∃ m1 m2,
    taosWriteQitem q item m = Ok 0 m1 ∧
    taosReadQitemFromQset s buf m1
    = Ok (1, item ++ drop (Z.to_nat (queue_itemSize qr)) buf) m2 ∧
    taosGetQueueItemsNumber q m2 = Ok 0 m2.
Proof.
  intros Hwf Hset Hin Hq Hemp Hal Hit Hbuf.
  destruct (taosWriteQitem_spec m C q qr [] item Hwf Hq (Hemp q Hin) Hal)
    as (m1 & E1 & Hwf1 & _ & _ & Q1 & S1); [unfold INT32_MAX; simpl; lia|lia|].
  rewrite take_ge in Hwf1 by lia. simpl in Hwf1.
  set (qr1 := mkQueue _ _ _ _ _ _) in Q1.
  assert (Hset1 : set_ok m1 s qs cur).
  { eapply set_ok_frame; [exact Hset| |].
    - intros sr Hs. rewrite S1. destruct (is_null (queue_qset qr)); [eauto|].
      destruct (decide (queue_qset qr = s)) as [->|Hne].
      + rewrite lookup_alter_eq, Hs. simpl. eexists. split; [done|]. done.
      + rewrite lookup_alter_ne by done. eauto.
    - intros a qa Ha Hqa. rewrite Q1. destruct (decide (q = a)) as [<-|Hne].
      + rewrite lookup_insert_eq. eexists. split; [done|]. subst qr1. simpl. congruence.
      + rewrite lookup_insert_ne by done. eauto. }
  assert (Hbuf1 : buffer_fits m1 buf).
  { eapply buffer_fits_frame; [exact Hbuf|]. rewrite Q1. intros p q' Hl.
    apply lookup_insert_Some in Hl as [[<- <-]|[_ Hl]]; eauto. }
  destruct (taosReadQitemFromQset_visits_spec m1 _ s qs cur buf Hwf1 Hset1 Hbuf1)
    as (code & buf' & visited & m2 & C2 & E2 & Hwf2 & _ & _ & Hpre & Hres).
  destruct Hset as (_ & _ & _ & Hnd & _ & [pre ->] & _).
  rewrite walk_round in Hres, Hpre.
  destruct Hres as [(_ & _ & _ & -> & Hall)|(-> & vis0 & a & c & cs & qa & Hres)].
  { (* the round cannot have found every queue empty *)
    rewrite Forall_forall in Hall.
    assert (q ∈ cur ++ pre) as Hin'.
    { apply elem_of_app. apply elem_of_app in Hin as [?|?]; [by right|by left]. }
    specialize (Hall q Hin'). by rewrite lookup_insert_eq in Hall. }
  destruct Hres as (-> & Hv0 & HCa & Hqa & -> & ->).
  assert (a = q) as ->.
  { destruct (decide (a = q)) as [|Hne]; [done|].
    rewrite lookup_insert_ne in HCa by done.
    assert (a ∈ pre ++ cur) as Ha.
    { destruct Hpre as [k Hk].
      assert (a ∈ cur ++ pre) as Hx.
      { rewrite Hk, <- app_assoc. apply elem_of_app. right. apply list_elem_of_here. }
      apply elem_of_app. apply elem_of_app in Hx as [?|?]; [by right|by left]. }
    by rewrite (Hemp a Ha) in HCa. }
  rewrite lookup_insert_eq in HCa. injection HCa as <- <-.
  rewrite Q1, lookup_insert_eq in Hqa. injection Hqa as <-.
  exists m1, m2. split; [exact E1|]. split.
  - rewrite taosReadQitemFromQset_visits_erase. unfold bind at 1. by rewrite E2.
  - destruct (heap_wf_content_ok m2 _ q [] Hwf2) as (qr2 & Hq2 & Hok2).
    { rewrite insert_insert_eq. apply lookup_insert_eq. }
    destruct Hok2 as (_ & _ & Hn0 & _).
    unfold taosGetQueueItemsNumber. mstep. by rewrite Hn0.
Qed.

Lemma written_item_is_polled_witness :
  ∃ m1 m2,
    taosWriteQitem 2%N [Byte.x2a] mem_idle_set = Ok 0 m1 ∧
    taosReadQitemFromQset 3%N [Byte.x00] m1 = Ok (1, [Byte.x2a]) m2 ∧
    taosGetQueueItemsNumber 2%N m2 = Ok 0 m2.
Proof.
  destruct mem_idle_set_ok as [Hwf Hset].
  apply (written_item_is_polled mem_idle_set _ 3%N 2%N (mkQueue 1 0 NULL NULL 1%N 3%N)
           [2%N; 1%N] [1%N] [Byte.x2a] [Byte.x00] Hwf Hset).
  - apply list_elem_of_here.
  - reflexivity.
  - intros a Ha. apply elem_of_cons in Ha as [->|Ha]; [reflexivity|].
    apply list_elem_of_singleton in Ha as ->. reflexivity.
  - reflexivity.
  - reflexivity.
  - intros p qr Hl. unfold mem_idle_set in Hl. heap_simpl.
    apply lookup_insert_Some in Hl as [[<- <-]|[_ Hl]]; [simpl; lia|].
    apply lookup_singleton_Some in Hl as [<- <-]. simpl. lia.
Defined.
